(** * AI-Backend-Reviewer: the analysis pipeline, embedded and verified

    The development follows the JavaScript sources:
    - [src/analyzer/route-reflector.js]  (both scanner implementations),
    - [src/analyzer/ast-parser.js]       ([extractFunctionCode]),
    - [src/genai/adapter.js]             ([cleanGeminiResponse]),
    - [src/genai/client.js]              ([analyzeEndpoint]),
    - [src/scripts/run-full-analysis.js] ([analyzeReports]).

    Conventions.  A JavaScript string is a [string] holding the bytes of
    its UTF-8 encoding: one [ascii] per code unit on ASCII text, two to four
    per character outside ASCII.  Searching, matching and cutting at the
    positions a search returned do the same on the bytes as on the code
    units; where an offset or a length comes from outside (the offsets of
    the parser, the 400 of a snippet) or the class of a character matters
    (white space), the definitions say what they count, and the theorems
    say on which texts they hold.  Exceptions are values of a result type.
    The file system, the Babel parser, the GenAI SDK, the [p-retry]
    package and Node's [path] module and console are outside the
    repository: the file system is a finite map, the parser's output (an
    ESTree) is an input, the SDK is a stream of call outcomes, [path] is
    written out for POSIX, and what differs between the releases of
    [p-retry] is a parameter. *)

From Stdlib Require Import Ascii String List Arith Lia Bool ZArith.
From stdpp Require Import base option list gmap strings.

Import ListNotations.
Local Open Scope string_scope.
Local Open Scope nat_scope.
Local Open Scope stdpp_scope.

(* ===================================================================== *)
(** * JavaScript strings *)
(* ===================================================================== *)

Module JsString.

Definition dquote : ascii := "034"%char.
Definition newline : ascii := "010"%char.
Definition backtick : ascii := "096"%char.

(** The one-character string holding a double quote. *)
Definition dq : string := String dquote EmptyString.
Definition nl : string := String newline EmptyString.

Definition code (c : ascii) : nat := nat_of_ascii c.

Definition between (lo hi : nat) (c : ascii) : bool :=
  (lo <=? code c) && (code c <=? hi).

Definition is_upper : ascii -> bool := between 65 90.
Definition is_lower : ascii -> bool := between 97 122.
Definition is_digit : ascii -> bool := between 48 57.

Definition toUpperChar (c : ascii) : ascii :=
  if is_lower c then ascii_of_nat (code c - 32) else c.
Definition toLowerChar (c : ascii) : ascii :=
  if is_upper c then ascii_of_nat (code c + 32) else c.

(** [String.prototype.toUpperCase] on ASCII. *)
Fixpoint toUpperCase (s : string) : string :=
  match s with
  | EmptyString => EmptyString
  | String c s' => String (toUpperChar c) (toUpperCase s')
  end.

(** White space and line terminators of ASCII: TAB, LF, VT, FF, CR, SP.
    JavaScript counts some characters outside ASCII as white space too
    (U+00A0, U+FEFF, U+2028 and others): [trim] and the class [\s] below
    are those of JavaScript on ASCII text. *)
Definition is_space (c : ascii) : bool :=
  between 9 13 c || (code c =? 32).

Definition is_line_terminator (c : ascii) : bool :=
  (code c =? 10) || (code c =? 13).

(** [\w] *)
Definition is_word (c : ascii) : bool :=
  is_upper c || is_lower c || is_digit c || (code c =? 95).

Fixpoint drop (n : nat) (s : string) : string :=
  match n, s with
  | S n', String _ s' => drop n' s'
  | _, _ => s
  end.

Fixpoint take (n : nat) (s : string) : string :=
  match n, s with
  | S n', String c s' => String c (take n' s')
  | _, _ => EmptyString
  end.

(** [s.slice(start, end)] for non-negative indices: out-of-range indices
    are clamped and an empty string results when [end <= start].  The
    indices count bytes: they are those of JavaScript when they come from a
    search in [s], and on ASCII text. *)
Definition slice (s : string) (start end_ : nat) : string :=
  take (end_ - start) (drop start s).

(** The bytes of UTF-8 by what they add to the length of the JavaScript
    string: a continuation byte adds nothing, the first byte of a
    character adds its one code unit, or its two when the character takes
    four bytes (a surrogate pair). *)
Definition is_continuation (c : ascii) : bool := between 128 191 c.

Definition units (c : ascii) : nat :=
  if is_continuation c then 0 else if code c <? 240 then 1 else 2.

(** The text from the code unit of index [n] on. *)
Fixpoint drop_units (n : nat) (s : string) : string :=
  match s with
  | EmptyString => EmptyString
  | String c s' =>
      if is_continuation c then drop_units n s'
      else
        match n with
        | 0 => s
        | S _ => drop_units (n - units c) s'
        end
  end.

(** The text of the first [n] code units. *)
Fixpoint take_units (n : nat) (s : string) : string :=
  match s with
  | EmptyString => EmptyString
  | String c s' =>
      if is_continuation c then String c (take_units n s')
      else
        match n with
        | 0 => EmptyString
        | S _ => String c (take_units (n - units c) s')
        end
  end.

(** [s.slice(start, end)] for offsets in code units that do not fall
    inside a surrogate pair, as the offsets of the tokens of a parser. *)
Definition slice_units (s : string) (start end_ : nat) : string :=
  take_units (end_ - start) (drop_units start s).

(** [s.slice(start)] *)
Definition slice_from (s : string) (start : nat) : string := drop start s.

Fixpoint rev_acc (s acc : string) : string :=
  match s with
  | EmptyString => acc
  | String c s' => rev_acc s' (String c acc)
  end.
Definition rev (s : string) : string := rev_acc s EmptyString.

(** [s.indexOf(c)] for a one-character needle; [None] stands for -1. *)
Fixpoint indexOf_from (c : ascii) (i : nat) (s : string) : option nat :=
  match s with
  | EmptyString => None
  | String d s' => if Ascii.eqb d c then Some i else indexOf_from c (S i) s'
  end.
Definition indexOf (s : string) (c : ascii) : option nat := indexOf_from c 0 s.

(** [s.lastIndexOf(c)] *)
Fixpoint lastIndexOf_from (c : ascii) (i : nat) (s : string)
    (last : option nat) : option nat :=
  match s with
  | EmptyString => last
  | String d s' =>
      lastIndexOf_from c (S i) s' (if Ascii.eqb d c then Some i else last)
  end.
Definition lastIndexOf (s : string) (c : ascii) : option nat :=
  lastIndexOf_from c 0 s None.

Fixpoint trimStart (s : string) : string :=
  match s with
  | String c s' => if is_space c then trimStart s' else s
  | EmptyString => EmptyString
  end.

(** [s.trim()] *)
Definition trim (s : string) : string := rev (trimStart (rev (trimStart s))).

(** [s.endsWith(suffix)] *)
Definition endsWith (s suffix : string) : bool :=
  String.eqb (drop (String.length s - String.length suffix) s) suffix
  && (String.length suffix <=? String.length s).

(** Every character of the string satisfies [p]. *)
Fixpoint all_chars (p : ascii -> bool) (s : string) : bool :=
  match s with
  | EmptyString => true
  | String c s' => p c && all_chars p s'
  end.

(** Truthiness of a string: a string is falsy exactly when empty. *)
Definition truthy (s : string) : bool :=
  match s with EmptyString => false | _ => true end.

(** The text is ASCII: its bytes are its code units. *)
Definition is_ascii (s : string) : bool := all_chars (fun c => code c <? 128) s.

End JsString.

(* ===================================================================== *)
(** * Regular expressions: the backtracking matcher of ECMAScript *)
(* ===================================================================== *)

Module Regex.
Import JsString.

(** Members of a character class [[...]]. *)
Inductive citem : Type :=
| CChar (c : ascii)
| CRange (lo hi : ascii)
| CSpace                       (* \s *)
| CNonSpace                    (* \S *)
| CWord.                       (* \w *)

Inductive regex : Type :=
| REmpty
| RChar (c : ascii)
| RAny                                   (* .  *)
| RSet (negated : bool) (items : list citem)
| RBol                                   (* ^  *)
| REol                                   (* $  *)
| RSeq (r1 r2 : regex)
| RAlt (r1 r2 : regex)
| RStar (greedy : bool) (r : regex)      (* r* and r*? *)
| ROpt (greedy : bool) (r : regex)       (* r? and r?? *)
| RGroup (n : nat) (r : regex).          (* the n-th capturing group *)

(** A literal such as [/.../gi]: body, number of groups, flags. *)
Record regexp : Type := RegExp {
  re_body : regex;
  re_groups : nat;
  re_ignoreCase : bool;
  re_global : bool
}.

Definition RPlus (greedy : bool) (r : regex) : regex :=
  RSeq r (RStar greedy r).

Fixpoint RLit (s : string) : regex :=
  match s with
  | EmptyString => REmpty
  | String c EmptyString => RChar c
  | String c s' => RSeq (RChar c) (RLit s')
  end.

Fixpoint RSeqs (rs : list regex) : regex :=
  match rs with
  | [] => REmpty
  | [r] => r
  | r :: rs' => RSeq r (RSeqs rs')
  end.

Fixpoint RAlts (rs : list regex) : regex :=
  match rs with
  | [] => REmpty
  | [r] => r
  | r :: rs' => RAlt r (RAlts rs')
  end.

(** Canonicalize of the specification: upper-casing under the [i] flag. *)
Definition canon (ic : bool) (c : ascii) : ascii :=
  if ic then toUpperChar c else c.

Definition in_range (lo hi c : ascii) : bool :=
  between (code lo) (code hi) c.

Definition citem_matches (ic : bool) (it : citem) (ch : ascii) : bool :=
  match it with
  | CChar c => Ascii.eqb (canon ic c) (canon ic ch)
  | CRange lo hi =>
      in_range lo hi ch
      || (ic && (in_range lo hi (toUpperChar ch) || in_range lo hi (toLowerChar ch)))
  | CSpace => is_space ch
  | CNonSpace => negb (is_space ch)
  | CWord => is_word ch
  end.

Definition set_matches (ic negated : bool) (items : list citem) (ch : ascii) : bool :=
  xorb negated (existsb (fun it => citem_matches ic it ch) items).

(** Captures: slot 0 is the whole match, slot n the n-th group;
    [None] is [undefined]. *)
Definition caps : Type := list (option string).

Fixpoint groups_of (r : regex) : list nat :=
  match r with
  | RSeq r1 r2 | RAlt r1 r2 => groups_of r1 ++ groups_of r2
  | RStar _ r1 | ROpt _ r1 => groups_of r1
  | RGroup n r1 => n :: groups_of r1
  | _ => []
  end.

Definition clear_groups (r : regex) (c : caps) : caps :=
  fold_right (fun n acc => <[n := None]> acc) c (groups_of r).

Definition orElse {R} (a : option R) (b : unit -> option R) : option R :=
  match a with
  | Some x => Some x
  | None => b tt
  end.

(** [rmatch ic r i s c k]: match [r] at index [i], where [s] is the input
    from [i] on, and hand end index, remaining input and captures to the
    continuation; alternatives are tried in the order of the
    specification (left alternative first, greedy quantifiers iterate
    first, lazy ones leave first).  An iteration of a quantifier that
    consumes nothing is rejected, so a star iterates at most
    [String.length s] times. *)
Fixpoint rmatch {R} (ic : bool) (r : regex) (i : nat) (s : string) (c : caps)
    (k : nat -> string -> caps -> option R) {struct r} : option R :=
  match r with
  | REmpty => k i s c
  | RChar a =>
      match s with
      | String ch s' =>
          if Ascii.eqb (canon ic a) (canon ic ch) then k (S i) s' c else None
      | EmptyString => None
      end
  | RAny =>
      match s with
      | String ch s' => if is_line_terminator ch then None else k (S i) s' c
      | EmptyString => None
      end
  | RSet negated items =>
      match s with
      | String ch s' =>
          if set_matches ic negated items ch then k (S i) s' c else None
      | EmptyString => None
      end
  | RBol => if i =? 0 then k i s c else None
  | REol => match s with EmptyString => k i s c | _ => None end
  | RSeq r1 r2 =>
      rmatch ic r1 i s c (fun i' s' c' => rmatch ic r2 i' s' c' k)
  | RAlt r1 r2 =>
      orElse (rmatch ic r1 i s c k) (fun _ => rmatch ic r2 i s c k)
  | RStar greedy r1 =>
      (fix loop (fuel : nat) (i : nat) (s : string) (c : caps) {struct fuel}
         : option R :=
         let iterate (_ : unit) :=
           match fuel with
           | 0 => None
           | S fuel' =>
               rmatch ic r1 i s (clear_groups r1 c)
                 (fun i' s' c' => if i' =? i then None else loop fuel' i' s' c')
           end in
         if greedy then orElse (iterate tt) (fun _ => k i s c)
         else orElse (k i s c) iterate)
        (String.length s) i s c
  | ROpt greedy r1 =>
      let once (_ : unit) :=
        rmatch ic r1 i s (clear_groups r1 c)
          (fun i' s' c' => if i' =? i then None else k i' s' c') in
      if greedy then orElse (once tt) (fun _ => k i s c)
      else orElse (k i s c) once
  | RGroup n r1 =>
      rmatch ic r1 i s c
        (fun i' s' c' => k i' s' (<[n := Some (take (i' - i) s)]> c'))
  end.

(** A successful match: [m_index] and [m_end] delimit it, [m_caps] is the
    match array. *)
Record match_result : Type := MatchResult {
  m_index : nat;
  m_end : nat;
  m_caps : caps
}.

Definition group (m : match_result) (n : nat) : option string :=
  mjoin (m_caps m !! n).

Definition match_at (re : regexp) (i : nat) (s : string) : option match_result :=
  rmatch (re_ignoreCase re) (re_body re) i s (replicate (S (re_groups re)) None)
    (fun i' _ c' => Some (MatchResult i i' (<[0 := Some (take (i' - i) s)]> c'))).

(** Leftmost match starting at index [i] or later; [s] is the input from
    [i] on. *)
Fixpoint search_from (re : regexp) (i : nat) (s : string) : option match_result :=
  match match_at re i s with
  | Some m => Some m
  | None =>
      match s with
      | EmptyString => None
      | String _ s' => search_from re (S i) s'
      end
  end.

(** [re.exec(s)] with the [lastIndex] state of the regexp object threaded
    through: the result and the new [lastIndex].  Without the [g] flag
    the search starts at 0 and [lastIndex] is left alone. *)
Definition exec (re : regexp) (s : string) (lastIndex : nat)
    : option match_result * nat :=
  if re_global re then
    if String.length s <? lastIndex then (None, 0)
    else
      match search_from re lastIndex (drop lastIndex s) with
      | Some m => (Some m, m_end m)
      | None => (None, 0)
      end
  else (search_from re 0 s, lastIndex).

(** [s.match(re)] for a regexp without the [g] flag. *)
Definition str_match (s : string) (re : regexp) : option match_result :=
  search_from re 0 s.

(** Replacement templates: literal text and [$n]. *)
Inductive ritem : Type :=
| RText (t : string)
| RCap (n : nat).

Definition expand (template : list ritem) (m : match_result) : string :=
  fold_right
    (fun it acc =>
       match it with
       | RText t => t +:+ acc
       | RCap n => default EmptyString (group m n) +:+ acc
       end) EmptyString template.

(** The loop of [String.prototype.replace] for a global regexp: [pos] is
    the index up to which the input has been copied, [s] the input from
    [pos] on, [skip] the number of characters between [pos] and the index
    at which the next search starts (1 after an empty match, else 0).
    Every round moves that index forward, so [S (String.length s)] rounds
    are enough ([replace_loop_fuel] below). *)
Fixpoint replace_loop (fuel : nat) (re : regexp) (template : list ritem)
    (pos : nat) (s : string) (skip : nat) : string :=
  match fuel with
  | 0 => s
  | S fuel' =>
      if String.length s <? skip then s
      else
        match search_from re (pos + skip) (drop skip s) with
        | None => s
        | Some m =>
            take (m_index m - pos) s +:+ expand template m
            +:+ replace_loop fuel' re template (m_end m) (drop (m_end m - pos) s)
                  (if m_end m =? m_index m then 1 else 0)
        end
  end.

(** [s.replace(re, template)] *)
Definition replace (s : string) (re : regexp) (template : list ritem) : string :=
  if re_global re then
    replace_loop (S (String.length s)) re template 0 s 0
  else
    match search_from re 0 s with
    | None => s
    | Some m =>
        take (m_index m) s +:+ expand template m +:+ drop (m_end m) s
    end.

(** A successful match hands the continuation a suffix of the input and
    the index that goes with it. *)
Definition forward {R} (i : nat) (s : string)
    (k : nat -> string -> caps -> option R) (x : R) : Prop :=
  exists i' s' c',
    k i' s' c' = Some x /\
    String.length s' <= String.length s /\
    i' = i + (String.length s - String.length s').

(** A regexp whose matches are never empty and end within the input. *)
Definition consuming (re : regexp) : Prop :=
  forall (i : nat) (s : string) (m : match_result),
    match_at re i s = Some m ->
    m_index m = i /\ i < m_end m /\ m_end m <= i + String.length s.

End Regex.

(* ===================================================================== *)
(** * JSON values and [JSON.parse] *)
(* ===================================================================== *)

Module Json.
Import JsString.

(** The values [JSON.parse] produces.  A number keeps its lexeme (of its
    value only whether it rounds to zero is used, [rounds_to_zero] below);
    an object keeps its members in source order, a later member overriding
    an earlier one of the same key. *)
#[warnings="-register-all"] Inductive json : Type :=
| JNull
| JBool (b : bool)
| JNumber (lexeme : string)
| JString (s : string)
| JArray (items : list json)
| JObject (members : list (string * json)).

Definition is_json_ws (c : ascii) : bool :=
  (code c =? 32) || (code c =? 9) || (code c =? 10) || (code c =? 13).

Fixpoint skip_ws (s : string) : string :=
  match s with
  | String c s' => if is_json_ws c then skip_ws s' else s
  | EmptyString => EmptyString
  end.

Definition hex_value (c : ascii) : option nat :=
  if is_digit c then Some (code c - 48)
  else if between 97 102 c then Some (code c - 87)
  else if between 65 70 c then Some (code c - 55)
  else None.

(** The text of the code point of a [\uXXXX] escape: the character itself
    below 128, its UTF-8 bytes otherwise (the two halves of a surrogate
    pair are encoded one by one). *)
Definition utf8_of_code_point (n : nat) : string :=
  if n <? 128 then String (ascii_of_nat n) EmptyString
  else if n <? 2048 then
    String (ascii_of_nat (192 + n / 64))
      (String (ascii_of_nat (128 + n mod 64)) EmptyString)
  else
    String (ascii_of_nat (224 + n / 4096))
      (String (ascii_of_nat (128 + (n / 64) mod 64))
         (String (ascii_of_nat (128 + n mod 64)) EmptyString)).

Definition simple_escape (c : ascii) : option ascii :=
  match code c with
  | 34 => Some dquote            (* quote *)
  | 92 => Some "092"%char          (* backslash *)
  | 47 => Some "/"%char          (* solidus *)
  | 98 => Some "008"%char        (* b: backspace *)
  | 102 => Some "012"%char       (* f: form feed *)
  | 110 => Some "010"%char       (* n: line feed *)
  | 114 => Some "013"%char       (* r: carriage return *)
  | 116 => Some "009"%char       (* t: tab *)
  | _ => None
  end.

(** The characters of a string literal after its opening quote: the
    decoded text and the input after the closing quote. *)
Fixpoint parse_string_body (s : string) : option (string * string) :=
  match s with
  | EmptyString => None
  | String c s1 =>
      if Ascii.eqb c dquote then Some (EmptyString, s1)
      else if Ascii.eqb c "092"%char then
        match s1 with
        | EmptyString => None
        | String e s2 =>
            if Ascii.eqb e "u"%char then
              match s2 with
              | String h1 (String h2 (String h3 (String h4 s6))) =>
                  match hex_value h1, hex_value h2, hex_value h3, hex_value h4 with
                  | Some a, Some b, Some c', Some d =>
                      match parse_string_body s6 with
                      | Some (t, r) =>
                          Some (utf8_of_code_point (((a * 16 + b) * 16 + c') * 16 + d)
                                +:+ t, r)
                      | None => None
                      end
                  | _, _, _, _ => None
                  end
              | _ => None
              end
            else
              match simple_escape e with
              | Some x =>
                  match parse_string_body s2 with
                  | Some (t, r) => Some (String x t, r)
                  | None => None
                  end
              | None => None
              end
        end
      else if code c <? 32 then None
      else
        match parse_string_body s1 with
        | Some (t, r) => Some (String c t, r)
        | None => None
        end
  end.

(** The longest prefix of digits and the rest. *)
Fixpoint span_digits (s : string) : string * string :=
  match s with
  | String c s' =>
      if is_digit c then
        let '(d, r) := span_digits s' in (String c d, r)
      else (EmptyString, s)
  | EmptyString => (EmptyString, EmptyString)
  end.

Definition expect (c : ascii) (s : string) : option string :=
  match s with
  | String d s' => if Ascii.eqb c d then Some s' else None
  | EmptyString => None
  end.

Definition parse_int_part (s : string) : option (string * string) :=
  match s with
  | String c s' =>
      if Ascii.eqb c "0"%char then Some ("0", s')
      else if is_digit c then
        let '(d, r) := span_digits s' in Some (String c d, r)
      else None
  | EmptyString => None
  end.

Definition parse_frac_part (s : string) : option (string * string) :=
  match expect "."%char s with
  | Some s' =>
      match span_digits s' with
      | (EmptyString, _) => None
      | (d, r) => Some (String "." d, r)
      end
  | None => Some (EmptyString, s)
  end.

Definition parse_exp_part (s : string) : option (string * string) :=
  match s with
  | String c s' =>
      if Ascii.eqb c "e"%char || Ascii.eqb c "E"%char then
        let '(sign, s'') :=
          match expect "+"%char s', expect "-"%char s' with
          | Some t, _ => ("+", t)
          | None, Some t => ("-", t)
          | None, None => (EmptyString, s')
          end in
        match span_digits s'' with
        | (EmptyString, _) => None
        | (d, r) => Some (String c (sign +:+ d), r)
        end
      else Some (EmptyString, s)
  | EmptyString => Some (EmptyString, s)
  end.

(** -? int frac? exp? *)
Definition parse_number (s : string) : option (string * string) :=
  let '(sign, s1) :=
    match expect "-"%char s with
    | Some t => ("-", t)
    | None => (EmptyString, s)
    end in
  '(i, s2) ← parse_int_part s1;
  '(f, s3) ← parse_frac_part s2;
  '(e, s4) ← parse_exp_part s3;
  Some (sign +:+ i +:+ f +:+ e, s4).

Definition expect_word (w : string) (s : string) : option string :=
  if String.eqb (take (String.length w) s) w
  then Some (drop (String.length w) s) else None.

(** What follows a value inside an array or an object. *)
Inductive separator : Type :=
| Comma (rest : string)
| Close (rest : string)
| NoSeparator.

Definition next_separator (close : ascii) (s : string) : separator :=
  match skip_ws s with
  | String c r =>
      if Ascii.eqb c ","%char then Comma r
      else if Ascii.eqb c close then Close r
      else NoSeparator
  | EmptyString => NoSeparator
  end.

(** Recursive descent on the JSON grammar.  Every call spends one unit of
    fuel and at most two calls are made per character read, so
    [2 * String.length s + 2] units are enough for an input [s]
    ([JSON_parse_fuel] below). *)
Fixpoint parse_value (fuel : nat) (s : string) : option (json * string) :=
  match fuel with
  | 0 => None
  | S fuel' =>
      match skip_ws s with
      | EmptyString => None
      | String c r as s0 =>
          if Ascii.eqb c "{"%char then
            match expect "}"%char (skip_ws r) with
            | Some r' => Some (JObject [], r')
            | None => parse_members fuel' r []
            end
          else if Ascii.eqb c "["%char then
            match expect "]"%char (skip_ws r) with
            | Some r' => Some (JArray [], r')
            | None => parse_elements fuel' r []
            end
          else if Ascii.eqb c dquote then
            '(t, r') ← parse_string_body r; Some (JString t, r')
          else if Ascii.eqb c "t"%char then
            r' ← expect_word "true" s0; Some (JBool true, r')
          else if Ascii.eqb c "f"%char then
            r' ← expect_word "false" s0; Some (JBool false, r')
          else if Ascii.eqb c "n"%char then
            r' ← expect_word "null" s0; Some (JNull, r')
          else
            '(lx, r') ← parse_number s0; Some (JNumber lx, r')
      end
  end
with parse_elements (fuel : nat) (s : string) (acc : list json)
    : option (json * string) :=
  match fuel with
  | 0 => None
  | S fuel' =>
      '(v, r) ← parse_value fuel' s;
      match next_separator "]" r with
      | Comma r' => parse_elements fuel' r' (acc ++ [v])
      | Close r' => Some (JArray (acc ++ [v]), r')
      | NoSeparator => None
      end
  end
with parse_members (fuel : nat) (s : string) (acc : list (string * json))
    : option (json * string) :=
  match fuel with
  | 0 => None
  | S fuel' =>
      r0 ← expect dquote (skip_ws s);
      '(key, r1) ← parse_string_body r0;
      r2 ← expect ":"%char (skip_ws r1);
      '(v, r3) ← parse_value fuel' r2;
      match next_separator "}" r3 with
      | Comma r' => parse_members fuel' r' (acc ++ [(key, v)])
      | Close r' => Some (JObject (acc ++ [(key, v)]), r')
      | NoSeparator => None
      end
  end.

(** What a successful parse leaves is shorter than the input, and the
    parse succeeds alike with any fuel from twice the number of characters
    read (less one for a value, less two inside an array or an object). *)
Definition enough_for_value (f : nat) : Prop :=
  forall s v r,
    parse_value f s = Some (v, r) ->
    String.length r < String.length s /\
    forall f', 2 * (String.length s - String.length r) <= S f' ->
               parse_value f' s = Some (v, r).

Definition enough_for_elements (f : nat) : Prop :=
  forall s acc v r,
    parse_elements f s acc = Some (v, r) ->
    String.length r < String.length s /\
    forall f', 2 * (String.length s - String.length r) <= S (S f') ->
               parse_elements f' s acc = Some (v, r).

Definition enough_for_members (f : nat) : Prop :=
  forall s acc v r,
    parse_members f s acc = Some (v, r) ->
    String.length r < String.length s /\
    forall f', 2 * (String.length s - String.length r) <= S (S f') ->
               parse_members f' s acc = Some (v, r).

(** [JSON.parse(s)]; [None] is the SyntaxError it throws. *)
Definition JSON_parse (s : string) : option json :=
  '(v, r) ← parse_value (2 * String.length s + 2) s;
  match skip_ws r with
  | EmptyString => Some v
  | _ => None
  end.

(** The number a run of digits writes, after the digits [n] before it. *)
Fixpoint digits_value (n : Z) (s : string) : Z :=
  match s with
  | String c s' =>
      if is_digit c then digits_value (10 * n + Z.of_nat (code c - 48)) s' else n
  | EmptyString => n
  end.

(** The digits of the integer and fraction parts of a number lexeme read
    as one integer, the number of digits of the fraction, and the text
    after the exponent mark. *)
Fixpoint mantissa (lx : string) (in_fraction : bool) (m fraction_digits : Z)
    : Z * Z * string :=
  match lx with
  | EmptyString => (m, fraction_digits, EmptyString)
  | String c lx' =>
      if Ascii.eqb c "e"%char || Ascii.eqb c "E"%char then (m, fraction_digits, lx')
      else if is_digit c then
        mantissa lx' in_fraction (10 * m + Z.of_nat (code c - 48))
          (if in_fraction then fraction_digits + 1 else fraction_digits)
      else if Ascii.eqb c "."%char then mantissa lx' true m fraction_digits
      else mantissa lx' in_fraction m fraction_digits
  end%Z.

Definition exponent (e : string) : Z :=
  match e with
  | String c e' =>
      if Ascii.eqb c "-"%char then (- digits_value 0 e')%Z
      else if Ascii.eqb c "+"%char then digits_value 0 e'
      else digits_value 0 e
  | EmptyString => 0%Z
  end.

(** The double nearest to the number of the lexeme is zero: the number is
    zero, or at most 2^-1075, half of the least positive double (a number
    that lies halfway is rounded to the even neighbour, which is zero).
    Written [m * 10^k], the number is at most 2^-1075 when [k] is negative
    and [m * 2^1075 <= 10^-k]. *)
Definition rounds_to_zero (lx : string) : bool :=
  let '(m, fraction_digits, e) := mantissa lx false 0%Z 0%Z in
  let k := (exponent e - fraction_digits)%Z in
  ((m =? 0) || ((k <? 0) && (m * 2 ^ 1075 <=? 10 ^ (- k))))%Z.

(** ToBoolean *)
Definition truthy (v : json) : bool :=
  match v with
  | JNull => false
  | JBool b => b
  | JNumber lx => negb (rounds_to_zero lx)
  | JString s => JsString.truthy s
  | JArray _ | JObject _ => true
  end.

(** The last member of the given key. *)
Fixpoint lookup_member (k : string) (ms : list (string * json)) : option json :=
  match ms with
  | [] => None
  | (k', v) :: ms' =>
      match lookup_member k ms' with
      | Some v' => Some v'
      | None => if String.eqb k k' then Some v else None
      end
  end.

(** [v.k] for a parsed value other than [null] and a key that no
    prototype defines: [None] is [undefined]. *)
Definition get (v : json) (k : string) : option json :=
  match v with
  | JObject ms => lookup_member k ms
  | _ => None
  end.

(** [x || d] *)
Definition or_default (x : option json) (d : json) : json :=
  match x with
  | Some v => if truthy v then v else d
  | None => d
  end.

End Json.

(* ===================================================================== *)
(** * src/genai/adapter.js *)
(* ===================================================================== *)

Module Adapter.
Import JsString Regex Json.

(** The normalized result of [cleanGeminiResponse]. *)
Record AIInsight : Type := mkAIInsight {
  summary : json;
  issues : json;
  suggestions : json;
  before_after : json;
  notes : json
}.

(** The error-shaped result; [extracted] and [raw] are absent in the
    answer to an empty response. *)
Record AIError : Type := mkAIError {
  error : string;
  extracted : option string;
  raw : option string
}.

Inductive outcome : Type :=
| Insight (a : AIInsight)
| ErrorInsight (e : AIError)
| ThrowsTypeError.          (* a property read on [null] *)

Definition any_char : regex := RSet false [CSpace; CNonSpace].
Definition not_brace : regex := RSet true [CChar "{"; CChar "}"].
Definition quote_char : regex := RSet false [CChar "'"; CChar dquote].
Definition key_char : regex :=
  RSet false [CRange "a" "z"; CRange "A" "Z"; CRange "0" "9"; CChar "_"].
Definition spaces : regex := RStar true (RSet false [CSpace]).

(** [/```json([\s\S]*?)```/i] *)
Definition fence_re : regexp :=
  RegExp (RSeqs [RLit "```json"; RGroup 1 (RStar false any_char); RLit "```"])
    1 true false.

(** [/```/g] *)
Definition backticks_re : regexp := RegExp (RLit "```") 0 false true.

(** [/json/gi] *)
Definition json_word_re : regexp := RegExp (RLit "json") 0 true true.

(** [/^[^{}]*?(\{)/] *)
Definition leading_junk_re : regexp :=
  RegExp (RSeqs [RBol; RStar false not_brace; RGroup 1 (RChar "{")]) 1 false false.

(** [/(\})[^{}]*?$/] *)
Definition trailing_junk_re : regexp :=
  RegExp (RSeqs [RGroup 1 (RChar "}"); RStar false not_brace; REol]) 1 false false.

(** [/,\s*([\]}])/g] *)
Definition trailing_comma_re : regexp :=
  RegExp (RSeqs [RChar ","; spaces; RGroup 1 (RSet false [CChar "]"; CChar "}"])])
    1 false true.

(** [/}\s*{/g] *)
Definition adjacent_objects_re : regexp :=
  RegExp (RSeqs [RChar "}"; spaces; RChar "{"]) 0 false true.

(** [/]\s*\[/g] *)
Definition adjacent_arrays_re : regexp :=
  RegExp (RSeqs [RChar "]"; spaces; RChar "["]) 0 false true.

(** [/(['Q])?([a-zA-Z0-9_]+)(['Q])?:/g], where Q stands for the double
    quote. *)
Definition key_re : regexp :=
  RegExp (RSeqs [ROpt true (RGroup 1 quote_char);
                 RGroup 2 (RPlus true key_char);
                 ROpt true (RGroup 3 quote_char);
                 RChar ":"])
    3 false true.

(** The curly quotes U+201C and U+201D, as UTF-8. *)
Definition left_curly : string :=
  String "226" (String "128" (String "156" EmptyString)).
Definition right_curly : string :=
  String "226" (String "128" (String "157" EmptyString)).

(** [/“|”/g] *)
Definition fancy_quotes_re : regexp :=
  RegExp (RAlt (RLit left_curly) (RLit right_curly)) 0 false true.

(** [fenceMatch && fenceMatch[1]]: the interior of the first [```json]
    fence when there is one and it is not empty. *)
Definition fence_interior (rawResponse : string) : option string :=
  fenceMatch ← str_match rawResponse fence_re;
  g1 ← group fenceMatch 1;
  if JsString.truthy g1 then Some g1 else None.

(** The fallback: the span from the first opening brace to the last closing
    one, when both exist in that order; else the response itself. *)
Definition brace_span (rawResponse : string) : string :=
  match indexOf rawResponse "{", lastIndexOf rawResponse "}" with
  | Some start, Some end_ =>
      if start <? end_ then slice rawResponse start (end_ + 1)
      else rawResponse
  | _, _ => rawResponse
  end.

(** Step 1 *)
Definition extract_candidate (rawResponse : string) : string :=
  match fence_interior rawResponse with
  | Some interior => interior
  | None => brace_span rawResponse
  end.

(** Step 2: the chain of replacements and the final [trim]. *)
Definition cleanup (extracted : string) : string :=
  trim
    (replace
       (replace
          (replace
             (replace extracted backticks_re [])
             json_word_re [])
          leading_junk_re [RText "{"])
       trailing_junk_re [RText "}"]).

(** The auto-fix applied after a failed parse. *)
Definition auto_fix (extracted : string) : string :=
  replace
    (replace
       (replace
          (replace
             (replace extracted trailing_comma_re [RCap 1])
             adjacent_objects_re [RText "},{"])
          adjacent_arrays_re [RText "],["])
       key_re [RText dq; RCap 2; RText (dq +:+ ":")])
    fancy_quotes_re [RText dq].

(** Step 4 *)
Definition normalize (parsed : json) : outcome :=
  match parsed with
  | JNull => ThrowsTypeError
  | _ =>
      Insight
        {| summary := or_default (get parsed "summary") (JString "No summary provided.");
           issues := or_default (get parsed "issues") (JArray []);
           suggestions := or_default (get parsed "suggestions") (JArray []);
           before_after := or_default (get parsed "before_after") JNull;
           notes := or_default (get parsed "notes") (JString "No notes provided.") |}
  end.

Definition cleanGeminiResponse (rawResponse : string) : outcome :=
  if negb (JsString.truthy rawResponse) then
    ErrorInsight (mkAIError "No response from Gemini" None None)
  else
    let extracted := cleanup (extract_candidate rawResponse) in
    match JSON_parse extracted with
    | Some parsed => normalize parsed
    | None =>
        let fixed := auto_fix extracted in
        match JSON_parse fixed with
        | Some parsed => normalize parsed
        | None =>
            ErrorInsight
              (mkAIError "Invalid JSON (even after auto-fix)"
                 (Some (slice extracted 0 400 +:+ "..."))
                 (Some (slice rawResponse 0 400 +:+ "...")))
        end
    end.

(** ** Deleting the word [json], said directly

    The second replacement of [cleanup], in the words of its comment and
    without the matcher: scan from the left and drop every four characters
    that spell [json] in any mix of cases. *)

Definition same_letter (a ch : ascii) : bool :=
  Ascii.eqb (toUpperChar a) (toUpperChar ch).

Definition starts_with_json (s : string) : bool :=
  match s with
  | String c1 (String c2 (String c3 (String c4 _))) =>
      same_letter "j" c1 && same_letter "s" c2 && same_letter "o" c3
      && same_letter "n" c4
  | _ => false
  end.

(** The four letters, in any mix of cases, and nothing else. *)
Definition is_json_word (w : string) : bool :=
  starts_with_json w && (String.length w =? 4).

(** [skip] characters are still to be dropped from the last occurrence. *)
Fixpoint delete_json_skip (skip : nat) (s : string) : string :=
  match s with
  | EmptyString => EmptyString
  | String c s' =>
      match skip with
      | S skip' => delete_json_skip skip' s'
      | 0 =>
          if starts_with_json s then delete_json_skip 3 s'
          else String c (delete_json_skip 0 s')
      end
  end.

Definition delete_json (s : string) : string := delete_json_skip 0 s.

(** The index of the first occurrence. *)
Fixpoint find_json (s : string) : option nat :=
  match s with
  | EmptyString => None
  | String _ s' => if starts_with_json s then Some 0 else S <$> find_json s'
  end.

Definition contains_json (s : string) : bool :=
  match find_json s with Some _ => true | None => false end.

(** Characters that cannot begin a run of three backticks, with or without
    the [i] flag. *)
Definition no_backtick (c : ascii) : bool :=
  negb (Ascii.eqb (toUpperChar "`") (toUpperChar c)) && negb (Ascii.eqb "`" c).

Definition not_closing (c : ascii) : bool := negb (Ascii.eqb "}" c).

(** A character that is none of the four letters. *)
Definition no_json_letter (q : ascii) : bool :=
  negb (same_letter "j" q) && negb (same_letter "s" q)
  && negb (same_letter "o" q) && negb (same_letter "n" q).

End Adapter.

(* ===================================================================== *)
(** * Effects: a state and exception monad *)
(* ===================================================================== *)

Module Eff.

(** What a JavaScript [throw] carries here: the class of the error and its
    message. *)
Inductive error_class : Type :=
| PlainError           (* new Error(...) and errors of unknown class *)
| SystemError          (* thrown by [fs]: ENOENT, ENOTDIR, EISDIR *)
| SyntaxError
| TypeError
| AbortError (original : error_class).
    (* p-retry's class for errors that end the retries: it wraps an error
       of class [original] and has its message *)

Record exn : Type := mkExn {
  exn_class : error_class;
  exn_message : string
}.

Inductive result (A : Type) : Type :=
| Returns (a : A)
| Throws (e : exn).
Arguments Returns {A} a.
Arguments Throws {A} e.

(** A computation over a world of type [W]. *)
Definition eff (W A : Type) : Type := W -> W * result A.

Definition ret {W A} (a : A) : eff W A := fun w => (w, Returns a).
Definition throw {W A} (e : exn) : eff W A := fun w => (w, Throws e).

Definition bind {W A B} (m : eff W A) (f : A -> eff W B) : eff W B :=
  fun w =>
    match m w with
    | (w', Returns a) => f a w'
    | (w', Throws e) => (w', Throws e)
    end.

(** [try { m } catch (e) { h e }] *)
Definition try_catch {W A} (m : eff W A) (h : exn -> eff W A) : eff W A :=
  fun w =>
    match m w with
    | (w', Returns a) => (w', Returns a)
    | (w', Throws e) => h e w'
    end.

Definition gets {W A} (f : W -> A) : eff W A := fun w => (w, Returns (f w)).
Definition modify {W} (f : W -> W) : eff W unit := fun w => (f w, Returns tt).

End Eff.

Notation "'let!' x ':=' m 'in' k" := (Eff.bind m (fun x => k))
  (at level 10, x name, m at level 100, k at level 200).
Notation "'do!' m 'in' k" := (Eff.bind m (fun _ => k))
  (at level 10, m at level 100, k at level 200).

(* ===================================================================== *)
(** * The file system and the console *)
(* ===================================================================== *)

Module Fs.
Import JsString Eff.

Inductive entry : Type :=
| File (content : string)
| Dir (names : list string).      (* in the order [readdirSync] lists them *)

(** One line written to the console.  The pictographs that open the
    messages of the sources are left out. *)
Inductive log_line : Type :=
| Log (text : string)
| Warn (text : string)
| Err (text : string).

(** The world of the analyzer: the files by path and the console output,
    oldest line first. *)
Record world : Type := mkWorld {
  files : gmap string entry;
  console : list log_line
}.

Definition write_console (l : log_line) : eff world unit :=
  modify (fun w => mkWorld (files w) (console w ++ [l])).

Definition console_warn (text : string) : eff world unit := write_console (Warn text).
Definition console_log (text : string) : eff world unit := write_console (Log text).
Definition console_error (text : string) : eff world unit := write_console (Err text).

(** [fs.existsSync] *)
Definition existsSync (p : string) : eff world bool :=
  gets (fun w => bool_decide (is_Some (files w !! p))).

Definition ENOENT (p : string) : exn :=
  mkExn SystemError ("ENOENT: no such file or directory, " +:+ p).
Definition EISDIR (p : string) : exn :=
  mkExn SystemError ("EISDIR: illegal operation on a directory, " +:+ p).
Definition ENOTDIR (p : string) : exn :=
  mkExn SystemError ("ENOTDIR: not a directory, " +:+ p).

(** [fs.readFileSync(p, "utf8")] *)
Definition readFileSync (p : string) : eff world string :=
  fun w =>
    match files w !! p with
    | Some (File content) => (w, Returns content)
    | Some (Dir _) => (w, Throws (EISDIR p))
    | None => (w, Throws (ENOENT p))
    end.

(** [fs.readdirSync(p)] *)
Definition readdirSync (p : string) : eff world (list string) :=
  fun w =>
    match files w !! p with
    | Some (Dir names) => (w, Returns names)
    | Some (File _) => (w, Throws (ENOTDIR p))
    | None => (w, Throws (ENOENT p))
    end.

(** ** Node's [path] module, for POSIX *)

(** The segments between the slashes. *)
Fixpoint split_path (p : string) : list string :=
  match p with
  | EmptyString => [EmptyString]
  | String c p' =>
      if Ascii.eqb c "/"%char then EmptyString :: split_path p'
      else
        match split_path p' with
        | seg :: segs => String c seg :: segs
        | [] => [String c EmptyString]
        end
  end.

(** The segments with a slash between them. *)
Fixpoint join_rest (segs : list string) : string :=
  match segs with
  | [] => EmptyString
  | seg :: segs' => "/" +:+ seg +:+ join_rest segs'
  end.

Definition join_path (segs : list string) : string :=
  match segs with
  | [] => EmptyString
  | seg :: segs' => seg +:+ join_rest segs'
  end.

(** One step of [normalizeString]: the segments kept so far, the last one
    first, and the next segment.  An empty segment and [.] are dropped;
    [..] takes the last segment away, and is kept itself where nothing is
    left to take and the path is relative. *)
Definition keep (allowAboveRoot : bool) (kept : list string) (seg : string)
    : list string :=
  if String.eqb seg EmptyString || String.eqb seg "." then kept
  else if String.eqb seg ".." then
    match kept with
    | top :: kept' =>
        if String.eqb top ".." then (if allowAboveRoot then seg :: kept else kept)
        else kept'
    | [] => if allowAboveRoot then [seg] else []
    end
  else seg :: kept.

Definition normalize_segments (allowAboveRoot : bool) (segs : list string)
    : list string :=
  List.rev (fold_left (keep allowAboveRoot) segs []).

Definition is_absolute (p : string) : bool :=
  match p with
  | String c _ => Ascii.eqb c "/"%char
  | EmptyString => false
  end.

(** [path.normalize(p)] *)
Definition path_normalize (p : string) : string :=
  if String.eqb p EmptyString then "."
  else
    let body := join_path (normalize_segments (negb (is_absolute p)) (split_path p)) in
    if String.eqb body EmptyString then
      if is_absolute p then "/" else if endsWith p "/" then "./" else "."
    else
      (if is_absolute p then "/" else EmptyString) +:+ body
      +:+ (if endsWith p "/" then "/" else EmptyString).

(** [path.join(dir, name)]: the arguments that are not empty, with a slash
    between them, normalized. *)
Definition path_join (dir name : string) : string :=
  if String.eqb dir EmptyString then
    if String.eqb name EmptyString then "." else path_normalize name
  else if String.eqb name EmptyString then path_normalize dir
  else path_normalize (dir +:+ "/" +:+ name).

(** The text after the last slash. *)
Definition last_segment (p : string) : string :=
  match lastIndexOf p "/" with
  | Some i => slice_from p (i + 1)
  | None => p
  end.

(** [path.basename(p, ext)] for a path without a trailing slash: the last
    segment, without the extension when it ends in it and is more than it;
    nothing is left of a path that is the extension. *)
Definition path_basename (p ext : string) : string :=
  let b := last_segment p in
  if JsString.truthy ext && String.eqb p ext then EmptyString
  else if endsWith b ext && negb (String.eqb b ext)
  then take (String.length b - String.length ext) b
  else b.

(** [path.resolve(p)] in the working directory [cwd], an absolute path:
    the segments below the root. *)
Definition resolve (cwd p : string) : list string :=
  normalize_segments false
    (if is_absolute p then split_path p else split_path cwd ++ split_path p)%list.

(** What is left of two lists of segments after their common beginning. *)
Fixpoint strip_common (from to : list string) : list string * list string :=
  match from, to with
  | f :: from', t :: to' =>
      if String.eqb f t then strip_common from' to' else (from, to)
  | _, _ => (from, to)
  end.

(** [path.relative(from, to)] where [from] is the working directory: one
    [..] for every segment of [from] that [to] does not share, then the
    segments of [to] that [from] does not share. *)
Definition path_relative (from to : string) : string :=
  let '(up, down) :=
    strip_common (normalize_segments false (split_path from)) (resolve from to) in
  join_path (List.map (fun _ => "..") up ++ down)%list.

End Fs.

(* ===================================================================== *)
(** * src/analyzer/route-reflector.js *)
(* ===================================================================== *)

(** The file holds two implementations of the scanner.  [RouteReflector]
    is the one the orchestrator calls ([scanRoutesFile],
    [scanRoutesDirectory]); [RouteReflectorModule] is the other
    ([extractEndpointsFromFile], [scanRoutesDirectory]). *)

Module RouteReflector.
Import JsString Regex Eff Fs.

Record endpoint : Type := mkEndpoint {
  method : string;
  path : string;
  handler : string;
  controller : string
}.

Definition quote_set : regex :=
  RSet false [CChar dquote; CChar "'"; CChar backtick].
Definition ws : regex := RStar true (RSet false [CSpace]).

(** [/router\.(get|post|put|delete|patch)\(\s*[Q'`](.*?)[Q'`]\s*,\s*([a-zA-Z0-9_]+)/g],
    where Q stands for the double quote. *)
Definition routeRegex : regexp :=
  RegExp
    (RSeqs [RLit "router."; 
            RGroup 1 (RAlts [RLit "get"; RLit "post"; RLit "put"; RLit "delete"; RLit "patch"]);
            RChar "("; ws; quote_set;
            RGroup 2 (RStar false RAny);
            quote_set; ws; RChar ","; ws;
            RGroup 3 (RPlus true
                        (RSet false [CRange "a" "z"; CRange "A" "Z"; CRange "0" "9"; CChar "_"]))])
    3 false true.

(** [baseName.replace(".routes", ".controller.js")]: the first occurrence. *)
Definition controller_of (filePath : string) : string :=
  let baseName := path_basename filePath ".js" in
  replace baseName (RegExp (RLit ".routes") 0 false false) [RText ".controller.js"].

Definition capture (m : match_result) (n : nat) : string :=
  default EmptyString (group m n).

(** The loop [while ((match = routeRegex.exec(code)) !== null)]; [None]
    when [fuel] iterations do not end it. *)
Fixpoint exec_loop (fuel : nat) (code controllerFile : string) (lastIndex : nat)
    (endpoints : list endpoint) : option (list endpoint) :=
  match fuel with
  | 0 => None
  | S fuel' =>
      match exec routeRegex code lastIndex with
      | (Some m, lastIndex') =>
          exec_loop fuel' code controllerFile lastIndex'
            (endpoints ++ [mkEndpoint (toUpperCase (capture m 1)) (capture m 2)
                             (capture m 3) controllerFile])
      | (None, _) => Some endpoints
      end
  end.

(** Every match is at least eight characters long, so the loop runs at most
    [String.length code] times before the search fails: [scan_code] always
    has a result ([scan_code_total] below) and the last branch of
    [scanRoutesFile] is never taken. *)
Definition scan_code (code controllerFile : string) : option (list endpoint) :=
  exec_loop (S (String.length code)) code controllerFile 0 [].

Definition diverges : exn := mkExn PlainError "the scan does not terminate".

Definition scanRoutesFile (filePath : string) : eff world (list endpoint) :=
  let! found := existsSync filePath in
  if negb found then
    do! console_warn ("Route file not found: " +:+ filePath) in
    ret []
  else
    let! code := readFileSync filePath in
    match scan_code code (controller_of filePath) with
    | Some endpoints => ret endpoints
    | None => throw diverges
    end.

(** [for (const file of files) { ... allEndpoints.push(...fileEndpoints) }] *)
Fixpoint scan_files (dirPath : string) (files : list string)
    (allEndpoints : list endpoint) : eff world (list endpoint) :=
  match files with
  | [] => ret allEndpoints
  | file :: files' =>
      let! fileEndpoints := scanRoutesFile (path_join dirPath file) in
      scan_files dirPath files' (allEndpoints ++ fileEndpoints)
  end.

Definition scanRoutesDirectory (dirPath : string) : eff world (list endpoint) :=
  let! found := existsSync dirPath in
  if negb found then
    do! console_warn ("Routes directory not found: " +:+ dirPath) in
    ret []
  else
    let! names := readdirSync dirPath in
    scan_files dirPath (filter (fun f => endsWith f ".js" = true) names) [].

End RouteReflector.

Module RouteReflectorModule.
Import JsString Regex Eff Fs.

Record endpoint : Type := mkEndpoint {
  method : string;
  path : string;
  handler : string;
  file : string
}.

Definition quote_items : list citem := [CChar "'"; CChar dquote; CChar backtick].
Definition ws : regex := RStar true (RSet false [CSpace]).

(** [/router\.(get|post|put|delete|patch|options|head)\s*\(\s*['Q`]([^'Q`]+)['Q`]\s*,\s*([\w$]+)/gi],
    where Q stands for the double quote. *)
Definition routePattern : regexp :=
  RegExp
    (RSeqs [RLit "router.";
            RGroup 1 (RAlts [RLit "get"; RLit "post"; RLit "put"; RLit "delete";
                             RLit "patch"; RLit "options"; RLit "head"]);
            ws; RChar "("; ws; RSet false quote_items;
            RGroup 2 (RPlus true (RSet true quote_items));
            RSet false quote_items; ws; RChar ","; ws;
            RGroup 3 (RPlus true (RSet false [CWord; CChar "$"]))])
    3 true true.

Definition capture (m : match_result) (n : nat) : string :=
  default EmptyString (group m n).

Fixpoint exec_loop (fuel : nat) (code file : string) (lastIndex : nat)
    (endpoints : list endpoint) : option (list endpoint) :=
  match fuel with
  | 0 => None
  | S fuel' =>
      match exec routePattern code lastIndex with
      | (Some m, lastIndex') =>
          exec_loop fuel' code file lastIndex'
            (endpoints ++ [mkEndpoint (toUpperCase (capture m 1)) (capture m 2)
                             (capture m 3) file])
      | (None, _) => Some endpoints
      end
  end.

(** As above, [scan_code] always has a result ([module_scan_code_total]). *)
Definition scan_code (code file : string) : option (list endpoint) :=
  exec_loop (S (String.length code)) code file 0 [].

Definition diverges : exn := mkExn PlainError "the scan does not terminate".

Section WorkingDirectory.

(** [process.cwd()] *)
Variable cwd : string.

Definition extractEndpointsFromFile (filePath : string) : eff world (list endpoint) :=
  let! code := readFileSync filePath in
  match scan_code code (path_relative cwd filePath) with
  | Some endpoints => ret endpoints
  | None => throw diverges
  end.

(** [routeFiles.forEach(file => { allEndpoints = allEndpoints.concat(...) })] *)
Fixpoint scan_files (routesDir : string) (routeFiles : list string)
    (allEndpoints : list endpoint) : eff world (list endpoint) :=
  match routeFiles with
  | [] => ret allEndpoints
  | file :: routeFiles' =>
      let! endpoints := extractEndpointsFromFile (path_join routesDir file) in
      scan_files routesDir routeFiles' (allEndpoints ++ endpoints)
  end.

Definition scanRoutesDirectory (routesDir : string) : eff world (list endpoint) :=
  let! names := readdirSync routesDir in
  scan_files routesDir (filter (fun f => endsWith f ".js" = true) names) [].

End WorkingDirectory.

End RouteReflectorModule.

(* ===================================================================== *)
(** * src/analyzer/ast-parser.js *)
(* ===================================================================== *)

Module AstParser.
Import JsString Eff Fs.

Record position : Type := mkPosition { line : nat; column : nat }.
Record source_location : Type := mkLoc { loc_start : position; loc_end : position }.

(** The part of Babel's syntax tree that the traversal tells apart.  The
    children of a node are listed in the order in which [traverse] visits
    them; [start] and [end] are the offsets of the construct in the source
    text, as the parser reports them: in code units of the JavaScript
    string, which [slice_units] counts.  The [id] of a declarator is its
    name when it is an identifier; [pattern] holds the children of a
    destructuring target and is empty for an identifier. *)
#[warnings="-register-all"] Inductive node : Type :=
| FunctionDeclaration (id : option string) (async : bool) (start end_ : nat)
    (loc : source_location) (children : list node)
| VariableDeclarator (id : option string) (pattern : list node)
    (loc : source_location) (init : option node)
| ArrowFunctionExpression (async : bool) (start end_ : nat) (children : list node)
| FunctionExpression (async : bool) (start end_ : nat) (children : list node)
| OtherNode (type : string) (children : list node).

(** The value assigned to [extracted]. *)
Record extracted_function : Type := mkExtracted {
  name : string;
  code : string;
  loc : source_location;
  async : bool
}.

(** The state of one traversal: the variable [extracted] and whether
    [path.stop()] has been called. *)
Record traversal : Type := mkTraversal {
  extracted : option extracted_function;
  stopped : bool
}.

Definition name_is (id : option string) (handlerName : string) : bool :=
  match id with
  | Some n => String.eqb n handlerName
  | None => false
  end.

(** The two visitors, applied when the traversal enters node [n]. *)
Definition enter (source handlerName : string) (n : node) (t : traversal) : traversal :=
  match n with
  | FunctionDeclaration id async start end_ loc _ =>
      if name_is id handlerName then
        mkTraversal
          (Some (mkExtracted handlerName (slice_units source start end_) loc async))
          true
      else t
  | VariableDeclarator id _ loc init =>
      if name_is id handlerName then
        match init with
        | Some (ArrowFunctionExpression async start end_ _)
        | Some (FunctionExpression async start end_ _) =>
            mkTraversal
              (Some (mkExtracted handlerName (slice_units source start end_) loc async))
              true
        | _ => t
        end
      else t
  | _ => t
  end.

(** [traverse]: depth first, a node before its children, children in
    order; nothing is visited once the traversal is stopped. *)
Fixpoint visit (source handlerName : string) (n : node) (t : traversal) : traversal :=
  if stopped t then t
  else
    let t1 := enter source handlerName n t in
    let visit_all :=
      fix visit_all (ns : list node) (t : traversal) : traversal :=
        match ns with
        | [] => t
        | n' :: ns' => visit_all ns' (visit source handlerName n' t)
        end in
    match n with
    | FunctionDeclaration _ _ _ _ _ children
    | ArrowFunctionExpression _ _ _ children
    | FunctionExpression _ _ _ children
    | OtherNode _ children => visit_all children t1
    | VariableDeclarator _ pattern _ (Some init) =>
        visit source handlerName init (visit_all pattern t1)
    | VariableDeclarator _ pattern _ None => visit_all pattern t1
    end.

Definition traverse (source handlerName : string) (program : list node) : traversal :=
  fold_left (fun t n => visit source handlerName n t) program (mkTraversal None false).

Section Parser.

(** [babelParser.parse(code, { sourceType: "module", ... })]: the body of
    the program, or the SyntaxError it throws. *)
Variable parse : string -> exn + list node.

Definition extractFunctionCode (filePath handlerName : string)
    : eff world (option extracted_function) :=
  let! found := existsSync filePath in
  if negb found then
    do! console_warn ("Controller file not found: " +:+ filePath) in
    ret None
  else
    let! source := readFileSync filePath in
    match parse source with
    | inl e => throw e
    | inr ast =>
        let result := extracted (traverse source handlerName ast) in
        do! (match result with
             | None =>
                 console_warn ("Handler '" +:+ handlerName +:+ "' not found in "
                               +:+ path_basename filePath EmptyString)
             | Some _ => ret tt
             end) in
        ret result
    end.

End Parser.

(** ** The search order in the words of the specification *)

(** The declarations at the top level of the program: a statement of the
    body, or the declaration an [export] statement wraps. *)
Definition top_level (program : list node) : list node :=
  flat_map
    (fun n =>
       match n with
       | OtherNode "ExportNamedDeclaration" cs
       | OtherNode "ExportDefaultDeclaration" cs => cs
       | _ => [n]
       end) program.

Definition declaration_named (source handlerName : string) (n : node)
    : option extracted_function :=
  match n with
  | FunctionDeclaration id async start end_ loc _ =>
      if name_is id handlerName
      then Some (mkExtracted handlerName (slice_units source start end_) loc async)
      else None
  | _ => None
  end.

Definition binding_named (source handlerName : string) (n : node)
    : option extracted_function :=
  match n with
  | VariableDeclarator id _ loc (Some (ArrowFunctionExpression async start end_ _))
  | VariableDeclarator id _ loc (Some (FunctionExpression async start end_ _)) =>
      if name_is id handlerName
      then Some (mkExtracted handlerName (slice_units source start end_) loc async)
      else None
  | _ => None
  end.

Fixpoint first_some {A B} (f : A -> option B) (l : list A) : option B :=
  match l with
  | [] => None
  | x :: l' =>
      match f x with
      | Some y => Some y
      | None => first_some f l'
      end
  end.

(** The declarators of the top-level variable declarations. *)
Definition top_level_bindings (program : list node) : list node :=
  flat_map
    (fun n =>
       match n with
       | OtherNode "VariableDeclaration" ds => ds
       | _ => []
       end) (top_level program).

(** (a) the first top-level function declaration of the name, (b) else the
    first top-level binding of the name to a function literal. *)
Definition declaration_first (source handlerName : string) (program : list node)
    : option extracted_function :=
  match first_some (declaration_named source handlerName) (top_level program) with
  | Some f => Some f
  | None => first_some (binding_named source handlerName) (top_level_bindings program)
  end.

(** ** The search order of the traversal *)

(** The nodes of a tree in the order of the traversal. *)
Fixpoint preorder (n : node) : list node :=
  n ::
  match n with
  | FunctionDeclaration _ _ _ _ _ children
  | ArrowFunctionExpression _ _ _ children
  | FunctionExpression _ _ _ children
  | OtherNode _ children => flat_map preorder children
  | VariableDeclarator _ pattern _ (Some init) =>
      flat_map preorder pattern ++ preorder init
  | VariableDeclarator _ pattern _ None => flat_map preorder pattern
  end.

(** What either visitor extracts at a node. *)
Definition handler_at (source handlerName : string) (n : node)
    : option extracted_function :=
  match declaration_named source handlerName n with
  | Some f => Some f
  | None => binding_named source handlerName n
  end.

Definition first_in_document_order (source handlerName : string)
    (program : list node) : option extracted_function :=
  first_some (handler_at source handlerName) (flat_map preorder program).

(** What a traversal that reaches the nodes [ns] in this order leaves
    behind, starting from [t]. *)
Definition found (f : extracted_function) : traversal := mkTraversal (Some f) true.

Definition after (source handlerName : string) (ns : list node) (t : traversal)
    : traversal :=
  if stopped t then t
  else from_option found t (first_some (handler_at source handlerName) ns).

(** ** Induction on syntax trees *)

Section NodeInduction.

Variable P : node -> Prop.
Hypothesis HFunctionDeclaration :
  forall id async start end_ loc children,
    Forall P children -> P (FunctionDeclaration id async start end_ loc children).
Hypothesis HVariableDeclarator :
  forall id pattern loc init,
    Forall P pattern -> from_option P True init ->
    P (VariableDeclarator id pattern loc init).
Hypothesis HArrowFunctionExpression :
  forall async start end_ children,
    Forall P children -> P (ArrowFunctionExpression async start end_ children).
Hypothesis HFunctionExpression :
  forall async start end_ children,
    Forall P children -> P (FunctionExpression async start end_ children).
Hypothesis HOtherNode :
  forall type children, Forall P children -> P (OtherNode type children).

Fixpoint node_induction (n : node) : P n :=
  let all :=
    fix all (ns : list node) : Forall P ns :=
      match ns with
      | [] => @List.Forall_nil node P
      | n' :: ns' => @List.Forall_cons node P n' ns' (node_induction n') (all ns')
      end in
  match n with
  | FunctionDeclaration id async start end_ loc children =>
      HFunctionDeclaration id async start end_ loc children (all children)
  | VariableDeclarator id pattern loc init =>
      HVariableDeclarator id pattern loc init (all pattern)
        (match init as i return from_option P True i with
         | Some n0 => node_induction n0
         | None => I
         end)
  | ArrowFunctionExpression async start end_ children =>
      HArrowFunctionExpression async start end_ children (all children)
  | FunctionExpression async start end_ children =>
      HFunctionExpression async start end_ children (all children)
  | OtherNode type children => HOtherNode type children (all children)
  end.

End NodeInduction.

End AstParser.

(* ===================================================================== *)
(** * src/genai/client.js *)
(* ===================================================================== *)

Module Client.
Import JsString Json Eff.

(** What one [generateContent] call does: the text read off the response
    ([resp?.response?.candidates?.[0]?.content?.parts?.[0]?.text] or one of
    its fallbacks), or the error the call rejects with. *)
Inductive sdk_outcome : Type :=
| Responds (text : string)
| Rejects (e : exn).

(** Where the SDK object exposes [generateContent]. *)
Inductive sdk_shape : Type :=
| ModelsApi            (* genaiClient.models.generateContent *)
| LegacyApi            (* genaiClient.generateContent *)
| NoGenerateContent.

(** An SDK instance: its shape and the outcome of its [n]-th call, given
    model and prompt. *)
Record genai : Type := mkGenai {
  shape : sdk_shape;
  respond : nat -> string -> string -> sdk_outcome
}.

(** The module state and what the module does to the outside: [attempts]
    counts the invocations of [run], [sdk_calls] the calls that reach the
    SDK, [slept] lists the delays between attempts in milliseconds. *)
Record world : Type := mkWorld {
  genaiClient : option genai;          (* [null] when the SDK did not load *)
  DEFAULT_MODEL : string;
  attempts : nat;
  sdk_calls : nat;
  slept : list nat;
  console : list Fs.log_line
}.

Definition logged (l : Fs.log_line) (w : world) : world :=
  mkWorld (genaiClient w) (DEFAULT_MODEL w) (attempts w) (sdk_calls w) (slept w)
    (console w ++ [l]).

Definition waited (ms : nat) (w : world) : world :=
  mkWorld (genaiClient w) (DEFAULT_MODEL w) (attempts w) (sdk_calls w)
    (slept w ++ [ms]) (console w).

Definition write_console (l : Fs.log_line) : eff world unit := modify (logged l).

Definition count_attempt : eff world unit :=
  modify (fun w =>
    mkWorld (genaiClient w) (DEFAULT_MODEL w) (S (attempts w)) (sdk_calls w) (slept w)
      (console w)).

Definition sleep (ms : nat) : eff world unit := modify (waited ms).

(** [await client.generateContent(request)] *)
Definition generateContent (c : genai) (model prompt : string) : eff world string :=
  fun w =>
    let w' := mkWorld (genaiClient w) (DEFAULT_MODEL w) (attempts w)
                (S (sdk_calls w)) (slept w) (console w) in
    match respond c (sdk_calls w) model prompt with
    | Responds text => (w', Returns text)
    | Rejects e => (w', Throws e)
    end.

Definition not_initialized : exn :=
  mkExn PlainError
    "GenAI client not initialized. Install @google/genai and set GEMINI_API_KEY in .env".

Definition no_generateContent : exn :=
  mkExn PlainError
    "GenAI SDK found but does not expose generateContent(). Check your @google/genai version.".

(** ** The arguments and the result of [analyzeEndpoint] *)

(** The second argument: [undefined] fields are [None]. *)
Record options : Type := mkOptions {
  opt_model : option string;
  opt_retries : option nat
}.

Definition no_options : options := mkOptions None None.

Record analysis : Type := mkAnalysis {
  raw : string;
  parsed : json          (* [JNull] when the text does not parse *)
}.

Definition bad_payload : exn :=
  mkExn PlainError
    "analyzeEndpoint expects a payload with payload.function.cleanedCode/sanitizedCode".

(** The [try] block of [run]: the span from the first opening brace to the
    last closing one is parsed when there is one, else the whole text. *)
Definition parse_raw (raw : string) : json :=
  let jsonText :=
    match indexOf raw "{", lastIndexOf raw "}" with
    | Some firstBrace, Some lastBrace =>
        if firstBrace <? lastBrace then slice raw firstBrace (lastBrace + 1)
        else raw
    | _, _ => raw
    end in
  default JNull (JSON_parse jsonText).

(** ** Outside the repository: [p-retry] and the console

    [pRetry(input, { retries, onFailedAttempt })] calls [input] and, while
    it fails, calls it again, at most [retries] more times: [retries]
    counts the retries after the first attempt.  After a failure that does
    not end the retries [onFailedAttempt] runs; before a retry the package
    waits 1000 ms times 2 to the number of retries made.  An [AbortError]
    ends the retries at once and the promise rejects with the error it
    wraps; a [TypeError] that is not a network error ends them too.

    The releases of the package differ in the rest, and the repository
    does not say which one it runs with.  What [onFailedAttempt] receives
    is the error itself, to which the attempt number and the retries left
    have been added (the older releases), or an object that holds them
    beside the error (the newer ones).  A [TypeError] is a network error
    by a test that has changed with the releases of [is-network-error].
    Some releases call [onFailedAttempt] before they give up on a
    [TypeError], others do not.  When the attempts are used up the promise
    rejects with the error of the last one (the newer releases) or with
    the one the [retry] package calls the main error: the error whose
    message the attempts met most often, the latest on a tie (the older
    releases).  The record [runtime] says which.

    [retry] counts the messages in an object, so that a message that names
    a member every object inherits ([constructor], say) is not counted, and
    a run of errors with such messages has no main error.  The main error
    below is that of errors with other messages, which [ordinary] tells
    apart; what is proved of the main error is proved of these. *)

(** The argument of [onFailedAttempt]. *)
Inductive failure : Type :=
| FailedError (e : exn)
| FailedContext (e : exn) (attemptNumber retriesLeft : nat).

(** The release of [p-retry] in use, and what Node's console prints for
    a value that is no string. *)
Record runtime : Type := mkRuntime {
  is_network_error : exn -> bool;
  passes_context : bool;
  notifies_type_error : bool;
  rejects_most_frequent : bool;
  inspect_error : exn -> string;
  inspect_failure : failure -> string
}.

(** The names of the members of [Object.prototype]. *)
Definition inherited_names : list string :=
  ["constructor"; "__defineGetter__"; "__defineSetter__"; "hasOwnProperty";
   "__lookupGetter__"; "__lookupSetter__"; "isPrototypeOf";
   "propertyIsEnumerable"; "toString"; "valueOf"; "__proto__"; "toLocaleString"].

Definition ordinary (e : exn) : bool :=
  negb (existsb (String.eqb (exn_message e)) inherited_names).

(** How often a message occurs among the errors. *)
Fixpoint count_message (message : string) (errors : list exn) : nat :=
  match errors with
  | [] => 0
  | e :: errors' =>
      (if String.eqb (exn_message e) message then 1 else 0)
      + count_message message errors'
  end.

(** The loop of [mainError] in [retry]: [seen] are the errors passed, and
    [main] has been counted [mainCount] times among them. *)
Fixpoint mainError_from (seen rest : list exn) (main : exn) (mainCount : nat) : exn :=
  match rest with
  | [] => main
  | e :: rest' =>
      let count := count_message (exn_message e) seen + 1 in
      if mainCount <=? count then mainError_from (e :: seen) rest' e count
      else mainError_from (e :: seen) rest' main mainCount
  end.

(** What an error that ends the retries at once is rejected as. *)
Definition rethrown (e : exn) : exn :=
  match exn_class e with
  | AbortError original => mkExn original (exn_message e)
  | _ => e
  end.

Section Runtime.

Variable rt : runtime.

(** [err.message || err] on the console. *)
Definition described (err : exn) : string :=
  if JsString.truthy (exn_message err) then exn_message err else inspect_error rt err.

Definition generateTextWithGenAI (model prompt : string) : eff world string :=
  let! client := gets genaiClient in
  match client with
  | None => throw not_initialized
  | Some c =>
      try_catch
        (match shape c with
         | ModelsApi | LegacyApi => generateContent c model prompt
         | NoGenerateContent => throw no_generateContent
         end)
        (fun err =>
           do! write_console (Fs.Err ("Error calling Gemini: " +:+ described err)) in
           throw err)
  end.

Definition aborts (e : exn) : bool :=
  match exn_class e with
  | AbortError _ => true
  | TypeError => negb (is_network_error rt e)
  | _ => false
  end.

Definition failure_of (e : exn) (attemptNumber retriesLeft : nat) : failure :=
  if passes_context rt then FailedContext e attemptNumber retriesLeft
  else FailedError e.

(** The rejection once the attempts are used up: [errors] are the errors
    of the attempts before the last, [e] is the error of the last. *)
Definition rejection (errors : list exn) (e : exn) : exn :=
  if rejects_most_frequent rt then mainError_from [] (errors ++ [e]) e 0 else e.

Fixpoint pRetry_from {A} (retriesLeft attemptNumber : nat) (errors : list exn)
    (input : nat -> eff world A) (onFailedAttempt : failure -> eff world unit)
    : eff world A :=
  try_catch (input attemptNumber)
    (fun e =>
       if aborts e then
         do! (match exn_class e with
              | AbortError _ => ret tt
              | _ =>
                  if notifies_type_error rt
                  then onFailedAttempt (failure_of e attemptNumber retriesLeft)
                  else ret tt
              end) in
         throw (rethrown e)
       else
         do! onFailedAttempt (failure_of e attemptNumber retriesLeft) in
         match retriesLeft with
         | 0 => throw (rejection errors e)
         | S retriesLeft' =>
             do! sleep (1000 * 2 ^ (attemptNumber - 1)) in
             pRetry_from retriesLeft' (S attemptNumber) (errors ++ [e]) input
               onFailedAttempt
         end).

Definition pRetry {A} (input : nat -> eff world A) (retries : nat)
    (onFailedAttempt : failure -> eff world unit) : eff world A :=
  pRetry_from retries 1 [] input onFailedAttempt.

(** ** [analyzeEndpoint] *)

(** [onFailedAttempt: (err) => console.warn(..., err.message || err)]: an
    error is shown by its message when it has one; the object of the later
    releases has no [message] and is shown itself. *)
Definition onFailedAttempt (err : failure) : eff world unit :=
  write_console
    (Fs.Warn ("GenAI attempt failed: " +:+
              match err with
              | FailedError e =>
                  if JsString.truthy (exn_message e) then exn_message e
                  else inspect_failure rt err
              | FailedContext _ _ _ => inspect_failure rt err
              end)).

(** [buildAnalysisPrompt]: the text of the prompt plays no part in the
    retry policy and is left open.  The templates of the prompt turn
    members of the payload into text, which raises a TypeError for an
    object that cannot be converted (one with a member [toString] that is
    no function, say): the prompt is a text or an error. *)
Variable buildAnalysisPrompt : json -> result string.

Definition run (model prompt : string) (attemptNumber : nat) : eff world analysis :=
  do! count_attempt in
  let! raw := generateTextWithGenAI model prompt in
  ret (mkAnalysis raw (parse_raw raw)).

(** [opts.retries ?? 3] *)
Definition retries_of (opts : options) : nat := default 3 (opt_retries opts).

Definition analyzeEndpoint (payload : json) (opts : options) : eff world analysis :=
  if negb (Json.truthy payload) || negb (Json.truthy (or_default (get payload "function") JNull))
  then throw bad_payload
  else
    let! defaultModel := gets DEFAULT_MODEL in
    let model :=
      match opt_model opts with
      | Some m => if JsString.truthy m then m else defaultModel
      | None => defaultModel
      end in
    match buildAnalysisPrompt payload with
    | Throws e => throw e
    | Returns prompt => pRetry (run model prompt) (retries_of opts) onFailedAttempt
    end.

End Runtime.

(** [setModel] *)
Definition setModel (modelId : string) : eff world unit :=
  modify (fun w =>
    mkWorld (genaiClient w) modelId (attempts w) (sdk_calls w) (slept w) (console w)).

End Client.

(* ===================================================================== *)
(** * Concrete inputs *)
(* ===================================================================== *)

Module Examples.
Import JsString Json Eff.

Definition quoted (s : string) : string := dq +:+ s +:+ dq.

(** ** Model responses *)

(** The object
    [{ summary: ok, issues: [], suggestions: [], before_after: null, notes: n }]
    as JSON text, every key and string in double quotes. *)
Definition insight_object : string :=
  "{" +:+ quoted "summary" +:+ ":" +:+ quoted "ok" +:+ ","
  +:+ quoted "issues" +:+ ":[],"
  +:+ quoted "suggestions" +:+ ":[],"
  +:+ quoted "before_after" +:+ ":null,"
  +:+ quoted "notes" +:+ ":" +:+ quoted "n" +:+ "}".

(** The same object inside a [```json] fence. *)
Definition fenced_response : string :=
  "```json" +:+ nl +:+ insight_object +:+ nl +:+ "```".

(** [{ summary: ok, issues: [], }] as JSON text with its trailing comma. *)
Definition trailing_comma_response : string :=
  "{" +:+ quoted "summary" +:+ ":" +:+ quoted "ok" +:+ ","
  +:+ quoted "issues" +:+ ":[],}".

Definition repaired_response : string :=
  "{" +:+ quoted "summary" +:+ ":" +:+ quoted "ok" +:+ ","
  +:+ quoted "issues" +:+ ":[]}".

Definition no_braces_response : string := "no braces here".

(** A response whose only member is [summary], with the given text between
    the quotes. *)
Definition summary_response (text : string) : string :=
  "{" +:+ quoted "summary" +:+ ":" +:+ quoted text +:+ "}".

(** A review that speaks of JSON in its summary and in one of its issues,
    inside a fence.
<<
{ summary: JSON parsing is slow, issues: [uses json twice], notes: n }
>> *)
Definition review_members : string :=
  quoted "summary" +:+ ":" +:+ quoted "JSON parsing is slow" +:+ ","
  +:+ quoted "issues" +:+ ":[" +:+ quoted "uses json twice" +:+ "],"
  +:+ quoted "notes" +:+ ":" +:+ quoted "n".

Definition review_response : string :=
  "```json" +:+ nl +:+ "{" +:+ review_members +:+ "}" +:+ nl +:+ "```".

Definition review_value : list (string * json) :=
  [("summary", JString "JSON parsing is slow");
   ("issues", JArray [JString "uses json twice"]);
   ("notes", JString "n")].

(** Two members, the name of the second of which becomes the name of the
    first once the word is deleted.
<<
{ summary: json, sumjsonmary: jsjsonon }
>> *)
Definition merging_response : string :=
  "{" +:+ quoted "summary" +:+ ":" +:+ quoted "json" +:+ ","
  +:+ quoted "sumjsonmary" +:+ ":" +:+ quoted "jsjsonon" +:+ "}".

(** The summary [jSON parsing], written with its first letter as the
    escape of U+006A. *)
Definition escaped_response : string :=
  summary_response (String "092" "u006aSON parsing").

(** ** Route files *)

Definition route_line : string :=
  "router.get(" +:+ quoted "/users/:id" +:+ ", getUser)".

Definition routes_world : Fs.world :=
  Fs.mkWorld
    {[ "/app/src/routes" := Fs.Dir ["user.routes.js"];
       "/app/src/routes/user.routes.js" := Fs.File route_line ]}
    [].

Definition missing_dir : string := "/app/src/missing".
Definition missing_file : string := "/app/src/routes/post.routes.js".

(** ** Controller files *)

Import AstParser.

Definition identifier : node := OtherNode "Identifier" [].
Definition send_call : node :=
  OtherNode "BlockStatement"
    [OtherNode "ExpressionStatement" [OtherNode "CallExpression" []]].

Definition declared_source : string := "function foo(req, res) { res.send(1); }".

Definition declared_program : list node :=
  [FunctionDeclaration (Some "foo") false 0 39
     (mkLoc (mkPosition 1 0) (mkPosition 1 39))
     [identifier; identifier; identifier; send_call]].

Definition arrow_source : string :=
  "const foo = async (req, res) => { res.send(1); };".

Definition arrow_program : list node :=
  [OtherNode "VariableDeclaration"
     [VariableDeclarator (Some "foo") []
        (mkLoc (mkPosition 1 6) (mkPosition 1 48))
        (Some (ArrowFunctionExpression true 12 48 [identifier; identifier; send_call]))]].

(** A controller in which a function binds the name to an arrow function
    before the module declares a function of that name:
<<
function register(app) {
  const getUser = async (req, res) => { res.send(1); };
  app.get('/u', getUser);
}
function getUser(req, res) { res.send(2); }
>> *)
Definition shadowed_source : string :=
  "function register(app) {" +:+ nl
  +:+ "  const getUser = async (req, res) => { res.send(1); };" +:+ nl
  +:+ "  app.get('/u', getUser);" +:+ nl
  +:+ "}" +:+ nl
  +:+ "function getUser(req, res) { res.send(2); }" +:+ nl.

Definition shadowed_program : list node :=
  [FunctionDeclaration (Some "register") false 0 108
     (mkLoc (mkPosition 1 0) (mkPosition 4 1))
     [identifier; identifier;
      OtherNode "BlockStatement"
        [OtherNode "VariableDeclaration"
           [VariableDeclarator (Some "getUser") []
              (mkLoc (mkPosition 2 8) (mkPosition 2 54))
              (Some (ArrowFunctionExpression true 43 79
                       [identifier; identifier; send_call]))];
         OtherNode "ExpressionStatement" [OtherNode "CallExpression" []]]];
   FunctionDeclaration (Some "getUser") false 109 152
     (mkLoc (mkPosition 5 0) (mkPosition 5 43))
     [identifier; identifier; identifier; send_call]].

(** The declaration after a comment that holds the character U+1F680, four
    bytes in the file and two code units in the string: the declaration
    begins at byte 8 and at offset 6.
<<
// (U+1F680)
function foo(req, res) { res.send(1); }
>> *)
Definition rocket : string :=
  String "240" (String "159" (String "154" (String "128" EmptyString))).

Definition commented_source : string :=
  "// " +:+ rocket +:+ nl +:+ declared_source.

Definition commented_program : list node :=
  [FunctionDeclaration (Some "foo") false 6 45
     (mkLoc (mkPosition 2 0) (mkPosition 2 39))
     [identifier; identifier; identifier; send_call]].

Definition syntax_error : exn := mkExn SyntaxError "Unexpected token".

(** The parser on the four sources above. *)
Definition babel (source : string) : exn + list node :=
  if String.eqb source declared_source then inr declared_program
  else if String.eqb source arrow_source then inr arrow_program
  else if String.eqb source shadowed_source then inr shadowed_program
  else if String.eqb source commented_source then inr commented_program
  else inl syntax_error.

Definition controllers_world : Fs.world :=
  Fs.mkWorld
    {[ "/app/src/controllers/declared.controller.js" := Fs.File declared_source;
       "/app/src/controllers/arrow.controller.js" := Fs.File arrow_source;
       "/app/src/controllers/user.controller.js" := Fs.File shadowed_source;
       "/app/src/controllers/commented.controller.js" := Fs.File commented_source ]}
    [].

(** ** Model clients *)

Import Client.

Definition payload : json :=
  JObject [("function",
            JObject [("name", JString "getUser");
                     ("sanitizedCode", JString "res.send(1);")])].

Definition prompt_of (p : json) : result string :=
  Returns "Analyze the following endpoint".

(** A release that hands the error to [onFailedAttempt], does not call it
    for a [TypeError] that ends the retries, and rejects with the last
    error; a [TypeError] is retried when its message is [fetch failed]. *)
Definition runtime : Client.runtime :=
  mkRuntime (fun e => String.eqb (exn_message e) "fetch failed") false false false
    (fun e => "Error") (fun f => "[object Object]").

(** A release that hands an object to [onFailedAttempt], calls it for
    every failure but an [AbortError], and rejects with the main error. *)
Definition other_runtime : Client.runtime :=
  mkRuntime (fun e => String.eqb (exn_message e) "fetch failed") true true true
    (fun e => "Error") (fun f => "[object Object]").

(** The SDK did not load. *)
Definition unconfigured : Client.world :=
  Client.mkWorld None "gemini-2.5-flash" 0 0 [] [].

Definition unavailable : exn := mkExn PlainError "503 Service Unavailable".

(** An SDK every call of which is rejected. *)
Definition failing_sdk : genai :=
  mkGenai ModelsApi (fun _ _ _ => Rejects unavailable).

Definition always_failing : Client.world :=
  Client.mkWorld (Some failing_sdk) "gemini-2.5-flash" 0 0 [] [].

End Examples.

(* ===================================================================== *)
(** * Traces of the retry loop *)
(* ===================================================================== *)

Module ClientTrace.
Import JsString Json Eff Client.

(** [opts.model || DEFAULT_MODEL] *)
Definition model_of (opts : options) (w : world) : string :=
  match opt_model opts with
  | Some m => if JsString.truthy m then m else DEFAULT_MODEL w
  | None => DEFAULT_MODEL w
  end.

(** [!payload || !payload.function] *)
Definition rejected_payload (payload : json) : bool :=
  negb (Json.truthy payload)
  || negb (Json.truthy (or_default (get payload "function") JNull)).

(** The pauses before the retries 1 to [k], in milliseconds. *)
Definition backoff (k : nat) : list nat :=
  List.map (fun i => 1000 * 2 ^ (i - 1)) (seq 1 k).

(** What a failed call leaves on the console: the [console.error] of
    [generateTextWithGenAI]. *)
Definition error_line (rt : runtime) (e : exn) : Fs.log_line :=
  Fs.Err ("Error calling Gemini: " +:+ described rt e).

(** What [onFailedAttempt] shows of its argument. *)
Definition shown (rt : runtime) (f : failure) : string :=
  match f with
  | FailedError e =>
      if JsString.truthy (exn_message e) then exn_message e
      else inspect_failure rt f
  | FailedContext _ _ _ => inspect_failure rt f
  end.

(** The [console.warn] of [onFailedAttempt] after the attempt of the given
    number has failed with [e]. *)
Definition warn_line (rt : runtime) (e : exn) (attemptNumber retriesLeft : nat)
    : Fs.log_line :=
  Fs.Warn ("GenAI attempt failed: "
           +:+ shown rt (failure_of rt e attemptNumber retriesLeft)).

(** The console lines of the failed attempts [1] to [k] of a call with
    [retries] retries; attempt [i + 1] failed with [errs i]. *)
Definition failure_lines (rt : runtime) (retries : nat) (errs : nat -> exn) (k : nat)
    : list Fs.log_line :=
  List.flat_map
    (fun i => [error_line rt (errs i); warn_line rt (errs i) (S i) (retries - i)])
    (seq 0 k).

(** The errors of the attempts [1] to [k]. *)
Definition errors_of (errs : nat -> exn) (k : nat) : list exn :=
  List.map errs (seq 0 k).

(** What an error that ends the retries at once leaves on the console
    after the line of the failed call: the warning, in a release that
    calls [onFailedAttempt] for a TypeError, and nothing for an
    AbortError. *)
Definition abort_lines (rt : runtime) (e : exn) (attemptNumber retriesLeft : nat)
    : list Fs.log_line :=
  match exn_class e with
  | AbortError _ => []
  | _ =>
      if notifies_type_error rt then [warn_line rt e attemptNumber retriesLeft]
      else []
  end.

(** The errors the SDK rejects with have ordinary messages. *)
Definition ordinary_rejections (w : world) : Prop :=
  forall (c : genai) (n : nat) (model prompt : string) (e : exn),
    genaiClient w = Some c ->
    respond c n model prompt = Rejects e -> ordinary e = true.

(** The world with more lines on the console. *)
Definition logged_all (lines : list Fs.log_line) (w : world) : world :=
  mkWorld (genaiClient w) (DEFAULT_MODEL w) (attempts w) (sdk_calls w) (slept w)
    (console w ++ lines).

(** The SDK object has a [generateContent] the module can call. *)
Definition callable (c : genai) : bool :=
  match shape c with
  | ModelsApi | LegacyApi => true
  | NoGenerateContent => false
  end.

End ClientTrace.

(* ===================================================================== *)
(** * Texts around an object *)
(* ===================================================================== *)

Module Prose.
Import JsString Json Adapter.

Definition not_opening (c : ascii) : bool := negb (Ascii.eqb c "{").

(** Neither brace: what [[^{}]] matches. *)
Definition outside_braces (c : ascii) : bool :=
  negb (Ascii.eqb c "{") && negb (Ascii.eqb c "}").

(** An object in the text of a reply: [before] holds no opening brace and
    [after] no closing one. *)
Definition embedded (before inner after : string) : string :=
  before +:+ "{" +:+ inner +:+ "}" +:+ after.

(** The insight [normalize] makes of a value without any of the five
    members. *)
Definition placeholders : AIInsight :=
  {| summary := JString "No summary provided.";
     issues := JArray [];
     suggestions := JArray [];
     before_after := JNull;
     notes := JString "No notes provided." |}.

End Prose.

(** * The deletion of [json], on the values *)

Module Erasure.
Import JsString Json Adapter.

(** The value with the word deleted from the text of every string and of
    every member name. *)
Fixpoint erase (v : json) : json :=
  match v with
  | JString s => JString (delete_json s)
  | JArray items => JArray (List.map erase items)
  | JObject members =>
      JObject (List.map (fun m => (delete_json (fst m), erase (snd m))) members)
  | _ => v
  end.

Definition erase_member (m : string * json) : string * json :=
  (delete_json (fst m), erase (snd m)).

(** A string or a member name of the value holds the word. *)
Fixpoint mentions_json (v : json) : bool :=
  match v with
  | JString s => contains_json s
  | JArray items => existsb mentions_json items
  | JObject members =>
      existsb (fun m => contains_json (fst m) || mentions_json (snd m)) members
  | _ => false
  end.

(** No member name of the object holds the word. *)
Definition plain_names (v : json) : bool :=
  match v with
  | JObject members => forallb (fun m => negb (contains_json (fst m))) members
  | _ => true
  end.

Definition no_backslash (c : ascii) : bool := negb (Ascii.eqb c "092").

(** The character is no [j], small or capital: no occurrence of the word
    begins with it. *)
Definition no_j (c : ascii) : bool := negb (same_letter "j" c).

(** The text does not begin with a [j]. *)
Definition calm (s : string) : bool :=
  match s with
  | String c _ => no_j c
  | EmptyString => true
  end.

(** The characters that stand for themselves in a string literal: no
    control character, no quote and no backslash. *)
Definition literal_char (c : ascii) : bool :=
  (32 <=? code c) && negb (Ascii.eqb c dquote) && negb (Ascii.eqb c "092").

(** The parser on a text and on the text after the deletion: with the
    same fuel, on a text without a backslash and before a rest that does
    not begin with a [j], it reads the value with the word deleted. *)
Definition erased_value (f : nat) : Prop :=
  forall (s : string) (v : json) (r : string),
    parse_value f s = Some (v, r) ->
    all_chars no_backslash s = true -> calm r = true ->
    parse_value f (delete_json s) = Some (erase v, delete_json r) /\
    all_chars no_backslash r = true.

Definition erased_elements (f : nat) : Prop :=
  forall (s : string) (acc : list json) (v : json) (r : string),
    parse_elements f s acc = Some (v, r) ->
    all_chars no_backslash s = true -> calm r = true ->
    parse_elements f (delete_json s) (List.map erase acc)
    = Some (erase v, delete_json r) /\
    all_chars no_backslash r = true.

Definition erased_members (f : nat) : Prop :=
  forall (s : string) (acc : list (string * json)) (v : json) (r : string),
    parse_members f s acc = Some (v, r) ->
    all_chars no_backslash s = true -> calm r = true ->
    parse_members f (delete_json s) (List.map erase_member acc)
    = Some (erase v, delete_json r) /\
    all_chars no_backslash r = true.

(** The member [k] of the raw object holds the word, and what is returned
    for it is another value. *)
Definition field_differs (members : list (string * json)) (k : string)
    (returned : json) : Prop :=
  forall x : json,
    lookup_member k members = Some x -> mentions_json x = true -> returned <> x.

(** ** Induction on values *)

Section JsonInduction.

Variable P : json -> Prop.
Hypothesis HNull : P JNull.
Hypothesis HBool : forall b, P (JBool b).
Hypothesis HNumber : forall lexeme, P (JNumber lexeme).
Hypothesis HString : forall s, P (JString s).
Hypothesis HArray : forall items, Forall P items -> P (JArray items).
Hypothesis HObject :
  forall members, Forall (fun m => P (snd m)) members -> P (JObject members).

Fixpoint json_induction (v : json) : P v :=
  match v with
  | JNull => HNull
  | JBool b => HBool b
  | JNumber lexeme => HNumber lexeme
  | JString s => HString s
  | JArray items =>
      HArray items
        ((fix all (l : list json) : Forall P l :=
            match l with
            | [] => @List.Forall_nil json P
            | x :: l' => @List.Forall_cons json P x l' (json_induction x) (all l')
            end) items)
  | JObject members =>
      HObject members
        ((fix all (l : list (string * json)) : Forall (fun m => P (snd m)) l :=
            match l with
            | [] => @List.Forall_nil (string * json) (fun m => P (snd m))
            | (k, x) :: l' =>
                @List.Forall_cons (string * json) (fun m => P (snd m)) (k, x) l'
                  (json_induction x) (all l')
            end) members)
  end.

End JsonInduction.

End Erasure.

(* ===================================================================== *)
(** * What a pattern matches and what its groups capture *)
(* ===================================================================== *)

Module RegexLanguage.
Import JsString Regex.

(** The strings a pattern matches, the assertions [^] and [$] read as the
    empty pattern. *)
Inductive matches (ic : bool) : regex -> string -> Prop :=
| MEmpty : matches ic REmpty EmptyString
| MChar (a ch : ascii) :
    Ascii.eqb (canon ic a) (canon ic ch) = true ->
    matches ic (RChar a) (String ch EmptyString)
| MAny (ch : ascii) :
    is_line_terminator ch = false -> matches ic RAny (String ch EmptyString)
| MSet (negated : bool) (items : list citem) (ch : ascii) :
    set_matches ic negated items ch = true ->
    matches ic (RSet negated items) (String ch EmptyString)
| MBol : matches ic RBol EmptyString
| MEol : matches ic REol EmptyString
| MSeq (r1 r2 : regex) (u v : string) :
    matches ic r1 u -> matches ic r2 v -> matches ic (RSeq r1 r2) (u +:+ v)
| MAltL (r1 r2 : regex) (u : string) :
    matches ic r1 u -> matches ic (RAlt r1 r2) u
| MAltR (r1 r2 : regex) (u : string) :
    matches ic r2 u -> matches ic (RAlt r1 r2) u
| MStarNil (g : bool) (r : regex) : matches ic (RStar g r) EmptyString
| MStarCons (g : bool) (r : regex) (u v : string) :
    matches ic r u -> matches ic (RStar g r) v -> matches ic (RStar g r) (u +:+ v)
| MOptNone (g : bool) (r : regex) : matches ic (ROpt g r) EmptyString
| MOptSome (g : bool) (r : regex) (u : string) :
    matches ic r u -> matches ic (ROpt g r) u
| MGroup (n : nat) (r : regex) (u : string) :
    matches ic r u -> matches ic (RGroup n r) u.

(** The patterns inside the groups numbered [n]. *)
Fixpoint group_bodies (n : nat) (r : regex) : list regex :=
  match r with
  | RSeq r1 r2 | RAlt r1 r2 => group_bodies n r1 ++ group_bodies n r2
  | RStar _ r1 | ROpt _ r1 => group_bodies n r1
  | RGroup m r1 => (if m =? n then [r1] else []) ++ group_bodies n r1
  | _ => []
  end.

(** Group [n] lies on every way through the pattern: a match has set it. *)
Fixpoint mandatory (n : nat) (r : regex) : bool :=
  match r with
  | RSeq r1 r2 => mandatory n r1 || mandatory n r2
  | RAlt r1 r2 => mandatory n r1 && mandatory n r2
  | RGroup m r1 => (m =? n) || mandatory n r1
  | _ => false
  end.

(** Slot [n] of the captures holds a text that a group numbered [n]
    matches. *)
Definition captured (ic : bool) (r : regex) (n : nat) (c : caps) : Prop :=
  exists (v : string) (body : regex),
    c !! n = Some (Some v) /\ body ∈ group_bodies n r /\ matches ic body v.

(** What a successful match hands to its continuation. *)
Definition sound {R} (ic : bool) (r : regex) (i : nat) (s : string) (c : caps)
    (k : nat -> string -> caps -> option R) (x : R) : Prop :=
  exists (u s' : string) (c' : caps),
    s = u +:+ s' /\
    matches ic r u /\
    k (i + String.length u) s' c' = Some x /\
    length c' = length c /\
    (forall n : nat, n ∉ groups_of r -> c' !! n = c !! n) /\
    (forall n : nat, mandatory n r = true -> captured ic r n c').

End RegexLanguage.

(* ===================================================================== *)
(** * The fields of an endpoint *)
(* ===================================================================== *)

Module Shapes.
Import JsString Regex.

(** [[a-zA-Z0-9_]] *)
Definition is_handler_char (c : ascii) : bool :=
  is_lower c || is_upper c || is_digit c || Ascii.eqb c "_".

(** [[\w$]] *)
Definition is_module_handler_char (c : ascii) : bool :=
  is_word c || Ascii.eqb c "$".

Definition same_line (c : ascii) : bool := negb (is_line_terminator c).

(** [[^'Q`]], where Q stands for the double quote. *)
Definition no_quote (c : ascii) : bool :=
  negb (Ascii.eqb c "'") && negb (Ascii.eqb c dquote) && negb (Ascii.eqb c backtick).

Definition member (x : string) (l : list string) : bool :=
  existsb (String.eqb x) l.

(** What every endpoint of [scanRoutesFile] looks like. *)
Definition well_formed (controllerFile : string) (e : RouteReflector.endpoint) : bool :=
  member (RouteReflector.method e) ["GET"; "POST"; "PUT"; "DELETE"; "PATCH"]
  && all_chars same_line (RouteReflector.path e)
  && JsString.truthy (RouteReflector.handler e)
  && all_chars is_handler_char (RouteReflector.handler e)
  && String.eqb (RouteReflector.controller e) controllerFile.

(** What every endpoint of [extractEndpointsFromFile] looks like. *)
Definition module_well_formed (file : string) (e : RouteReflectorModule.endpoint) : bool :=
  member (RouteReflectorModule.method e)
    ["GET"; "POST"; "PUT"; "DELETE"; "PATCH"; "OPTIONS"; "HEAD"]
  && JsString.truthy (RouteReflectorModule.path e)
  && all_chars no_quote (RouteReflectorModule.path e)
  && JsString.truthy (RouteReflectorModule.handler e)
  && all_chars is_module_handler_char (RouteReflectorModule.handler e)
  && String.eqb (RouteReflectorModule.file e) file.

End Shapes.

(* ===================================================================== *)
(** * A directory of route files *)
(* ===================================================================== *)

Module Sweep.
Import JsString Regex Eff Fs.

(** The names [scanRoutesDirectory] keeps of a listing. *)
Definition route_files (names : list string) : list string :=
  filter (fun f => endsWith f ".js" = true) names.

(** The endpoints in the text of the file at [filePath], none when there is
    no file. *)
Definition endpoints_at (w : world) (filePath : string) : list RouteReflector.endpoint :=
  match files w !! filePath with
  | Some (File code) =>
      default [] (RouteReflector.scan_code code (RouteReflector.controller_of filePath))
  | _ => []
  end.

Definition module_endpoints_at (cwd : string) (w : world) (filePath : string)
    : list RouteReflectorModule.endpoint :=
  match files w !! filePath with
  | Some (File code) =>
      default [] (RouteReflectorModule.scan_code code (path_relative cwd filePath))
  | _ => []
  end.

Definition no_dot (c : ascii) : bool := negb (Ascii.eqb "." c).
Definition no_slash (c : ascii) : bool := negb (Ascii.eqb c "/").

(** A name that [path.join] keeps as the last segment of the path: not
    empty, without a slash, and neither [.] nor [..]. *)
Definition segment (name : string) : bool :=
  all_chars no_slash name
  && negb (String.eqb name EmptyString)
  && negb (String.eqb name ".") && negb (String.eqb name "..").

(** [/\.routes/], the pattern that the string [".routes"] stands for in
    [replace]. *)
Definition routes_suffix : regexp := RegExp (RLit ".routes") 0 false false.

Definition is_file (w : world) (filePath : string) : bool :=
  match files w !! filePath with
  | Some (File _) => true
  | _ => false
  end.

End Sweep.

(* ===================================================================== *)
(** * src/scripts/run-full-analysis.js: [analyzeReports] *)
(* ===================================================================== *)

(** The third step of the pipeline: the payloads in the directory of the
    analyzer are sent to the model one after the other and the cleaned
    replies are written as reports.  The steps before it prompt the user
    and start the analyzer as a child process, and are not modelled.  The
    pictographs that open the messages are left out, as above. *)

Module Pipeline.
Import JsString Regex Json Eff.

(** The files, the state of the client module with the console, and the
    number of times the clock has been read. *)
Record world : Type := mkWorld {
  files : gmap string Fs.entry;
  ai : Client.world;
  clock : nat
}.

Definition console (w : world) : list Fs.log_line := Client.console (ai w).

(** A step of the client module. *)
Definition on_client {A} (m : eff Client.world A) : eff world A :=
  fun w =>
    match m (ai w) with
    | (c, r) => (mkWorld (files w) c (clock w), r)
    end.

(** A step on the files; what it writes to the console goes to the one
    console. *)
Definition on_files {A} (m : eff Fs.world A) : eff world A :=
  fun w =>
    match m (Fs.mkWorld (files w) []) with
    | (f, r) =>
        (mkWorld (Fs.files f)
           (fold_left (fun c l => Client.logged l c) (Fs.console f) (ai w))
           (clock w), r)
    end.

Definition console_log (text : string) : eff world unit :=
  on_client (Client.write_console (Fs.Log text)).
Definition console_warn (text : string) : eff world unit :=
  on_client (Client.write_console (Fs.Warn text)).
Definition console_error (text : string) : eff world unit :=
  on_client (Client.write_console (Fs.Err text)).

(** The directory a path lies in. *)
Definition dirname (p : string) : string :=
  match lastIndexOf p "/" with
  | Some i => take i p
  | None => "."
  end.

(** [fs.writeFileSync(p, content)]: the directory of [p] must exist; a file
    at [p] is replaced, a new file is added to the listing. *)
Definition writeFileSync (p content : string) : eff world unit :=
  fun w =>
    match files w !! p, files w !! dirname p with
    | Some (Fs.Dir _), _ => (w, Throws (Fs.EISDIR p))
    | _, None => (w, Throws (Fs.ENOENT p))
    | _, Some (Fs.File _) => (w, Throws (Fs.ENOTDIR p))
    | existing, Some (Fs.Dir names) =>
        let names' :=
          match existing with
          | Some _ => names
          | None => (names ++ [Fs.last_segment p])%list
          end in
        (mkWorld (<[p := Fs.File content]> (<[dirname p := Fs.Dir names']> (files w)))
           (ai w) (clock w),
         Returns tt)
    end.

(** [s.startsWith(prefix)] *)
Definition startsWith (s prefix : string) : bool :=
  String.eqb (take (String.length prefix) s) prefix.

(** [s.includes(sub)] *)
Fixpoint includes (s sub : string) : bool :=
  startsWith s sub
  || match s with
     | EmptyString => false
     | String _ s' => includes s' sub
     end.

(** [/[:.]/g] *)
Definition colon_dot_re : regexp :=
  RegExp (RSet false [CChar ":"; CChar "."]) 0 false true.

Definition is_mark (c : ascii) : bool := Ascii.eqb c ":" || Ascii.eqb c ".".

(** The same replacement, character by character. *)
Fixpoint dashed (s : string) : string :=
  match s with
  | EmptyString => EmptyString
  | String c s' =>
      String (if is_mark c then "-"%char else c) (dashed s')
  end.

(** [v?.k]: [undefined] when [v] is [null] or [undefined]; the members
    read here are defined on objects only. *)
Definition chained (v : option json) (k : string) : option json :=
  match v with
  | Some (JObject ms) => lookup_member k ms
  | _ => None
  end.

Definition truthy_member (v : option json) : bool :=
  match v with
  | Some x => Json.truthy x
  | None => false
  end.

(** [payload.function?.cleanedCode || payload.function?.sanitizedCode] as
    a condition. *)
Definition has_code (payload : json) : bool :=
  truthy_member (chained (get payload "function") "cleanedCode")
  || truthy_member (chained (get payload "function") "sanitizedCode").

(** [payload.function?.name || "unknown"] *)
Definition endpoint_name (payload : json) : json :=
  or_default (chained (get payload "function") "name") (JString "unknown").

Definition null_payload : exn :=
  mkExn TypeError "Cannot read properties of null (reading 'function')".
Definition null_reply : exn :=
  mkExn TypeError "Cannot read properties of null (reading 'summary')".
Definition no_match_method : exn :=
  mkExn TypeError "rawResponse.match is not a function".

(** Thirty box-drawing characters U+2500, as UTF-8. *)
Fixpoint rule (n : nat) : string :=
  match n with
  | 0 => EmptyString
  | S n' => String "226" (String "148" (String "128" (rule n')))
  end.

Section Script.

(** [path.join(__dirname, "../..", "analysis_reports")] and
    [path.join(__dirname, "../..", "src", "ai_reports")] *)
Variable ANALYSIS_DIR : string.
Variable AI_REPORTS_DIR : string.

(** Of the libraries: the release of [p-retry] and the console, the
    prompt of the client, [new Date().toISOString()] at the [n]-th reading
    of the clock, [JSON.stringify(cleaned, null, 2)], the message of the
    SyntaxError that [JSON.parse] throws on a text, and what a template
    string makes of a value that is no string: a text, or the TypeError
    of an object that cannot be converted. *)
Variable rt : Client.runtime.
Variable buildAnalysisPrompt : json -> result string.
Variable toISOString : nat -> string.
Variable stringify : Adapter.outcome -> string.
Variable parse_error : string -> string.
Variable text_of : json -> result string.

Definition now : eff world string :=
  fun w => (mkWorld (files w) (ai w) (S (clock w)), Returns (toISOString (clock w))).

(** [`${v}`] *)
Definition template (v : json) : result string :=
  match v with
  | JString s => Returns s
  | _ => text_of v
  end.

(** [cleanGeminiResponse] with what it writes to the console. *)
Definition cleanGeminiResponse (rawResponse : string) : eff world Adapter.outcome :=
  if negb (JsString.truthy rawResponse) then
    ret (Adapter.ErrorInsight (Adapter.mkAIError "No response from Gemini" None None))
  else
    let extracted := Adapter.cleanup (Adapter.extract_candidate rawResponse) in
    match JSON_parse extracted with
    | Some parsed => ret (Adapter.normalize parsed)
    | None =>
        do! console_warn ("Could not parse Gemini JSON (even after cleanup): "
                          +:+ parse_error extracted) in
        let fixed := Adapter.auto_fix extracted in
        match JSON_parse fixed with
        | Some parsed =>
            do! console_log "Auto-fixed malformed JSON successfully!" in
            ret (Adapter.normalize parsed)
        | None =>
            do! console_error ("Still invalid after auto-fix: " +:+ parse_error fixed) in
            ret (Adapter.ErrorInsight
                   (Adapter.mkAIError "Invalid JSON (even after auto-fix)"
                      (Some (slice extracted 0 400 +:+ "..."))
                      (Some (slice rawResponse 0 400 +:+ "..."))))
        end
    end.

(** [cleanGeminiResponse(aiResult.raw || aiResult)]; the value returned is
    an object, or the call raises. *)
Definition clean (aiResult : Client.analysis) : eff world Adapter.outcome :=
  if JsString.truthy (Client.raw aiResult) then
    let! cleaned := cleanGeminiResponse (Client.raw aiResult) in
    match cleaned with
    | Adapter.ThrowsTypeError => throw null_reply
    | _ => ret cleaned
    end
  else throw no_match_method.

(** The [try] block of the loop. *)
Definition report (endpointName : string) (payload : json) : eff world unit :=
  let! aiResult := on_client (Client.analyzeEndpoint rt buildAnalysisPrompt payload
                                Client.no_options) in
  let! cleaned := clean aiResult in
  let! stamp := now in
  let reportName :=
    endpointName +:+ "_AI_Insights_" +:+ replace stamp colon_dot_re [RText "-"]
    +:+ ".json" in
  let reportPath := Fs.path_join AI_REPORTS_DIR reportName in
  do! writeFileSync reportPath (stringify cleaned) in
  console_log ("Saved Gemini report → " +:+ reportPath +:+ nl).

(** The body of the loop for one file. *)
Definition analyze_file (file : string) : eff world unit :=
  let payloadPath := Fs.path_join ANALYSIS_DIR file in
  let! text := on_files (Fs.readFileSync payloadPath) in
  match JSON_parse text with
  | None => throw (mkExn SyntaxError (parse_error text))
  | Some JNull => throw null_payload
  | Some payload =>
      if negb (has_code payload) then
        console_warn ("Skipping " +:+ file +:+ ": invalid payload structure.")
      else
        match template (endpoint_name payload) with
        | Throws e => throw e
        | Returns endpointName =>
            do! console_log ("Analyzing endpoint: " +:+ endpointName
                             +:+ " (" +:+ file +:+ ")") in
            do! console_log (rule 30) in
            try_catch (report endpointName payload)
              (fun err =>
                 console_error ("Error analyzing " +:+ file +:+ ": "
                                +:+ exn_message err))
        end
  end.

(** The name of the endpoint and the prompt can be written. *)
Definition writable (payload : json) : bool :=
  match template (endpoint_name payload), buildAnalysisPrompt payload with
  | Returns _, Returns _ => true
  | _, _ => false
  end.

(** The payload file is there, parses and holds code, and its payload can
    be written. *)
Definition ready (w : world) (file : string) : bool :=
  match files w !! Fs.path_join ANALYSIS_DIR file with
  | Some (Fs.File text) =>
      match JSON_parse text with
      | Some payload => has_code payload && writable payload
      | None => false
      end
  | _ => false
  end.

(** [for (const file of payloadFiles) { ... }] *)
Fixpoint sweep (payloadFiles : list string) : eff world unit :=
  match payloadFiles with
  | [] => ret tt
  | file :: payloadFiles' =>
      do! analyze_file file in
      sweep payloadFiles'
  end.

Definition payload_files (names : list string) : list string :=
  filter (fun f => endsWith f ".json" && negb (includes f "last_session") = true) names.

Definition analyzeReports : eff world unit :=
  do! console_log (nl +:+ "Scanning analyzer output files..." +:+ nl) in
  let! names := on_files (Fs.readdirSync ANALYSIS_DIR) in
  match payload_files names with
  | [] => console_warn "No payloads found in analysis_reports/"
  | payloadFiles =>
      do! sweep payloadFiles in
      console_log ("All selected endpoints analyzed successfully!" +:+ nl)
  end.

End Script.

End Pipeline.

Module Scenarios.
Import JsString Json Eff Client.

(** An SDK whose first two calls are rejected and whose later calls answer
    with the text of an insight object between two lines of prose. *)
Definition answer : string :=
  "Here is the review:" +:+ nl +:+ Examples.insight_object +:+ nl +:+ "Done.".

Definition flaky_sdk : genai :=
  mkGenai LegacyApi
    (fun n _ _ => if n <? 2 then Rejects Examples.unavailable else Responds answer).

Definition flaky : Client.world :=
  Client.mkWorld (Some flaky_sdk) "gemini-2.5-flash" 0 0 [] [].

(** A programming error inside the SDK. *)
Definition not_a_function : exn :=
  mkExn TypeError "fetch is not a function".

Definition crashing_sdk : genai :=
  mkGenai ModelsApi (fun _ _ _ => Rejects not_a_function).

Definition crashing : Client.world :=
  Client.mkWorld (Some crashing_sdk) "gemini-2.5-flash" 0 0 [] [].

(** An SDK object without [generateContent]. *)
Definition shapeless_sdk : genai :=
  mkGenai NoGenerateContent (fun _ _ _ => Responds answer).

Definition shapeless : Client.world :=
  Client.mkWorld (Some shapeless_sdk) "gemini-2.5-flash" 0 0 [] [].

(** A directory with two route files and a file of another kind. *)
Definition post_line : string :=
  "router.post('/posts', createPost);".

Definition routes_tree : Fs.world :=
  Fs.mkWorld
    {[ "/app/src/routes" := Fs.Dir ["user.routes.js"; "README.md"; "post.routes.js"];
       "/app/src/routes/user.routes.js" := Fs.File Examples.route_line;
       "/app/src/routes/README.md" := Fs.File "router.get('/readme', readme)";
       "/app/src/routes/post.routes.js" := Fs.File post_line ]}
    [].

(** Two payloads of the analyzer and the record of its last session. *)
Definition payload_text (name : string) : string :=
  "{" +:+ Examples.quoted "function" +:+ ":{"
  +:+ Examples.quoted "name" +:+ ":" +:+ Examples.quoted name +:+ ","
  +:+ Examples.quoted "sanitizedCode" +:+ ":" +:+ Examples.quoted "res.send(1);"
  +:+ "}}".

Definition reports_tree : gmap string Fs.entry :=
  {[ "/app/analysis_reports" :=
       Fs.Dir ["getUser.json"; "last_session.json"; "createPost.json"];
     "/app/analysis_reports/getUser.json" := Fs.File (payload_text "getUser");
     "/app/analysis_reports/last_session.json" := Fs.File "{}";
     "/app/analysis_reports/createPost.json" := Fs.File (payload_text "createPost");
     "/app/src/ai_reports" := Fs.Dir [] ]}.

(** The pipeline with a client that answers every call with a fenced object. *)
Definition online : Pipeline.world :=
  Pipeline.mkWorld reports_tree
    (Client.mkWorld
       (Some (mkGenai ModelsApi (fun _ _ _ => Responds Examples.fenced_response)))
       "gemini-2.5-flash" 0 0 [] [])
    0.

(** The pipeline without a client. *)
Definition offline : Pipeline.world :=
  Pipeline.mkWorld reports_tree Examples.unconfigured 0.

Definition iso (n : nat) : string := "2025-01-01T00:00:00.000Z".
Definition show (o : Adapter.outcome) : string := "{}".
Definition message_of (text : string) : string := "Unexpected token".
Definition text_of (v : json) : result string := Returns "[object Object]".

End Scenarios.

(* ===================================================================== *)
(** * Strings and the file system: basic facts *)
(* ===================================================================== *)

Import JsString Regex Json Eff.

Lemma take_length_le (n : nat) (s : string) : String.length (take n s) <= n.
Proof.
  revert s. induction n as [|n IH]; intros [|c s]; simpl; try lia.
  specialize (IH s). lia.
Qed.

Lemma take_drop (n : nat) (s : string) : take n s +:+ drop n s = s.
Proof.
  revert s. induction n as [|n IH]; intros [|c s]; try reflexivity.
  change (String c (take n s +:+ drop n s) = String c s).
  rewrite IH. reflexivity.
Qed.

Lemma slice_from_start (s : string) (n : nat) : slice s 0 n = take n s.
Proof. unfold slice. rewrite Nat.sub_0_r. reflexivity. Qed.

Lemma truthy_nonempty (s : string) : s <> EmptyString -> JsString.truthy s = true.
Proof. destruct s; [congruence | reflexivity]. Qed.

Lemma existsSync_missing (w : Fs.world) (p : string) :
  Fs.files w !! p = None -> Fs.existsSync p w = (w, Returns false).
Proof. intros H. unfold Fs.existsSync, gets. rewrite H. reflexivity. Qed.

Lemma existsSync_present (w : Fs.world) (p : string) (e : Fs.entry) :
  Fs.files w !! p = Some e -> Fs.existsSync p w = (w, Returns true).
Proof. intros H. unfold Fs.existsSync, gets. rewrite H. reflexivity. Qed.

Lemma readFileSync_file (w : Fs.world) (p content : string) :
  Fs.files w !! p = Some (Fs.File content) ->
  Fs.readFileSync p w = (w, Returns content).
Proof. intros H. unfold Fs.readFileSync. rewrite H. reflexivity. Qed.

(* ===================================================================== *)
(** * The scanners *)
(* ===================================================================== *)

(** The guarded scanner on a path that does not exist: an empty list and
    one warning, for the file scan and for the directory scan. *)
Lemma scanRoutesFile_missing (w : Fs.world) (p : string) :
  Fs.files w !! p = None ->
  RouteReflector.scanRoutesFile p w =
  (Fs.mkWorld (Fs.files w) (Fs.console w ++ [Fs.Warn ("Route file not found: " +:+ p)]),
   Returns []).
Proof.
  intros H. unfold RouteReflector.scanRoutesFile, bind.
  rewrite (existsSync_missing _ _ H). reflexivity.
Qed.

Lemma scanRoutesDirectory_missing (w : Fs.world) (p : string) :
  Fs.files w !! p = None ->
  RouteReflector.scanRoutesDirectory p w =
  (Fs.mkWorld (Fs.files w)
     (Fs.console w ++ [Fs.Warn ("Routes directory not found: " +:+ p)]),
   Returns []).
Proof.
  intros H. unfold RouteReflector.scanRoutesDirectory, bind.
  rewrite (existsSync_missing _ _ H). reflexivity.
Qed.

(** The unguarded scanner on a path that does not exist: the error of the
    file system leaves both functions. *)
Lemma extractEndpointsFromFile_missing (cwd : string) (w : Fs.world) (p : string) :
  Fs.files w !! p = None ->
  RouteReflectorModule.extractEndpointsFromFile cwd p w = (w, Throws (Fs.ENOENT p)).
Proof.
  intros H. unfold RouteReflectorModule.extractEndpointsFromFile, bind, Fs.readFileSync.
  rewrite H. reflexivity.
Qed.

Lemma module_scanRoutesDirectory_missing (cwd : string) (w : Fs.world) (p : string) :
  Fs.files w !! p = None ->
  RouteReflectorModule.scanRoutesDirectory cwd p w = (w, Throws (Fs.ENOENT p)).
Proof.
  intros H. unfold RouteReflectorModule.scanRoutesDirectory, bind, Fs.readdirSync.
  rewrite H. reflexivity.
Qed.

(** C3.  Scanning a path that does not exist is to return an empty sequence
    with a warning and never raise, in every scanner of the repository.
    Evaluated on a file system without [/app/src/missing] and without
    [/app/src/routes/post.routes.js]: the scanner with [existsSync] guards
    returns the empty list and warns once, for a file and for a directory;
    the other scanner raises ENOENT from [readFileSync] and from
    [readdirSync]. *)
Theorem unguarded_scanner_raises_on_missing_path :
  Fs.files Examples.routes_world !! Examples.missing_file = None /\
  Fs.files Examples.routes_world !! Examples.missing_dir = None /\
  snd (RouteReflector.scanRoutesFile Examples.missing_file Examples.routes_world)
    = Returns [] /\
  snd (RouteReflector.scanRoutesDirectory Examples.missing_dir Examples.routes_world)
    = Returns [] /\
  RouteReflectorModule.extractEndpointsFromFile "/app" Examples.missing_file
    Examples.routes_world
    = (Examples.routes_world, Throws (Fs.ENOENT Examples.missing_file)) /\
  RouteReflectorModule.scanRoutesDirectory "/app" Examples.missing_dir
    Examples.routes_world
    = (Examples.routes_world, Throws (Fs.ENOENT Examples.missing_dir)).
Proof.
  assert (Hf : Fs.files Examples.routes_world !! Examples.missing_file = None)
    by (vm_compute; reflexivity).
  assert (Hd : Fs.files Examples.routes_world !! Examples.missing_dir = None)
    by (vm_compute; reflexivity).
  split; [exact Hf|]. split; [exact Hd|].
  split; [rewrite (scanRoutesFile_missing _ _ Hf); reflexivity|].
  split; [rewrite (scanRoutesDirectory_missing _ _ Hd); reflexivity|].
  split.
  - apply extractEndpointsFromFile_missing, Hf.
  - apply module_scanRoutesDirectory_missing, Hd.
Qed.

Lemma scan_code_route_line (controllerFile : string) :
  RouteReflector.scan_code Examples.route_line controllerFile =
  Some [RouteReflector.mkEndpoint "GET" "/users/:id" "getUser" controllerFile].
Proof. vm_compute. reflexivity. Qed.

Lemma module_scan_code_route_line (file : string) :
  RouteReflectorModule.scan_code Examples.route_line file =
  Some [RouteReflectorModule.mkEndpoint "GET" "/users/:id" "getUser" file].
Proof. vm_compute. reflexivity. Qed.

(** C9.  On a route file that holds the single line
    [router.get(Q/users/:id Q, getUser)] (Q the double quote) each scanner
    returns exactly one endpoint: method GET, path [/users/:id], handler
    [getUser]; its fourth field is the controller file name derived from
    the route file name, respectively the route file's relative path. *)
Theorem scanner_precision (w : Fs.world) (filePath cwd : string) :
  Fs.files w !! filePath = Some (Fs.File Examples.route_line) ->
  RouteReflector.scanRoutesFile filePath w =
    (w, Returns [RouteReflector.mkEndpoint "GET" "/users/:id" "getUser"
                   (RouteReflector.controller_of filePath)]) /\
  RouteReflectorModule.extractEndpointsFromFile cwd filePath w =
    (w, Returns [RouteReflectorModule.mkEndpoint "GET" "/users/:id" "getUser"
                   (Fs.path_relative cwd filePath)]).
Proof.
  intros H. split.
  - unfold RouteReflector.scanRoutesFile, bind.
    rewrite (existsSync_present _ _ _ H). simpl.
    rewrite (readFileSync_file _ _ _ H), scan_code_route_line. reflexivity.
  - unfold RouteReflectorModule.extractEndpointsFromFile, bind.
    rewrite (readFileSync_file _ _ _ H), module_scan_code_route_line. reflexivity.
Qed.

Lemma scanner_precision_witness :
  RouteReflector.scanRoutesFile "/app/src/routes/user.routes.js" Examples.routes_world =
    (Examples.routes_world,
     Returns [RouteReflector.mkEndpoint "GET" "/users/:id" "getUser" "user.controller.js"]) /\
  RouteReflectorModule.extractEndpointsFromFile "/app" "/app/src/routes/user.routes.js"
    Examples.routes_world =
    (Examples.routes_world,
     Returns [RouteReflectorModule.mkEndpoint "GET" "/users/:id" "getUser"
                "src/routes/user.routes.js"]).
Proof.
  apply (scanner_precision Examples.routes_world "/app/src/routes/user.routes.js" "/app").
  vm_compute. reflexivity.
Defined.

(** The fourth field of the second scanner for a route file that does not
    lie below the working directory: the way up and down again. *)
Lemma route_file_outside_the_working_directory :
  RouteReflectorModule.extractEndpointsFromFile "/srv/tools"
    "/app/src/routes/user.routes.js" Examples.routes_world =
    (Examples.routes_world,
     Returns [RouteReflectorModule.mkEndpoint "GET" "/users/:id" "getUser"
                "../../app/src/routes/user.routes.js"]) /\
  Fs.path_relative "/" "/app/src/routes/user.routes.js"
  = "app/src/routes/user.routes.js" /\
  Fs.path_relative "/app/" "/app/src/routes/user.routes.js"
  = "src/routes/user.routes.js".
Proof. vm_compute. repeat split; reflexivity. Qed.

(* ===================================================================== *)
(** * The response adapter *)
(* ===================================================================== *)

(** C5.  The object with summary [ok], empty issues and suggestions,
    [before_after] null and notes [n], wrapped in a [```json] fence, comes
    back from [cleanGeminiResponse] with exactly these five values: the
    fence interior is taken, cleaned to the text of the object, parsed and
    normalized. *)
Theorem fenced_response_round_trip :
  Adapter.extract_candidate Examples.fenced_response
    = nl +:+ Examples.insight_object +:+ nl /\
  Adapter.cleanup (Adapter.extract_candidate Examples.fenced_response)
    = Examples.insight_object /\
  Adapter.cleanGeminiResponse Examples.fenced_response =
    Adapter.Insight
      {| Adapter.summary := JString "ok";
         Adapter.issues := JArray [];
         Adapter.suggestions := JArray [];
         Adapter.before_after := JNull;
         Adapter.notes := JString "n" |}.
Proof. vm_compute. repeat split; reflexivity. Qed.

(** C6.  On the object text with a trailing comma the first parse fails,
    the auto-fix deletes the comma, the second parse succeeds, and
    [cleanGeminiResponse] returns a normalized insight with summary [ok],
    not the error shape. *)
Theorem trailing_comma_is_repaired :
  JSON_parse (Adapter.cleanup (Adapter.extract_candidate Examples.trailing_comma_response))
    = None /\
  Adapter.auto_fix
    (Adapter.cleanup (Adapter.extract_candidate Examples.trailing_comma_response))
    = Examples.repaired_response /\
  Adapter.cleanGeminiResponse Examples.trailing_comma_response =
    Adapter.Insight
      {| Adapter.summary := JString "ok";
         Adapter.issues := JArray [];
         Adapter.suggestions := JArray [];
         Adapter.before_after := JNull;
         Adapter.notes := JString "No notes provided." |}.
Proof. vm_compute. repeat split; reflexivity. Qed.



(* ===================================================================== *)
(** * The source extractor *)
(* ===================================================================== *)

Section Traversal.
Import AstParser.

Variables source handlerName : string.

Lemma first_some_app {A B} (f : A -> option B) (l1 l2 : list A) :
  first_some f (l1 ++ l2) =
  match first_some f l1 with
  | Some y => Some y
  | None => first_some f l2
  end.
Proof.
  induction l1 as [|x l1 IH]; simpl; [reflexivity|].
  destruct (f x); [reflexivity | apply IH].
Qed.

Lemma after_nil t : after source handlerName [] t = t.
Proof. unfold after. destruct (stopped t); reflexivity. Qed.

Lemma after_app ns1 ns2 t :
  after source handlerName (ns1 ++ ns2) t =
  after source handlerName ns2 (after source handlerName ns1 t).
Proof.
  unfold after. destruct (stopped t) eqn:E; [rewrite E; reflexivity|].
  rewrite first_some_app.
  destruct (first_some _ ns1); simpl; [reflexivity|].
  rewrite E. reflexivity.
Qed.

(** The two visitors together extract what [handler_at] describes. *)
Lemma enter_handler_at n t :
  enter source handlerName n t =
  from_option found t (handler_at source handlerName n).
Proof.
  unfold handler_at.
  destruct n as [id a s e l cs | id p l init | a s e cs | a s e cs | ty cs]; simpl;
    try reflexivity.
  - destruct (name_is id handlerName); reflexivity.
  - destruct init as [[]|]; destruct (name_is id handlerName); reflexivity.
Qed.

Lemma after_cons n ns t :
  after source handlerName (n :: ns) t =
  if stopped t then t
  else after source handlerName ns (enter source handlerName n t).
Proof.
  unfold after. destruct (stopped t) eqn:E; [reflexivity|].
  rewrite enter_handler_at. simpl.
  destruct (handler_at source handlerName n); simpl; [reflexivity|].
  rewrite E. reflexivity.
Qed.

Lemma visit_all_after (ns : list node) :
  Forall (fun n => forall t,
            visit source handlerName n t = after source handlerName (preorder n) t) ns ->
  forall t,
    (fix visit_all (ns : list node) (t : traversal) : traversal :=
       match ns with
       | [] => t
       | n' :: ns' => visit_all ns' (visit source handlerName n' t)
       end) ns t = after source handlerName (flat_map preorder ns) t.
Proof.
  induction 1 as [|n ns Hn _ IH]; intros t; simpl.
  - symmetry. apply after_nil.
  - rewrite IH, Hn, after_app. reflexivity.
Qed.

(** Visiting a tree is scanning its nodes in document order. *)
Lemma visit_after (n : node) :
  forall t, visit source handlerName n t = after source handlerName (preorder n) t.
Proof.
  induction n as [id a s e l cs IH | id p l init IHp IHi | a s e cs IH
                 | a s e cs IH | ty cs IH] using node_induction; intros t;
    cbn [preorder]; rewrite after_cons; cbn [visit];
    destruct (stopped t); try reflexivity;
    try (apply (visit_all_after _ IH)).
  destruct init as [n0|]; simpl in IHi.
  - rewrite IHi, after_app. f_equal. apply (visit_all_after _ IHp).
  - apply (visit_all_after _ IHp).
Qed.

Lemma traverse_after (program : list node) (t : traversal) :
  fold_left (fun t n => visit source handlerName n t) program t =
  after source handlerName (flat_map preorder program) t.
Proof.
  revert t. induction program as [|n ns IH]; intros t; simpl.
  - symmetry. apply after_nil.
  - rewrite IH, visit_after, after_app. reflexivity.
Qed.

Lemma traverse_first_in_document_order (program : list node) :
  extracted (traverse source handlerName program) =
  first_in_document_order source handlerName program.
Proof.
  unfold traverse, first_in_document_order. rewrite traverse_after.
  unfold after. simpl.
  destruct (first_some _ _); reflexivity.
Qed.

End Traversal.

(** What [extractFunctionCode] returns on a file that exists and parses. *)
Lemma extractFunctionCode_parsed (parse : string -> exn + list AstParser.node)
    (w : Fs.world) (filePath source handlerName : string)
    (program : list AstParser.node) :
  Fs.files w !! filePath = Some (Fs.File source) ->
  parse source = inr program ->
  snd (AstParser.extractFunctionCode parse filePath handlerName w) =
  Returns (AstParser.first_in_document_order source handlerName program).
Proof.
  intros Hf Hp. unfold AstParser.extractFunctionCode, bind.
  rewrite (existsSync_present _ _ _ Hf). cbn [negb].
  rewrite (readFileSync_file _ _ _ Hf), Hp.
  rewrite traverse_first_in_document_order.
  destruct (AstParser.first_in_document_order source handlerName program);
    reflexivity.
Qed.

(** C1, as the code has it.  [extractFunctionCode] makes one traversal of
    the whole tree, not of the top level only, and returns the first node
    in document order that is a function declaration of the name or a
    binding of the name to a function or arrow function: neither form has
    precedence, the earlier one is extracted. *)
Theorem extraction_takes_first_in_document_order
    (parse : string -> exn + list AstParser.node)
    (w : Fs.world) (filePath source handlerName : string)
    (program : list AstParser.node) :
  Fs.files w !! filePath = Some (Fs.File source) ->
  parse source = inr program ->
  snd (AstParser.extractFunctionCode parse filePath handlerName w) =
  Returns
    (AstParser.first_some (AstParser.handler_at source handlerName)
       (flat_map AstParser.preorder program)).
Proof. apply extractFunctionCode_parsed. Qed.

Lemma extraction_takes_first_in_document_order_witness :
  snd (AstParser.extractFunctionCode Examples.babel
         "/app/src/controllers/user.controller.js" "getUser"
         Examples.controllers_world) =
  Returns
    (AstParser.first_some (AstParser.handler_at Examples.shadowed_source "getUser")
       (flat_map AstParser.preorder Examples.shadowed_program)).
Proof.
  apply (extraction_takes_first_in_document_order Examples.babel
           Examples.controllers_world "/app/src/controllers/user.controller.js"
           Examples.shadowed_source "getUser" Examples.shadowed_program).
  - vm_compute. reflexivity.
  - vm_compute. reflexivity.
Defined.

(** C1, as stated, fails.  In [user.controller.js] the function [register]
    binds [getUser] to an arrow function and the module then declares the
    function [getUser].  The order of the specification, declarations
    first, selects the declaration; [extractFunctionCode] returns the
    arrow function bound earlier. *)
Lemma binding_before_declaration_is_extracted :
  AstParser.declaration_first Examples.shadowed_source "getUser"
    Examples.shadowed_program =
    Some (AstParser.mkExtracted "getUser"
            "function getUser(req, res) { res.send(2); }"
            (AstParser.mkLoc (AstParser.mkPosition 5 0) (AstParser.mkPosition 5 43))
            false) /\
  snd (AstParser.extractFunctionCode Examples.babel
         "/app/src/controllers/user.controller.js" "getUser"
         Examples.controllers_world) =
    Returns
      (Some (AstParser.mkExtracted "getUser"
               "async (req, res) => { res.send(1); }"
               (AstParser.mkLoc (AstParser.mkPosition 2 8) (AstParser.mkPosition 2 54))
               true)) /\
  snd (AstParser.extractFunctionCode Examples.babel
         "/app/src/controllers/user.controller.js" "getUser"
         Examples.controllers_world) <>
    Returns (AstParser.declaration_first Examples.shadowed_source "getUser"
               Examples.shadowed_program).
Proof.
  split; [vm_compute; reflexivity|].
  split; [vm_compute; reflexivity|].
  vm_compute. discriminate.
Qed.



(** The span counts code units: after a comment with a character outside
    the Basic Multilingual Plane the declaration that the parser reports at
    offsets 6 to 45 lies at bytes 8 to 47 of the file, and it is the
    declaration that is extracted. *)
Lemma extraction_counts_code_units :
  snd (AstParser.extractFunctionCode Examples.babel
         "/app/src/controllers/commented.controller.js" "foo"
         Examples.controllers_world) =
    Returns
      (Some (AstParser.mkExtracted "foo" "function foo(req, res) { res.send(1); }"
               (AstParser.mkLoc (AstParser.mkPosition 2 0) (AstParser.mkPosition 2 39))
               false)) /\
  slice Examples.commented_source 8 47 = "function foo(req, res) { res.send(1); }".
Proof. vm_compute. split; reflexivity. Qed.

(** On ASCII text the code units are the bytes. *)
Lemma drop_units_ascii (s : string) :
  is_ascii s = true -> forall n : nat, drop_units n s = drop n s.
Proof.
  unfold is_ascii. induction s as [|c s IH]; intros H n; [destruct n; reflexivity|].
  cbn [all_chars] in H. apply andb_true_iff in H as [Hc Hs].
  apply Nat.ltb_lt in Hc.
  assert (Hk : is_continuation c = false).
  { unfold is_continuation, between. apply andb_false_iff. left.
    apply Nat.leb_gt. exact Hc. }
  assert (Hu : units c = 1).
  { unfold units. rewrite Hk.
    replace (code c <? 240) with true; [reflexivity|].
    symmetry. apply Nat.ltb_lt. lia. }
  cbn [drop_units drop]. rewrite Hk. destruct n as [|n]; [reflexivity|].
  rewrite Hu, (IH Hs). replace (S n - 1) with n by lia. reflexivity.
Qed.

Lemma take_units_ascii (s : string) :
  is_ascii s = true -> forall n : nat, take_units n s = take n s.
Proof.
  unfold is_ascii. induction s as [|c s IH]; intros H n; [destruct n; reflexivity|].
  cbn [all_chars] in H. apply andb_true_iff in H as [Hc Hs].
  apply Nat.ltb_lt in Hc.
  assert (Hk : is_continuation c = false).
  { unfold is_continuation, between. apply andb_false_iff. left.
    apply Nat.leb_gt. exact Hc. }
  assert (Hu : units c = 1).
  { unfold units. rewrite Hk.
    replace (code c <? 240) with true; [reflexivity|].
    symmetry. apply Nat.ltb_lt. lia. }
  cbn [take_units take]. rewrite Hk. destruct n as [|n]; [reflexivity|].
  rewrite Hu, (IH Hs). replace (S n - 1) with n by lia. reflexivity.
Qed.

Lemma all_chars_drop (p : ascii -> bool) (s : string) :
  all_chars p s = true -> forall n : nat, all_chars p (drop n s) = true.
Proof.
  induction s as [|c s IH]; intros H n; [destruct n; reflexivity|].
  destruct n as [|n]; [exact H|].
  cbn [all_chars] in H. apply andb_true_iff in H as [_ Hs]. apply (IH Hs).
Qed.

Lemma slice_units_ascii (s : string) (start end_ : nat) :
  is_ascii s = true -> slice_units s start end_ = slice s start end_.
Proof.
  intros H. unfold slice_units, slice.
  rewrite (drop_units_ascii s H). apply take_units_ascii.
  apply all_chars_drop. exact H.
Qed.

(* ===================================================================== *)
(** * The model client *)
(* ===================================================================== *)

Section Retry.
Import Client ClientTrace.

Variable rt : runtime.

(** One attempt is counted once, whatever the SDK does. *)
Lemma run_counts_one (model prompt : string) (attemptNumber : nat) (w : Client.world) :
  attempts (fst (run rt model prompt attemptNumber w)) = S (attempts w).
Proof.
  unfold run, bind, count_attempt, modify, generateTextWithGenAI, gets, try_catch,
    generateContent, throw, write_console, ret.
  cbn. destruct (genaiClient w) as [c|]; [|reflexivity].
  destruct (shape c); cbn; try destruct (respond c _ _ _); reflexivity.
Qed.

(** One step of the retry loop after a failure that does not end it. *)
Lemma pRetry_from_failed {A} (retriesLeft attemptNumber : nat) (errors : list exn)
    (input : nat -> eff Client.world A) (w w1 : Client.world) (e : exn) :
  input attemptNumber w = (w1, Throws e) ->
  aborts rt e = false ->
  pRetry_from rt retriesLeft attemptNumber errors input (onFailedAttempt rt) w =
  match retriesLeft with
  | 0 => (logged (warn_line rt e attemptNumber 0) w1, Throws (rejection rt errors e))
  | S retriesLeft' =>
      pRetry_from rt retriesLeft' (S attemptNumber) (errors ++ [e]) input
        (onFailedAttempt rt)
        (waited (1000 * 2 ^ (attemptNumber - 1))
           (logged (warn_line rt e attemptNumber retriesLeft) w1))
  end.
Proof.
  intros Hi Ha. destruct retriesLeft; cbn [pRetry_from]; unfold try_catch;
    rewrite Hi, Ha; reflexivity.
Qed.

Lemma logged_all_nil (w : Client.world) : logged_all [] w = w.
Proof. destruct w. unfold logged_all. cbn. rewrite app_nil_r. reflexivity. Qed.

Lemma pRetry_from_aborted {A} (retriesLeft attemptNumber : nat) (errors : list exn)
    (input : nat -> eff Client.world A) (w w1 : Client.world) (e : exn) :
  input attemptNumber w = (w1, Throws e) ->
  aborts rt e = true ->
  pRetry_from rt retriesLeft attemptNumber errors input (onFailedAttempt rt) w =
  (logged_all (abort_lines rt e attemptNumber retriesLeft) w1, Throws (rethrown e)).
Proof.
  intros Hi Ha.
  destruct retriesLeft; cbn [pRetry_from]; unfold try_catch; rewrite Hi, Ha;
    unfold abort_lines, bind;
    destruct (exn_class e); try (cbn; rewrite logged_all_nil; reflexivity);
    destruct (notifies_type_error rt);
    try (cbn; rewrite logged_all_nil; reflexivity); reflexivity.
Qed.

Lemma pRetry_from_succeeded {A} (retriesLeft attemptNumber : nat) (errors : list exn)
    (input : nat -> eff Client.world A) (w w1 : Client.world) (a : A) :
  input attemptNumber w = (w1, Returns a) ->
  pRetry_from rt retriesLeft attemptNumber errors input (onFailedAttempt rt) w
  = (w1, Returns a).
Proof.
  intros Hi. destruct retriesLeft; cbn [pRetry_from]; unfold try_catch;
    rewrite Hi; reflexivity.
Qed.

(** The retry loop calls [run] at most once more than it has retries left. *)
Lemma pRetry_from_attempts_le (model prompt : string) (retriesLeft : nat) :
  forall (attemptNumber : nat) (errors : list exn) (w : Client.world),
    attempts (fst (pRetry_from rt retriesLeft attemptNumber errors (run rt model prompt)
                     (onFailedAttempt rt) w))
    <= attempts w + retriesLeft + 1.
Proof.
  induction retriesLeft as [|r IH]; intros k errors w;
    pose proof (run_counts_one model prompt k w) as Hrun;
    destruct (run rt model prompt k w) as [w1 [a|e]] eqn:Hi; cbn [fst] in Hrun.
  - rewrite (pRetry_from_succeeded _ _ _ _ _ _ _ Hi). cbn [fst]. lia.
  - destruct (aborts rt e) eqn:Ha.
    + rewrite (pRetry_from_aborted _ _ _ _ _ _ _ Hi Ha). cbn [fst]. cbn. lia.
    + rewrite (pRetry_from_failed _ _ _ _ _ _ _ Hi Ha). cbn. lia.
  - rewrite (pRetry_from_succeeded _ _ _ _ _ _ _ Hi). cbn [fst]. lia.
  - destruct (aborts rt e) eqn:Ha.
    + rewrite (pRetry_from_aborted _ _ _ _ _ _ _ Hi Ha). cbn [fst]. cbn. lia.
    + rewrite (pRetry_from_failed _ _ _ _ _ _ _ Hi Ha).
      etransitivity; [apply IH|]. cbn. lia.
Qed.

(** When the attempts have all failed with the same error, that error is
    the rejection, in a release that rejects with the last error and in
    one that rejects with the main error. *)
Lemma count_message_same (e : exn) (seen : list exn) :
  Forall (fun x => x = e) seen ->
  count_message (exn_message e) seen = length seen.
Proof.
  induction 1 as [|x l Hx _ IH]; [reflexivity|]. subst x.
  cbn [count_message length]. rewrite String.eqb_refl, IH. reflexivity.
Qed.

Lemma mainError_from_same (e : exn) (rest : list exn) :
  Forall (fun x => x = e) rest ->
  forall (seen : list exn) (main : exn) (mainCount : nat),
    Forall (fun x => x = e) seen ->
    mainCount <= length seen ->
    mainError_from seen rest main mainCount =
    match rest with
    | [] => main
    | _ => e
    end.
Proof.
  induction 1 as [|x l Hx Hl IH]; intros seen main mainCount Hs Hc; [reflexivity|].
  subst x. cbn [mainError_from]. rewrite (count_message_same e seen Hs).
  replace (mainCount <=? length seen + 1) with true
    by (symmetry; apply Nat.leb_le; lia).
  rewrite IH; [destruct l; reflexivity | constructor; [reflexivity | exact Hs] |].
  cbn [length]. lia.
Qed.

Lemma rejection_same (e : exn) (errors : list exn) :
  Forall (fun x => x = e) errors -> rejection rt errors e = e.
Proof.
  intros H. unfold rejection. destruct (rejects_most_frequent rt); [|reflexivity].
  rewrite (mainError_from_same e).
  - destruct errors; reflexivity.
  - apply Forall_app. split; [exact H | constructor; [reflexivity | constructor]].
  - constructor.
  - cbn. lia.
Qed.

Lemma run_not_initialized (model prompt : string) (attemptNumber : nat)
    (w : Client.world) :
  genaiClient w = None ->
  run rt model prompt attemptNumber w =
  (mkWorld None (DEFAULT_MODEL w) (S (attempts w)) (sdk_calls w) (slept w) (console w),
   Throws not_initialized).
Proof.
  intros Hc. unfold run, bind, count_attempt, modify, generateTextWithGenAI, gets.
  cbn. rewrite Hc. reflexivity.
Qed.

(** Without a client every attempt fails before any call to the SDK, and
    the loop goes through all of its attempts. *)
Lemma pRetry_from_not_initialized (model prompt : string) (retriesLeft : nat) :
  forall (attemptNumber : nat) (errors : list exn) (w : Client.world),
    genaiClient w = None ->
    Forall (fun x => x = not_initialized) errors ->
    let out := pRetry_from rt retriesLeft attemptNumber errors (run rt model prompt)
                 (onFailedAttempt rt) w in
    snd out = Throws not_initialized /\
    attempts (fst out) = attempts w + retriesLeft + 1 /\
    sdk_calls (fst out) = sdk_calls w /\
    slept (fst out)
    = (slept w
       ++ List.map (fun i => 1000 * 2 ^ (i - 1)) (seq attemptNumber retriesLeft))%list /\
    length (console (fst out)) = length (console w) + retriesLeft + 1.
Proof.
  induction retriesLeft as [|r IH]; intros k errors w Hc He;
    rewrite (pRetry_from_failed _ _ _ _ _ _ _
               (run_not_initialized model prompt k w Hc) eq_refl).
  - cbn. rewrite length_app, (rejection_same _ _ He), app_nil_r. cbn.
    repeat split; lia.
  - match goal with |- context [pRetry_from rt r (S k) ?es _ _ ?w0] =>
      destruct (IH (S k) es w0 eq_refl) as (H1 & H2 & H3 & H4 & H5) end.
    { apply Forall_app. split; [exact He | constructor; [reflexivity | constructor]]. }
    cbn zeta. rewrite H1, H2, H3, H4, H5. cbn. rewrite !length_app, <- app_assoc. cbn.
    repeat split; lia.
Qed.

(** ** The loop, attempt by attempt *)

Lemma run_rejected (model prompt : string) (attemptNumber : nat)
    (w : Client.world) (c : genai) (e : exn) :
  genaiClient w = Some c ->
  callable c = true ->
  respond c (sdk_calls w) model prompt = Rejects e ->
  run rt model prompt attemptNumber w =
  (mkWorld (Some c) (DEFAULT_MODEL w) (S (attempts w)) (S (sdk_calls w)) (slept w)
     (console w ++ [error_line rt e]), Throws e).
Proof.
  intros Hc Hs Hr.
  unfold run, bind, count_attempt, modify, generateTextWithGenAI, gets, try_catch,
    generateContent, throw, write_console, ret, callable in *.
  cbn. rewrite Hc. destruct (shape c); try discriminate; cbn; rewrite Hr; reflexivity.
Qed.

Lemma run_responded (model prompt : string) (attemptNumber : nat)
    (w : Client.world) (c : genai) (text : string) :
  genaiClient w = Some c ->
  callable c = true ->
  respond c (sdk_calls w) model prompt = Responds text ->
  run rt model prompt attemptNumber w =
  (mkWorld (Some c) (DEFAULT_MODEL w) (S (attempts w)) (S (sdk_calls w)) (slept w)
     (console w), Returns (mkAnalysis text (parse_raw text))).
Proof.
  intros Hc Hs Hr.
  unfold run, bind, count_attempt, modify, generateTextWithGenAI, gets, try_catch,
    generateContent, throw, write_console, ret, callable in *.
  cbn. rewrite Hc. destruct (shape c); try discriminate; cbn; rewrite Hr; reflexivity.
Qed.

Lemma run_no_generateContent (model prompt : string) (attemptNumber : nat)
    (w : Client.world) (c : genai) :
  genaiClient w = Some c ->
  callable c = false ->
  run rt model prompt attemptNumber w =
  (mkWorld (Some c) (DEFAULT_MODEL w) (S (attempts w)) (sdk_calls w) (slept w)
     (console w ++ [error_line rt no_generateContent]), Throws no_generateContent).
Proof.
  intros Hc Hs.
  unfold run, bind, count_attempt, modify, generateTextWithGenAI, gets, try_catch,
    generateContent, throw, write_console, ret, callable in *.
  cbn. rewrite Hc. destruct (shape c); try discriminate; reflexivity.
Qed.

(** The world after [k] attempts that failed without ending the retries,
    the first of them numbered [a]; each of them makes [d] calls to the
    SDK. *)
Lemma pRetry_from_failures {A : Type} (c : genai) (errs : nat -> exn)
    (input : nat -> eff Client.world A) (d k : nat) :
  forall (retriesLeft a : nat) (errors : list exn) (w : Client.world),
    k <= retriesLeft ->
    (forall (i : nat) (w' : Client.world), i < k ->
       genaiClient w' = Some c ->
       sdk_calls w' = sdk_calls w + d * i ->
       input (a + i) w' =
       (mkWorld (Some c) (DEFAULT_MODEL w') (S (attempts w'))
          (sdk_calls w' + d) (slept w')
          (console w' ++ [error_line rt (errs i)]), Throws (errs i))) ->
    (forall i : nat, i < k -> aborts rt (errs i) = false) ->
    genaiClient w = Some c ->
    pRetry_from rt retriesLeft a errors input (onFailedAttempt rt) w =
    pRetry_from rt (retriesLeft - k) (a + k) (errors ++ errors_of errs k) input
      (onFailedAttempt rt)
      (mkWorld (Some c) (DEFAULT_MODEL w) (attempts w + k) (sdk_calls w + d * k)
         (slept w ++ List.map (fun i => 1000 * 2 ^ (i - 1)) (seq a k))
         (console w
          ++ List.flat_map
               (fun i => [error_line rt (errs i);
                          warn_line rt (errs i) (a + i) (retriesLeft - i)])
               (seq 0 k))).
Proof.
  induction k as [|k IH]; intros r a errors w Hk Hin Hab Hc.
  - cbn. rewrite Nat.sub_0_r, Nat.mul_0_r, !Nat.add_0_r, !app_nil_r.
    destruct w; cbn in *. subst. reflexivity.
  - rewrite (IH r a errors w) by (auto with lia).
    replace (r - k) with (S (r - S k)) at 1 by lia.
    erewrite pRetry_from_failed;
      [| apply Hin; [lia | reflexivity | reflexivity] | apply Hab; lia].
    replace (S (r - S k)) with (r - k) by lia.
    unfold errors_of. rewrite (seq_S k 0), List.map_app, <- app_assoc.
    cbn [List.map Nat.add].
    f_equal; [lia|]. unfold waited, logged.
    cbn [genaiClient DEFAULT_MODEL attempts sdk_calls slept console].
    f_equal; try lia.
    + rewrite seq_S, List.map_app, <- app_assoc. reflexivity.
    + rewrite flat_map_app. cbn [List.flat_map]. rewrite <- !app_assoc.
      reflexivity.
Qed.

(** The same for [run] on an SDK the calls of which are rejected. *)
Lemma pRetry_from_rejections (model prompt : string) (c : genai) (errs : nat -> exn)
    (k retriesLeft : nat) (w : Client.world) :
  k <= retriesLeft ->
  genaiClient w = Some c ->
  callable c = true ->
  (forall i : nat, i < k ->
     respond c (sdk_calls w + i) model prompt = Rejects (errs i)) ->
  (forall i : nat, i < k -> aborts rt (errs i) = false) ->
  pRetry_from rt retriesLeft 1 [] (run rt model prompt) (onFailedAttempt rt) w =
  pRetry_from rt (retriesLeft - k) (1 + k) (errors_of errs k) (run rt model prompt)
    (onFailedAttempt rt)
    (mkWorld (Some c) (DEFAULT_MODEL w) (attempts w + k) (sdk_calls w + k)
       (slept w ++ backoff k)
       (console w ++ failure_lines rt retriesLeft errs k)).
Proof.
  intros Hk Hc Hs Hr Hab.
  rewrite (pRetry_from_failures c errs (run rt model prompt) 1 k retriesLeft 1 [] w);
    auto.
  - rewrite Nat.mul_1_l. reflexivity.
  - intros i w' Hi Hc' Hn.
    rewrite (run_rejected model prompt (1 + i) w' c (errs i)); auto.
    + rewrite Nat.add_1_r. reflexivity.
    + rewrite Hn, Nat.mul_1_l. auto.
Qed.

(** Every attempt is counted, so the loop leaves the counter higher. *)
Lemma pRetry_from_attempts_lt (model prompt : string) (retriesLeft : nat) :
  forall (attemptNumber : nat) (errors : list exn) (w : Client.world),
    attempts w <
    attempts (fst (pRetry_from rt retriesLeft attemptNumber errors (run rt model prompt)
                     (onFailedAttempt rt) w)).
Proof.
  induction retriesLeft as [|r IH]; intros k errors w;
    pose proof (run_counts_one model prompt k w) as Hrun;
    destruct (run rt model prompt k w) as [w1 [a|e]] eqn:Hi; cbn [fst] in Hrun.
  - rewrite (pRetry_from_succeeded _ _ _ _ _ _ _ Hi). cbn [fst]. lia.
  - destruct (aborts rt e) eqn:Ha.
    + rewrite (pRetry_from_aborted _ _ _ _ _ _ _ Hi Ha). cbn. lia.
    + rewrite (pRetry_from_failed _ _ _ _ _ _ _ Hi Ha). cbn. lia.
  - rewrite (pRetry_from_succeeded _ _ _ _ _ _ _ Hi). cbn [fst]. lia.
  - destruct (aborts rt e) eqn:Ha.
    + rewrite (pRetry_from_aborted _ _ _ _ _ _ _ Hi Ha). cbn. lia.
    + rewrite (pRetry_from_failed _ _ _ _ _ _ _ Hi Ha).
      eapply Nat.lt_trans; [|apply IH]. cbn. lia.
Qed.

Section Prompt.

Variable buildAnalysisPrompt : json -> result string.

Lemma analyzeEndpoint_accepted (payload : json) (prompt : string)
    (opts : options) (w : Client.world) :
  rejected_payload payload = false ->
  buildAnalysisPrompt payload = Returns prompt ->
  analyzeEndpoint rt buildAnalysisPrompt payload opts w =
  pRetry_from rt (retries_of opts) 1 [] (run rt (model_of opts w) prompt)
    (onFailedAttempt rt) w.
Proof.
  unfold rejected_payload, analyzeEndpoint. intros -> ->.
  unfold bind, gets, pRetry, model_of. reflexivity.
Qed.

Lemma analyzeEndpoint_no_prompt (payload : json) (e : exn)
    (opts : options) (w : Client.world) :
  rejected_payload payload = false ->
  buildAnalysisPrompt payload = Throws e ->
  analyzeEndpoint rt buildAnalysisPrompt payload opts w = (w, Throws e).
Proof.
  unfold rejected_payload, analyzeEndpoint. intros -> ->. reflexivity.
Qed.

(** Every call is rejected and no error ends the retries: the attempts are
    used up. *)
Lemma analyzeEndpoint_exhausted (payload : json) (prompt : string)
    (opts : options) (w : Client.world) (c : genai) (errs : nat -> exn) :
  rejected_payload payload = false ->
  buildAnalysisPrompt payload = Returns prompt ->
  genaiClient w = Some c ->
  callable c = true ->
  (forall i : nat, i <= retries_of opts ->
     respond c (sdk_calls w + i) (model_of opts w) prompt = Rejects (errs i)) ->
  (forall i : nat, i <= retries_of opts -> aborts rt (errs i) = false) ->
  analyzeEndpoint rt buildAnalysisPrompt payload opts w =
  (mkWorld (Some c) (DEFAULT_MODEL w)
     (attempts w + retries_of opts + 1) (sdk_calls w + retries_of opts + 1)
     (slept w ++ backoff (retries_of opts))
     (console w ++ failure_lines rt (retries_of opts) errs (retries_of opts + 1)),
   Throws (rejection rt (errors_of errs (retries_of opts)) (errs (retries_of opts)))).
Proof.
  intros Hp Hb Hc Hs Hr Hab.
  rewrite (analyzeEndpoint_accepted _ _ _ _ Hp Hb).
  set (r := retries_of opts) in *.
  rewrite (pRetry_from_rejections _ _ c errs r) by (auto with lia).
  rewrite Nat.sub_diag.
  erewrite pRetry_from_failed;
    [| apply (run_rejected _ _ _ _ c (errs r));
       [reflexivity | exact Hs | apply Hr; lia] | apply Hab; lia].
  unfold logged, failure_lines.
  cbn [genaiClient DEFAULT_MODEL attempts sdk_calls slept console].
  rewrite Nat.add_1_r with (n := r), seq_S, flat_map_app. cbn [List.flat_map].
  rewrite <- !app_assoc, Nat.sub_diag. cbn [Nat.add app].
  do 2 f_equal; lia.
Qed.

End Prompt.

(** The two examples on the retries, in every release of the package. *)
Lemma unconfigured_trace :
  let out := analyzeEndpoint rt Examples.prompt_of Examples.payload no_options
               Examples.unconfigured in
  snd out = Throws not_initialized /\
  attempts (fst out) = 4 /\
  slept (fst out) = [1000; 2000; 4000] /\
  length (console (fst out)) = 4 /\
  attempts (fst out) <> 1.
Proof.
  cbv zeta.
  rewrite (analyzeEndpoint_accepted Examples.prompt_of Examples.payload
             "Analyze the following endpoint" no_options Examples.unconfigured
             eq_refl eq_refl).
  destruct (pRetry_from_not_initialized
              (model_of no_options Examples.unconfigured)
              "Analyze the following endpoint" (retries_of no_options) 1 []
              Examples.unconfigured eq_refl (List.Forall_nil _))
    as (H1 & H2 & H3 & H4 & H5).
  rewrite H1, H2, H4, H5. cbn. repeat split; try reflexivity. lia.
Qed.

Lemma always_failing_trace :
  let out := analyzeEndpoint rt Examples.prompt_of Examples.payload no_options
               Examples.always_failing in
  snd out = Throws Examples.unavailable /\
  attempts (fst out) = 4 /\
  sdk_calls (fst out) = 4 /\
  ~ attempts (fst out) <= 3.
Proof.
  cbv zeta.
  rewrite (analyzeEndpoint_exhausted Examples.prompt_of Examples.payload
             "Analyze the following endpoint" no_options Examples.always_failing
             Examples.failing_sdk (fun _ => Examples.unavailable));
    try reflexivity.
  cbn [fst snd attempts sdk_calls].
  rewrite rejection_same.
  - cbn. repeat split; try reflexivity. lia.
  - unfold errors_of. induction (seq 0 (retries_of no_options)); cbn;
      constructor; [reflexivity | assumption].
Qed.

End Retry.

(** C2, as the code has it.  Without a client, [analyzeEndpoint] on a
    payload that passes its check never calls the SDK, and it does not fail
    at once with the "not initialized" error either.  When the prompt can
    be built, the failure goes through the retry policy like any other: the
    attempt is made once and then once more per configured retry, with a
    pause before each retry and a warning after each failure, and only
    then is the "not initialized" error propagated, whichever release of
    the retry package is in use.  When building the prompt raises, that
    error is propagated before any attempt. *)
Theorem unconfigured_client_goes_through_retries
    (rt : Client.runtime) (buildAnalysisPrompt : json -> result string)
    (payload : json) (opts : Client.options) (w : Client.world) :
  Client.genaiClient w = None ->
  Json.truthy payload = true ->
  Json.truthy (or_default (get payload "function") JNull) = true ->
  let out := Client.analyzeEndpoint rt buildAnalysisPrompt payload opts w in
  match buildAnalysisPrompt payload with
  | Returns _ =>
      snd out = Throws Client.not_initialized /\
      Client.sdk_calls (fst out) = Client.sdk_calls w /\
      Client.attempts (fst out) = Client.attempts w + Client.retries_of opts + 1 /\
      length (Client.slept (fst out))
      = length (Client.slept w) + Client.retries_of opts /\
      length (Client.console (fst out)) =
        length (Client.console w) + Client.retries_of opts + 1
  | Throws e => out = (w, Throws e)
  end.
Proof.
  intros Hc Hp Hf. unfold Client.analyzeEndpoint.
  rewrite Hp, Hf. cbn [negb orb]. unfold bind, gets, Client.pRetry.
  destruct (buildAnalysisPrompt payload) as [prompt|e]; [|reflexivity].
  match goal with |- context [Client.pRetry_from rt _ 1 [] (Client.run rt ?m ?p)] =>
    destruct (pRetry_from_not_initialized rt m p (Client.retries_of opts) 1 [] w Hc)
      as (H1 & H2 & H3 & H4 & H5) end; [constructor|].
  cbn zeta. rewrite H4, length_app, length_map, length_seq. auto.
Qed.

Lemma unconfigured_client_goes_through_retries_witness :
  let out := Client.analyzeEndpoint Examples.runtime Examples.prompt_of
               Examples.payload Client.no_options Examples.unconfigured in
  snd out = Throws Client.not_initialized /\
  Client.sdk_calls (fst out) = 0 /\
  Client.attempts (fst out) = 0 + 3 + 1 /\
  length (Client.slept (fst out)) = 0 + 3 /\
  length (Client.console (fst out)) = 0 + 3 + 1.
Proof.
  apply (unconfigured_client_goes_through_retries Examples.runtime
           Examples.prompt_of Examples.payload Client.no_options
           Examples.unconfigured); reflexivity.
Defined.

(** C2, as stated, fails.  With the SDK not loaded and the default options,
    [analyzeEndpoint] does not give up after the first failure: it makes
    four attempts, pausing 1, 2 and 4 seconds between them and warning
    after each, before the error reaches the caller.  This is so in every
    release of the retry package. *)
Lemma unconfigured_client_is_retried :
  Client.genaiClient Examples.unconfigured = None /\
  forall rt : Client.runtime,
    let out := Client.analyzeEndpoint rt Examples.prompt_of Examples.payload
                 Client.no_options Examples.unconfigured in
    snd out = Throws Client.not_initialized /\
    Client.attempts (fst out) = 4 /\
    Client.slept (fst out) = [1000; 2000; 4000] /\
    length (Client.console (fst out)) = 4 /\
    Client.attempts (fst out) <> 1.
Proof.
  split; [reflexivity|]. intros rt.
  exact (unconfigured_trace rt).
Qed.

(** C4, as the code has it.  The configured number, 3 when the caller gives
    none, bounds the retries, not the attempts: [analyzeEndpoint] invokes
    the model at most once more than that number, so at most four times by
    default. *)
Theorem attempts_bounded_by_retries_plus_one
    (rt : Client.runtime) (buildAnalysisPrompt : json -> result string)
    (payload : json) (opts : Client.options) (w : Client.world) :
  Client.attempts (fst (Client.analyzeEndpoint rt buildAnalysisPrompt payload opts w))
  <= Client.attempts w + default 3 (Client.opt_retries opts) + 1.
Proof.
  unfold Client.analyzeEndpoint.
  destruct (negb (Json.truthy payload) || _); cbn; [lia|].
  destruct (buildAnalysisPrompt payload); cbn; [|lia].
  apply pRetry_from_attempts_le.
Qed.

(** C4, as stated, fails.  Against an SDK that rejects every call,
    [analyzeEndpoint] with the default options invokes the model four
    times, not three, before it propagates the error, in every release of
    the retry package. *)
Lemma default_policy_makes_four_attempts :
  Client.genaiClient Examples.always_failing = Some Examples.failing_sdk /\
  forall rt : Client.runtime,
    let out := Client.analyzeEndpoint rt Examples.prompt_of Examples.payload
                 Client.no_options Examples.always_failing in
    snd out = Throws Examples.unavailable /\
    Client.attempts (fst out) = 4 /\
    Client.sdk_calls (fst out) = 4 /\
    ~ Client.attempts (fst out) <= 3.
Proof.
  split; [reflexivity|]. intros rt.
  exact (always_failing_trace rt).
Qed.

(* ===================================================================== *)

(* ===================================================================== *)
(** * The deletion of [json] in the adapter *)
(* ===================================================================== *)

Section JsonWord.
Import Adapter.

Lemma match_at_json (i : nat) (s : string) :
  match_at json_word_re i s =
  if starts_with_json s
  then Some (MatchResult i (i + 4) [Some (take 4 s)])
  else None.
Proof.
  unfold match_at, starts_with_json, same_letter.
  destruct s as [|c1 [|c2 [|c3 [|c4 s]]]]; cbn;
    repeat (match goal with
            | |- context [Ascii.eqb ?a ?b] => destruct (Ascii.eqb a b); cbn
            end); try reflexivity.
  replace (S (S (S (S i))) - i) with 4 by lia.
  replace (S (S (S (S i)))) with (i + 4) by lia.
  reflexivity.
Qed.

Lemma search_from_json (s : string) :
  forall i : nat,
    search_from json_word_re i s =
    match find_json s with
    | Some k => Some (MatchResult (i + k) (i + k + 4) [Some (take 4 (drop k s))])
    | None => None
    end.
Proof.
  induction s as [|c s IH]; intros i.
  - reflexivity.
  - cbn [search_from find_json]. rewrite match_at_json.
    destruct (starts_with_json (String c s)).
    + rewrite Nat.add_0_r. reflexivity.
    + rewrite IH. destruct (find_json s) as [k|]; [|reflexivity].
      change (S <$> Some k) with (Some (S k)). cbv iota beta.
      change (drop (S k) (String c s)) with (drop k s).
      replace (S i + k) with (i + S k) by lia. reflexivity.
Qed.

Lemma delete_json_skip_drop (s : string) :
  forall skip : nat, delete_json_skip skip s = delete_json (drop skip s).
Proof.
  induction s as [|c s IH]; intros [|k]; try reflexivity.
  cbn [delete_json_skip drop]. apply IH.
Qed.

Lemma delete_json_cons (c : ascii) (s : string) :
  delete_json (String c s) =
  if starts_with_json (String c s) then delete_json (drop 3 s)
  else String c (delete_json s).
Proof.
  unfold delete_json at 1. cbn [delete_json_skip].
  rewrite delete_json_skip_drop. reflexivity.
Qed.

Lemma delete_json_find (s : string) :
  delete_json s =
  match find_json s with
  | Some k => take k s +:+ delete_json (drop (k + 4) s)
  | None => s
  end.
Proof.
  induction s as [|c s IH]; [reflexivity|].
  rewrite delete_json_cons. cbn [find_json].
  destruct (starts_with_json (String c s)); [reflexivity|].
  rewrite IH. destruct (find_json s) as [k|]; reflexivity.
Qed.

Lemma drop_length (n : nat) (s : string) :
  String.length (drop n s) = String.length s - n.
Proof.
  revert s. induction n as [|n IH]; intros [|c s]; cbn; try reflexivity. apply IH.
Qed.

(** The global replacement by the matcher deletes what [delete_json]
    deletes. *)
Lemma replace_loop_json (fuel : nat) :
  forall (pos : nat) (s : string),
    String.length s < fuel ->
    replace_loop fuel json_word_re [] pos s 0 = delete_json s.
Proof.
  induction fuel as [|fuel IH]; intros pos s Hlen; [lia|].
  cbn [replace_loop]. 
  replace (String.length s <? 0) with false by (symmetry; apply Nat.ltb_ge; lia).
  change (drop 0 s) with s.
  rewrite search_from_json, delete_json_find.
  destruct (find_json s) as [k|] eqn:Hk; [|reflexivity].
  cbn [m_index m_end expand fold_right].
  replace (pos + 0 + k - pos) with k by lia.
  replace (pos + 0 + k + 4 - pos) with (k + 4) by lia.
  replace (pos + 0 + k + 4 =? pos + 0 + k) with false
    by (symmetry; apply Nat.eqb_neq; lia).
  f_equal. cbn [String.append]. apply IH.
  rewrite drop_length. 
  assert (String.length s <> 0).
  { destruct s; [discriminate|]. cbn. lia. }
  lia.
Qed.

Lemma replace_json_word (s : string) :
  replace s json_word_re [] = delete_json s.
Proof.
  unfold replace. cbn [re_global json_word_re].
  apply replace_loop_json. lia.
Qed.

Lemma append_cons (c : ascii) (s t : string) :
  String c s +:+ t = String c (s +:+ t).
Proof. reflexivity. Qed.

Lemma append_empty (t : string) : EmptyString +:+ t = t.
Proof. reflexivity. Qed.

Lemma same_letter_j (ch : ascii) :
  same_letter "j" ch = true ->
  same_letter "s" ch = false /\ same_letter "o" ch = false /\ same_letter "n" ch = false.
Proof.
  unfold same_letter. intros H. apply Ascii.eqb_eq in H. rewrite <- H.
  repeat split; reflexivity.
Qed.

Lemma is_json_word_inv (w : string) :
  is_json_word w = true ->
  exists c1 c2 c3 c4,
    w = String c1 (String c2 (String c3 (String c4 EmptyString))) /\
    same_letter "j" c1 = true.
Proof.
  unfold is_json_word, starts_with_json.
  destruct w as [|c1 [|c2 [|c3 [|c4 [|c5 w]]]]]; try discriminate.
  - intros H. exists c1, c2, c3, c4. split; [reflexivity|].
    destruct (same_letter "j" c1); [reflexivity | discriminate].
  - cbn. rewrite andb_false_r. discriminate.
Qed.

(** No occurrence straddles the start of a [json] word: the four letters
    are pairwise different. *)
Lemma starts_with_json_before_word (s1 w s2 : string) :
  s1 <> EmptyString ->
  is_json_word w = true ->
  starts_with_json (s1 +:+ w +:+ s2) = starts_with_json s1.
Proof.
  intros Hne Hw.
  destruct (is_json_word_inv w Hw) as (w1 & w2 & w3 & w4 & -> & Hj).
  destruct (same_letter_j w1 Hj) as (Hs & Ho & Hn).
  destruct s1 as [|c1 [|c2 [|c3 [|c4 s1]]]]; [congruence| | | |];
    rewrite ?append_cons, ?append_empty; cbn [starts_with_json];
    rewrite ?Hs, ?Ho, ?Hn, ?andb_false_r; reflexivity.
Qed.

Lemma starts_with_json_length (s : string) :
  starts_with_json s = true -> 4 <= String.length s.
Proof.
  destruct s as [|c1 [|c2 [|c3 [|c4 s]]]]; try discriminate. cbn. lia.
Qed.

Lemma drop_app (n : nat) (s t : string) :
  n <= String.length s -> drop n (s +:+ t) = drop n s +:+ t.
Proof.
  revert s. induction n as [|n IH]; intros [|c s] H; cbn in *; try reflexivity; try lia.
  apply IH. lia.
Qed.

(** Every occurrence goes, wherever it stands: deleting from a text with
    the word in it is deleting from the text before and the text after. *)
Lemma delete_json_around_word (w s2 : string) :
  is_json_word w = true ->
  forall (n : nat) (s1 : string),
    String.length s1 <= n ->
    delete_json (s1 +:+ w +:+ s2) = delete_json s1 +:+ delete_json s2.
Proof.
  intros Hw. induction n as [|n IH]; intros s1 Hlen.
  - destruct s1; [|cbn in Hlen; lia].
    destruct (is_json_word_inv w Hw) as (w1 & w2 & w3 & w4 & -> & Hj).
    change (EmptyString +:+ ?x) with x.
    change (String w1 (String w2 (String w3 (String w4 EmptyString))) +:+ s2)
      with (String w1 (String w2 (String w3 (String w4 s2)))).
    rewrite delete_json_cons.
    replace (starts_with_json (String w1 (String w2 (String w3 (String w4 s2)))))
      with true; [reflexivity|].
    unfold is_json_word in Hw. apply andb_true_iff in Hw as [Hw _].
    symmetry. exact Hw.
  - destruct s1 as [|c s1]; [apply (IH EmptyString); cbn; lia|].
    change (String c s1 +:+ w +:+ s2) with (String c (s1 +:+ w +:+ s2)).
    rewrite !delete_json_cons.
    change (String c (s1 +:+ w +:+ s2)) with (String c s1 +:+ w +:+ s2).
    rewrite starts_with_json_before_word by (assumption || discriminate).
    cbn in Hlen.
    destruct (starts_with_json (String c s1)) eqn:Hs.
    + apply starts_with_json_length in Hs. cbn in Hs.
      rewrite drop_app by lia. apply IH. rewrite drop_length. lia.
    + rewrite append_cons. f_equal. apply IH. lia.
Qed.

End JsonWord.

(* ===================================================================== *)
(** * The clean-up: texts without backticks, and the deletion around a character *)
(* ===================================================================== *)

Section CleanupFacts.
Import Adapter.

Ltac each_ascii c := destruct c as [[] [] [] [] [] [] [] []].

Lemma all_chars_app (p : ascii -> bool) (s t : string) :
  all_chars p (s +:+ t) = all_chars p s && all_chars p t.
Proof.
  induction s as [|c s IH]; [reflexivity|].
  rewrite append_cons. cbn [all_chars]. rewrite IH, andb_assoc. reflexivity.
Qed.

Lemma search_fence_none (s : string) :
  all_chars no_backtick s = true ->
  forall i, search_from fence_re i s = None.
Proof.
  induction s as [|c s IH]; intros H i.
  - reflexivity.
  - cbn [all_chars] in H. apply andb_true_iff in H as [Hc Hs].
    unfold no_backtick in Hc. apply andb_true_iff in Hc as [Hc _].
    apply negb_true_iff in Hc.
    cbn [search_from]. rewrite (IH Hs).
    unfold match_at. cbn -[Ascii.eqb]. rewrite Hc. reflexivity.
Qed.

Lemma search_backticks_none (s : string) :
  all_chars no_backtick s = true ->
  forall i, search_from backticks_re i s = None.
Proof.
  induction s as [|c s IH]; intros H i.
  - reflexivity.
  - cbn [all_chars] in H. apply andb_true_iff in H as [Hc Hs].
    unfold no_backtick in Hc. apply andb_true_iff in Hc as [_ Hc].
    apply negb_true_iff in Hc.
    cbn [search_from]. rewrite (IH Hs).
    unfold match_at. cbn -[Ascii.eqb]. rewrite Hc. reflexivity.
Qed.

Lemma replace_backticks_none (s : string) :
  all_chars no_backtick s = true -> replace s backticks_re [] = s.
Proof.
  intros H. unfold replace. cbn [re_global backticks_re replace_loop].
  replace (String.length s <? 0) with false by (symmetry; apply Nat.ltb_ge; lia).
  change (drop 0 s) with s. rewrite (search_backticks_none s H). reflexivity.
Qed.

Lemma fence_interior_none (s : string) :
  all_chars no_backtick s = true -> fence_interior s = None.
Proof.
  intros H. unfold fence_interior, str_match.
  rewrite (search_fence_none s H). reflexivity.
Qed.

Lemma append_assoc (a b c : string) : (a +:+ b) +:+ c = a +:+ (b +:+ c).
Proof.
  induction a as [|x a IH]; [reflexivity|].
  rewrite !append_cons, IH. reflexivity.
Qed.

Lemma append_length (a b : string) :
  String.length (a +:+ b) = String.length a + String.length b.
Proof.
  induction a as [|x a IH]; [reflexivity|].
  rewrite append_cons. cbn [String.length]. rewrite IH. reflexivity.
Qed.

Lemma take_app_exact (p t : string) : take (String.length p) (p +:+ t) = p.
Proof.
  induction p as [|c p IH]; [destruct t; reflexivity|].
  rewrite append_cons. cbn [String.length take]. rewrite IH. reflexivity.
Qed.

Lemma drop_app_exact (p t : string) : drop (String.length p) (p +:+ t) = t.
Proof.
  induction p as [|c p IH]; [destruct t; reflexivity|].
  rewrite append_cons. cbn [String.length drop]. apply IH.
Qed.

Lemma rev_acc_app (a b acc : string) :
  rev_acc (a +:+ b) acc = rev_acc b (rev_acc a acc).
Proof.
  revert acc. induction a as [|x a IH]; intros acc; [reflexivity|].
  rewrite append_cons. cbn [rev_acc]. apply IH.
Qed.

Lemma rev_acc_rev_acc (m a b : string) :
  rev_acc (rev_acc m a) b = rev_acc a (m +:+ b).
Proof.
  revert a. induction m as [|x m IH]; intros a; [reflexivity|].
  cbn [rev_acc]. rewrite IH. reflexivity.
Qed.

(** [trim] leaves a text alone that begins and ends with a character other
    than white space. *)
Lemma trim_braced (m : string) :
  trim (String "{" (m +:+ "}")) = String "{" (m +:+ "}").
Proof.
  unfold trim, rev.
  change (trimStart (String "{" (m +:+ "}"))) with (String "{" (m +:+ "}")).
  cbn [rev_acc]. rewrite rev_acc_app. cbn [rev_acc].
  change (trimStart (String "}" ?x)) with (String "}" x).
  cbn [rev_acc]. rewrite rev_acc_rev_acc. reflexivity.
Qed.

Lemma starts_with_json_before_other (s1 s2 : string) (q : ascii) :
  no_json_letter q = true ->
  starts_with_json (s1 +:+ String q s2) = starts_with_json s1.
Proof.
  unfold no_json_letter. intros H.
  apply andb_true_iff in H as [H Hn]. apply andb_true_iff in H as [H Ho].
  apply andb_true_iff in H as [Hj Hs].
  apply negb_true_iff in Hj, Hs, Ho, Hn.
  destruct s1 as [|c1 [|c2 [|c3 [|c4 s1]]]];
    rewrite ?append_cons, ?append_empty; cbn [starts_with_json];
    rewrite ?Hj, ?Hs, ?Ho, ?Hn, ?andb_false_r; try reflexivity.
  all: destruct s2 as [|? [|? [|? ?]]]; reflexivity.
Qed.

Lemma delete_json_around_other (q : ascii) (s2 : string) :
  no_json_letter q = true ->
  forall (n : nat) (s1 : string),
    String.length s1 <= n ->
    delete_json (s1 +:+ String q s2) = delete_json s1 +:+ String q (delete_json s2).
Proof.
  intros Hq. induction n as [|n IH]; intros s1 Hlen.
  - destruct s1; [|cbn in Hlen; lia].
    rewrite append_empty, delete_json_cons.
    rewrite <- (append_empty (String q s2)) at 1.
    rewrite (starts_with_json_before_other EmptyString s2 q Hq). reflexivity.
  - destruct s1 as [|c s1]; [apply (IH EmptyString); cbn; lia|].
    rewrite append_cons, !delete_json_cons, <- append_cons.
    rewrite (starts_with_json_before_other _ _ _ Hq).
    cbn in Hlen.
    destruct (starts_with_json (String c s1)) eqn:Hs.
    + apply starts_with_json_length in Hs. cbn in Hs.
      rewrite drop_app by lia. apply IH. rewrite drop_length. lia.
    + rewrite append_cons. f_equal. apply IH. lia.
Qed.

Lemma delete_json_not_j (c : ascii) (s : string) :
  same_letter "j" c = false ->
  delete_json (String c s) = String c (delete_json s).
Proof.
  intros H. rewrite delete_json_cons.
  replace (starts_with_json (String c s)) with false; [reflexivity|].
  destruct s as [|? [|? [|? ?]]]; cbn [starts_with_json]; rewrite ?H; reflexivity.
Qed.

Lemma delete_json_skip_length_le (s : string) :
  forall skip, String.length (delete_json_skip skip s) <= String.length s.
Proof.
  induction s as [|c s IH]; intros skip; [reflexivity|].
  cbn [delete_json_skip String.length]. destruct skip.
  - destruct (starts_with_json (String c s)).
    + specialize (IH 3). lia.
    + cbn [String.length]. specialize (IH 0). lia.
  - specialize (IH skip). lia.
Qed.

Lemma find_json_bound (s : string) (k : nat) :
  find_json s = Some k -> k + 4 <= String.length s.
Proof.
  revert k. induction s as [|c s IH]; intros k; [discriminate|].
  cbn [find_json]. destruct (starts_with_json (String c s)) eqn:Hs.
  - intros [= <-]. apply starts_with_json_length in Hs. lia.
  - destruct (find_json s) as [k'|]; [|discriminate].
    intros [= <-]. specialize (IH k' eq_refl). cbn [String.length]. lia.
Qed.

(** A text that contains the word is longer than what the deletion leaves. *)
Lemma delete_json_shorter (v : string) :
  contains_json v = true -> String.length (delete_json v) < String.length v.
Proof.
  unfold contains_json. rewrite delete_json_find.
  destruct (find_json v) as [k|] eqn:Hk; [intros _|discriminate].
  apply find_json_bound in Hk.
  rewrite append_length.
  pose proof (take_length_le k v).
  pose proof (delete_json_skip_length_le (drop (k + 4) v) 0) as Hd.
  fold (delete_json (drop (k + 4) v)) in Hd. rewrite drop_length in Hd. lia.
Qed.

End CleanupFacts.

(* ===================================================================== *)
(** * The matcher moves forward: the scanning loops end *)
(* ===================================================================== *)

Section Forward.

Lemma forward_here {R} (i : nat) (s : string) (c : caps)
    (k : nat -> string -> caps -> option R) (x : R) :
  k i s c = Some x -> forward i s k x.
Proof. intros H. exists i, s, c. repeat split; [exact H | lia | lia]. Qed.

Lemma forward_step {R} (i : nat) (ch : ascii) (s : string)
    (k : nat -> string -> caps -> option R) (x : R) :
  forward (S i) s k x -> forward i (String ch s) k x.
Proof.
  intros (i' & s' & c' & Hk & Hl & Hi). exists i', s', c'.
  cbn [String.length]. repeat split; [exact Hk | lia | lia].
Qed.

Lemma forward_trans {R} (i : nat) (s : string)
    (k1 k2 : nat -> string -> caps -> option R) (x : R) :
  forward i s k1 x ->
  (forall i' s' c', k1 i' s' c' = Some x -> forward i' s' k2 x) ->
  forward i s k2 x.
Proof.
  intros (i1 & s1 & c1 & Hk & Hl & Hi) H.
  destruct (H _ _ _ Hk) as (i2 & s2 & c2 & Hk2 & Hl2 & Hi2).
  exists i2, s2, c2. repeat split; [exact Hk2 | lia | lia].
Qed.

Lemma orElse_some {R} (a : option R) (b : unit -> option R) (x : R) :
  orElse a b = Some x -> a = Some x \/ b tt = Some x.
Proof. destruct a; cbn; auto. Qed.

Lemma rmatch_forward {R} (ic : bool) (r : regex) :
  forall (i : nat) (s : string) (c : caps)
         (k : nat -> string -> caps -> option R) (x : R),
    rmatch ic r i s c k = Some x -> forward i s k x.
Proof.
  induction r as [| a | | neg items | | | r1 IH1 r2 IH2 | r1 IH1 r2 IH2
                 | g r1 IH1 | g r1 IH1 | n r1 IH1];
    intros i s c k x H; cbn [rmatch] in H.
  - apply (forward_here _ _ _ _ _ H).
  - destruct s as [|ch s]; [discriminate|].
    destruct (Ascii.eqb _ _); [|discriminate].
    apply forward_step, (forward_here _ _ _ _ _ H).
  - destruct s as [|ch s]; [discriminate|].
    destruct (is_line_terminator ch); [discriminate|].
    apply forward_step, (forward_here _ _ _ _ _ H).
  - destruct s as [|ch s]; [discriminate|].
    destruct (set_matches _ _ _ _); [|discriminate].
    apply forward_step, (forward_here _ _ _ _ _ H).
  - destruct (i =? 0); [|discriminate]. apply (forward_here _ _ _ _ _ H).
  - destruct s; [|discriminate]. apply (forward_here _ _ _ _ _ H).
  - apply IH1 in H. apply (forward_trans _ _ _ _ _ H).
    intros i' s' c' H'. apply (IH2 _ _ _ _ _ H').
  - apply orElse_some in H as [H|H]; [apply (IH1 _ _ _ _ _ H) | apply (IH2 _ _ _ _ _ H)].
  - remember (String.length s) as fuel eqn:E. clear E.
    revert i s c H. induction fuel as [|fuel IHf]; intros i s c H.
    + destruct g; apply orElse_some in H as [H|H];
        try discriminate; apply (forward_here _ _ _ _ _ H).
    + assert (Hit :
        rmatch ic r1 i s (clear_groups r1 c)
          (fun i' s' c' =>
             if i' =? i then None
             else (fix loop (fuel : nat) (i : nat) (s : string) (c : caps)
                     {struct fuel} : option R :=
                     let iterate (_ : unit) :=
                       match fuel with
                       | 0 => None
                       | S fuel' =>
                           rmatch ic r1 i s (clear_groups r1 c)
                             (fun i' s' c' =>
                                if i' =? i then None else loop fuel' i' s' c')
                       end in
                     if g then orElse (iterate tt) (fun _ => k i s c)
                     else orElse (k i s c) iterate) fuel i' s' c') = Some x ->
        forward i s k x).
      { intros Hit. apply IH1 in Hit. apply (forward_trans _ _ _ _ _ Hit).
        intros i' s' c' H'. destruct (i' =? i); [discriminate|].
        apply (IHf _ _ _ H'). }
      destruct g; apply orElse_some in H as [H|H];
        first [apply (Hit H) | apply (forward_here _ _ _ _ _ H)].
  - destruct g; apply orElse_some in H as [H|H];
      try apply (forward_here _ _ _ _ _ H);
      apply IH1 in H; apply (forward_trans _ _ _ _ _ H);
      intros i' s' c' H'; destruct (i' =? i); try discriminate;
      apply (forward_here _ _ _ _ _ H').
  - apply IH1 in H. apply (forward_trans _ _ _ _ _ H).
    intros i' s' c' H'. apply (forward_here _ _ _ _ _ H').
Qed.

(** A match that starts with a literal character is not empty. *)
Lemma rmatch_literal_first {R} (ic : bool) (a : ascii) (r1 r2 : regex)
    (i : nat) (s : string) (c : caps)
    (k : nat -> string -> caps -> option R) (x : R) :
  rmatch ic (RSeq (RSeq (RChar a) r1) r2) i s c k = Some x ->
  exists i' s' c',
    k i' s' c' = Some x /\ i < i' /\ i' <= i + String.length s.
Proof.
  intros H. cbn [rmatch] in H.
  destruct s as [|ch s]; [discriminate|].
  destruct (Ascii.eqb _ _); [|discriminate].
  apply rmatch_forward in H. apply (forward_trans _ _ _ k) in H.
  - destruct H as (i' & s' & c' & Hk & Hl & Hi). exists i', s', c'.
    cbn [String.length]. repeat split; [exact Hk | lia | lia].
  - intros i' s' c' H'. apply (rmatch_forward _ _ _ _ _ _ _ H').
Qed.

(** What the loops over [exec] need of a regexp: a match is not empty and
    lies within the input. *)
Lemma consuming_search (re : regexp) :
  consuming re ->
  forall (s : string) (i : nat) (m : match_result),
    search_from re i s = Some m ->
    i < m_end m /\ m_end m <= i + String.length s.
Proof.
  intros Hre s. induction s as [|ch s IH]; intros i m H; cbn [search_from] in H.
  - destruct (match_at re i EmptyString) eqn:E; [|discriminate].
    injection H as <-. destruct (Hre _ _ _ E). lia.
  - destruct (match_at re i (String ch s)) eqn:E.
    + injection H as <-. destruct (Hre _ _ _ E). lia.
    + apply IH in H. cbn [String.length]. lia.
Qed.

Lemma consuming_exec (re : regexp) :
  consuming re ->
  forall (s : string) (lastIndex lastIndex' : nat) (m : match_result),
    exec re s lastIndex = (Some m, lastIndex') ->
    re_global re = true ->
    lastIndex < lastIndex' /\ lastIndex' <= String.length s.
Proof.
  intros Hre s lastIndex lastIndex' m H Hg. unfold exec in H. rewrite Hg in H.
  destruct (String.length s <? lastIndex) eqn:El; [discriminate|].
  apply Nat.ltb_ge in El.
  destruct (search_from re lastIndex (drop lastIndex s)) as [m'|] eqn:E;
    [|discriminate].
  injection H as <- <-.
  apply (consuming_search re Hre) in E. rewrite drop_length in E. lia.
Qed.

Lemma routeRegex_consuming : consuming RouteReflector.routeRegex.
Proof.
  intros i s m H. unfold match_at in H.
  apply rmatch_literal_first in H as (i' & s' & c' & [= <-] & Hlt & Hle).
  cbn [m_index m_end]. lia.
Qed.

Lemma routePattern_consuming : consuming RouteReflectorModule.routePattern.
Proof.
  intros i s m H. unfold match_at in H.
  apply rmatch_literal_first in H as (i' & s' & c' & [= <-] & Hlt & Hle).
  cbn [m_index m_end]. lia.
Qed.

(** The loop of [scanRoutesFile] ends: [scan_code] always has a result. *)
Lemma exec_loop_total (code controllerFile : string) (fuel : nat) :
  forall (lastIndex : nat) (endpoints : list RouteReflector.endpoint),
    lastIndex <= String.length code ->
    String.length code < lastIndex + fuel ->
    is_Some (RouteReflector.exec_loop fuel code controllerFile lastIndex endpoints).
Proof.
  induction fuel as [|fuel IH]; intros lastIndex endpoints Hl Hf; [lia|].
  cbn [RouteReflector.exec_loop].
  destruct (exec RouteReflector.routeRegex code lastIndex) as [[m|] lastIndex'] eqn:E;
    [|eauto].
  apply (consuming_exec _ routeRegex_consuming) in E; [|reflexivity].
  apply IH; lia.
Qed.

Lemma scan_code_total (code controllerFile : string) :
  is_Some (RouteReflector.scan_code code controllerFile).
Proof. apply exec_loop_total; lia. Qed.

Lemma module_exec_loop_total (code file : string) (fuel : nat) :
  forall (lastIndex : nat) (endpoints : list RouteReflectorModule.endpoint),
    lastIndex <= String.length code ->
    String.length code < lastIndex + fuel ->
    is_Some (RouteReflectorModule.exec_loop fuel code file lastIndex endpoints).
Proof.
  induction fuel as [|fuel IH]; intros lastIndex endpoints Hl Hf; [lia|].
  cbn [RouteReflectorModule.exec_loop].
  destruct (exec RouteReflectorModule.routePattern code lastIndex)
    as [[m|] lastIndex'] eqn:E; [|eauto].
  apply (consuming_exec _ routePattern_consuming) in E; [|reflexivity].
  apply IH; lia.
Qed.

Lemma module_scan_code_total (code file : string) :
  is_Some (RouteReflectorModule.scan_code code file).
Proof. apply module_exec_loop_total; lia. Qed.

(** The scan of a file that exists returns a list: the guarded scanner
    does not raise on any file. *)
Lemma scanRoutesFile_returns (w : Fs.world) (filePath code : string) :
  Fs.files w !! filePath = Some (Fs.File code) ->
  exists endpoints,
    RouteReflector.scanRoutesFile filePath w = (w, Returns endpoints).
Proof.
  intros H. unfold RouteReflector.scanRoutesFile, bind.
  rewrite (existsSync_present _ _ _ H). cbn [negb].
  rewrite (readFileSync_file _ _ _ H).
  destruct (scan_code_total code (RouteReflector.controller_of filePath)) as [l ->].
  exists l. reflexivity.
Qed.

(** A match found by the search starts at or after the index the search
    starts from and ends within the input. *)
Lemma search_from_bounds (re : regexp) (s : string) :
  forall (i : nat) (m : match_result),
    search_from re i s = Some m ->
    i <= m_index m /\ m_index m <= m_end m /\ m_end m <= i + String.length s.
Proof.
  induction s as [|ch s IH]; intros i m H; cbn [search_from] in H.
  - destruct (match_at re i EmptyString) eqn:E; [|discriminate].
    injection H as <-. unfold match_at in E.
    apply rmatch_forward in E as (i' & s' & c' & [= <-] & Hl & Hi).
    cbn [m_index m_end]. lia.
  - destruct (match_at re i (String ch s)) eqn:E.
    + injection H as <-. unfold match_at in E.
      apply rmatch_forward in E as (i' & s' & c' & [= <-] & Hl & Hi).
      cbn [m_index m_end]. lia.
    + apply IH in H. cbn [String.length]. lia.
Qed.

(** The fuel of [replace] is enough: more of it changes nothing. *)
Lemma replace_loop_fuel (re : regexp) (template : list ritem) (fuel : nat) :
  forall (pos : nat) (s : string) (skip extra : nat),
    String.length s + 1 <= fuel + skip ->
    replace_loop (fuel + extra) re template pos s skip =
    replace_loop fuel re template pos s skip.
Proof.
  induction fuel as [|fuel IH]; intros pos s skip extra Hf.
  - destruct extra as [|extra]; [reflexivity|]. cbn [Nat.add replace_loop].
    replace (String.length s <? skip) with true
      by (symmetry; apply Nat.ltb_lt; lia).
    reflexivity.
  - cbn [Nat.add replace_loop].
    destruct (String.length s <? skip) eqn:El; [reflexivity|].
    apply Nat.ltb_ge in El.
    destruct (search_from re (pos + skip) (drop skip s)) as [m|] eqn:E;
      [|reflexivity].
    apply search_from_bounds in E. rewrite drop_length in E.
    do 2 f_equal. apply IH. rewrite drop_length.
    destruct (m_end m =? m_index m) eqn:Ee.
    + apply Nat.eqb_eq in Ee. lia.
    + apply Nat.eqb_neq in Ee. lia.
Qed.

End Forward.

(* ===================================================================== *)
(** * The fuel of [JSON.parse] is enough *)
(* ===================================================================== *)

Section JsonFuel.

Lemma skip_ws_length (s : string) : String.length (skip_ws s) <= String.length s.
Proof.
  induction s as [|c s IH]; [reflexivity|].
  cbn [skip_ws]. destruct (is_json_ws c); cbn [String.length]; lia.
Qed.

Lemma expect_length (c : ascii) (s r : string) :
  expect c s = Some r -> String.length s = S (String.length r).
Proof.
  destruct s as [|d s]; [discriminate|]. cbn [expect].
  destruct (Ascii.eqb c d); [|discriminate]. intros [= <-]. reflexivity.
Qed.

Lemma take_length (n : nat) (s : string) :
  String.length (take n s) = Nat.min n (String.length s).
Proof.
  revert s. induction n as [|n IH]; intros [|c s]; cbn; try reflexivity.
  rewrite IH. reflexivity.
Qed.

Lemma expect_word_length (w s r : string) :
  expect_word w s = Some r ->
  String.length s = String.length w + String.length r.
Proof.
  unfold expect_word.
  destruct (String.eqb (take (String.length w) s) w) eqn:E; [|discriminate].
  intros [= <-]. apply String.eqb_eq in E.
  pose proof (take_length (String.length w) s) as Ht. rewrite E in Ht.
  rewrite drop_length. lia.
Qed.

Lemma parse_string_body_length (n : nat) :
  forall s t r,
    String.length s <= n ->
    parse_string_body s = Some (t, r) -> String.length r < String.length s.
Proof.
  induction n as [|n IH]; intros s t r Hn H.
  - destruct s; [discriminate | cbn in Hn; lia].
  - destruct s as [|c s1]; [discriminate|].
    cbn [parse_string_body] in H. cbn [String.length] in *.
    destruct (Ascii.eqb c dquote).
    { injection H as <- <-. lia. }
    destruct (Ascii.eqb c "092").
    + destruct s1 as [|e s2]; [discriminate|]. cbn [String.length] in *.
      destruct (Ascii.eqb e "u").
      * destruct s2 as [|h1 [|h2 [|h3 [|h4 s6]]]]; try discriminate.
        destruct (hex_value h1), (hex_value h2), (hex_value h3), (hex_value h4);
          try discriminate.
        destruct (parse_string_body s6) as [[t' r']|] eqn:E; [|discriminate].
        injection H as <- <-. apply IH in E; cbn [String.length] in *; lia.
      * destruct (simple_escape e); [|discriminate].
        destruct (parse_string_body s2) as [[t' r']|] eqn:E; [|discriminate].
        injection H as <- <-. apply IH in E; lia.
    + destruct (code c <? 32); [discriminate|].
      destruct (parse_string_body s1) as [[t' r']|] eqn:E; [|discriminate].
      injection H as <- <-. apply IH in E; lia.
Qed.

Lemma span_digits_length (s : string) :
  String.length (snd (span_digits s)) <= String.length s.
Proof.
  induction s as [|c s IH]; [reflexivity|].
  cbn [span_digits]. destruct (is_digit c); [|reflexivity].
  destruct (span_digits s) as [d r]. cbn [snd String.length] in *. lia.
Qed.

Lemma parse_number_length (s lx r : string) :
  parse_number s = Some (lx, r) -> String.length r < String.length s.
Proof.
  unfold parse_number.
  assert (Hsign : forall s1,
            (exists sg, (match expect "-"%char s with
                         | Some t => ("-", t)
                         | None => (EmptyString, s)
                         end) = (sg, s1)) ->
            String.length s1 <= String.length s).
  { intros s1 [sg E]. destruct (expect "-"%char s) as [t|] eqn:Ee.
    - apply expect_length in Ee. injection E as _ <-. lia.
    - injection E as _ <-. lia. }
  destruct (match expect "-"%char s with Some t => _ | None => _ end) as [sg s1] eqn:E.
  specialize (Hsign s1 (ex_intro _ sg eq_refl)).
  intros H.
  destruct (parse_int_part s1) as [[i s2]|] eqn:Ei; [|discriminate].
  cbn [mbind option_bind] in H.
  destruct (parse_frac_part s2) as [[f s3]|] eqn:Ef; [|discriminate].
  cbn [mbind option_bind] in H.
  destruct (parse_exp_part s3) as [[e s4]|] eqn:Ex; [|discriminate].
  cbn [mbind option_bind] in H. injection H as _ <-.
  assert (H2 : String.length s2 < String.length s1).
  { unfold parse_int_part in Ei. destruct s1 as [|c s']; [discriminate|].
    cbn [String.length].
    destruct (Ascii.eqb c "0"); [injection Ei as _ <-; lia|].
    destruct (is_digit c); [|discriminate].
    pose proof (span_digits_length s') as Hd.
    destruct (span_digits s') as [d r']. injection Ei as _ <-. cbn [snd] in Hd. lia. }
  assert (H3 : String.length s3 <= String.length s2).
  { unfold parse_frac_part in Ef. destruct (expect "."%char s2) as [s'|] eqn:Ee.
    - apply expect_length in Ee. pose proof (span_digits_length s') as Hd.
      destruct (span_digits s') as [[|d0 d] r']; [discriminate|].
      injection Ef as _ <-. cbn [snd] in Hd. lia.
    - injection Ef as _ <-. lia. }
  assert (H4 : String.length s4 <= String.length s3).
  { unfold parse_exp_part in Ex. destruct s3 as [|c s']; [injection Ex as _ <-; lia|].
    cbn [String.length].
    destruct (Ascii.eqb c "e" || Ascii.eqb c "E"); [|injection Ex as _ <-; cbn; lia].
    assert (Hs : forall sg' s'',
              (match expect "+"%char s', expect "-"%char s' with
               | Some t, _ => ("+", t)
               | None, Some t => ("-", t)
               | None, None => (EmptyString, s')
               end) = (sg', s'') -> String.length s'' <= String.length s').
    { intros sg' s'' E'.
      destruct (expect "+"%char s') as [t|] eqn:E1.
      - apply expect_length in E1. injection E' as _ <-. lia.
      - destruct (expect "-"%char s') as [t|] eqn:E2.
        + apply expect_length in E2. injection E' as _ <-. lia.
        + injection E' as _ <-. lia. }
    destruct (match expect "+"%char s', expect "-"%char s' with
              | Some t, _ => _ | None, Some t => _ | None, None => _ end)
      as [sg' s''] eqn:E'.
    specialize (Hs _ _ eq_refl).
    pose proof (span_digits_length s'') as Hd.
    destruct (span_digits s'') as [[|d0 d] r']; [discriminate|].
    injection Ex as _ <-. cbn [snd] in Hd. lia. }
  lia.
Qed.

Lemma next_separator_length (close : ascii) (s r : string) :
  next_separator close s = Comma r \/ next_separator close s = Close r ->
  String.length r < String.length s.
Proof.
  unfold next_separator. pose proof (skip_ws_length s) as Hs.
  destruct (skip_ws s) as [|c r0]; [intros [H|H]; discriminate|].
  cbn [String.length] in Hs.
  destruct (Ascii.eqb c ","); [|destruct (Ascii.eqb c close)];
    intros [H|H]; try discriminate; injection H as <-; lia.
Qed.

Lemma parse_value_enough (f : nat) :
  enough_for_elements f -> enough_for_members f -> enough_for_value (S f).
Proof.
  intros IHE IHM s v r H. cbn [parse_value] in H.
  pose proof (skip_ws_length s) as Hs.
  destruct (skip_ws s) as [|c r0] eqn:Es; [discriminate|].
  cbn [String.length] in Hs.
  assert (Hunfold : forall f' (P : Prop), (0 < f' -> P) ->
            2 * (String.length s - String.length r) <= S f' ->
            String.length r < String.length s -> P).
  { intros f' P HP Hf Hl. apply HP. lia. }
  destruct (Ascii.eqb c "{") eqn:E1.
  { pose proof (skip_ws_length r0) as Hr0.
    destruct (expect "}"%char (skip_ws r0)) as [r'|] eqn:Ee.
    - injection H as <- <-. apply expect_length in Ee as Hl.
      split; [lia|]. intros [|f'] Hf; [lia|].
      cbn [parse_value]. rewrite Es, E1, Ee. reflexivity.
    - apply IHM in H as [Hl Hf]. split; [lia|].
      intros [|f'] Hf'; [lia|].
      cbn [parse_value]. rewrite Es, E1, Ee. apply Hf. lia. }
  destruct (Ascii.eqb c "[") eqn:E2.
  { pose proof (skip_ws_length r0) as Hr0.
    destruct (expect "]"%char (skip_ws r0)) as [r'|] eqn:Ee.
    - injection H as <- <-. apply expect_length in Ee as Hl.
      split; [lia|]. intros [|f'] Hf; [lia|].
      cbn [parse_value]. rewrite Es, E1, E2, Ee. reflexivity.
    - apply IHE in H as [Hl Hf]. split; [lia|].
      intros [|f'] Hf'; [lia|].
      cbn [parse_value]. rewrite Es, E1, E2, Ee. apply Hf. lia. }
  assert (Hscalar : String.length r < S (String.length r0) ->
            String.length r < String.length s /\
            forall f', 2 * (String.length s - String.length r) <= S f' ->
                       parse_value f' s = Some (v, r)).
  { intros Hl. split; [lia|]. intros [|f'] Hf; [lia|].
    cbn [parse_value]. rewrite Es, E1, E2. exact H. }
  apply Hscalar. clear Hscalar.
  destruct (Ascii.eqb c dquote).
  { destruct (parse_string_body r0) as [[t r']|] eqn:Eb; [|discriminate].
    injection H as _ <-.
    apply (parse_string_body_length _ _ _ _ (le_n _)) in Eb. lia. }
  destruct (Ascii.eqb c "t").
  { destruct (expect_word "true" (String c r0)) as [r'|] eqn:Ew; [|discriminate].
    injection H as _ <-. apply expect_word_length in Ew. cbn [String.length] in Ew. lia. }
  destruct (Ascii.eqb c "f").
  { destruct (expect_word "false" (String c r0)) as [r'|] eqn:Ew; [|discriminate].
    injection H as _ <-. apply expect_word_length in Ew. cbn [String.length] in Ew. lia. }
  destruct (Ascii.eqb c "n").
  { destruct (expect_word "null" (String c r0)) as [r'|] eqn:Ew; [|discriminate].
    injection H as _ <-. apply expect_word_length in Ew. cbn [String.length] in Ew. lia. }
  destruct (parse_number (String c r0)) as [[lx r']|] eqn:En; [|discriminate].
  injection H as _ <-. apply parse_number_length in En. cbn [String.length] in En. lia.
Qed.

Lemma parse_elements_enough (f : nat) :
  enough_for_value f -> enough_for_elements f -> enough_for_elements (S f).
Proof.
  intros IHV IHE s acc v r H. cbn [parse_elements] in H.
  destruct (parse_value f s) as [[v0 r0]|] eqn:Ev; [|discriminate].
  cbn [mbind option_bind] in H.
  destruct (IHV _ _ _ Ev) as [Hl0 Hf0].
  destruct (next_separator "]" r0) as [r1|r1|] eqn:En; [| |discriminate].
  - pose proof (next_separator_length _ _ _ (or_introl En)) as Hl1.
    destruct (IHE _ _ _ _ H) as [Hl Hf]. split; [lia|].
    intros [|f'] Hf'; [lia|].
    cbn [parse_elements]. rewrite (Hf0 f') by lia. cbn [mbind option_bind].
    rewrite En. apply Hf. lia.
  - pose proof (next_separator_length _ _ _ (or_intror En)) as Hl1.
    injection H as <- <-. split; [lia|].
    intros [|f'] Hf'; [lia|].
    cbn [parse_elements]. rewrite (Hf0 f') by lia. cbn [mbind option_bind].
    rewrite En. reflexivity.
Qed.

Lemma parse_members_enough (f : nat) :
  enough_for_value f -> enough_for_members f -> enough_for_members (S f).
Proof.
  intros IHV IHM s acc v r H. cbn [parse_members] in H.
  pose proof (skip_ws_length s) as Hs.
  destruct (expect dquote (skip_ws s)) as [r0|] eqn:E0; [|discriminate].
  cbn [mbind option_bind] in H. apply expect_length in E0 as Hl0.
  destruct (parse_string_body r0) as [[key r1]|] eqn:Ek; [|discriminate].
  cbn [mbind option_bind] in H.
  apply (parse_string_body_length _ _ _ _ (le_n _)) in Ek as Hl1.
  pose proof (skip_ws_length r1) as Hs1.
  destruct (expect ":"%char (skip_ws r1)) as [r2|] eqn:E2; [|discriminate].
  cbn [mbind option_bind] in H. apply expect_length in E2 as Hl2.
  destruct (parse_value f r2) as [[v0 r3]|] eqn:Ev; [|discriminate].
  cbn [mbind option_bind] in H.
  destruct (IHV _ _ _ Ev) as [Hl3 Hf3].
  destruct (next_separator "}" r3) as [r4|r4|] eqn:En; [| |discriminate].
  - pose proof (next_separator_length _ _ _ (or_introl En)) as Hl4.
    destruct (IHM _ _ _ _ H) as [Hl Hf]. split; [lia|].
    intros [|f'] Hf'; [lia|].
    cbn [parse_members]. rewrite E0. cbn [mbind option_bind].
    rewrite Ek. cbn [mbind option_bind]. rewrite E2. cbn [mbind option_bind].
    rewrite (Hf3 f') by lia. cbn [mbind option_bind].
    rewrite En. apply Hf. lia.
  - pose proof (next_separator_length _ _ _ (or_intror En)) as Hl4.
    injection H as <- <-. split; [lia|].
    intros [|f'] Hf'; [lia|].
    cbn [parse_members]. rewrite E0. cbn [mbind option_bind].
    rewrite Ek. cbn [mbind option_bind]. rewrite E2. cbn [mbind option_bind].
    rewrite (Hf3 f') by lia. cbn [mbind option_bind].
    rewrite En. reflexivity.
Qed.

Lemma parse_enough (f : nat) :
  enough_for_value f /\ enough_for_elements f /\ enough_for_members f.
Proof.
  induction f as [|f (IHV & IHE & IHM)].
  - split; [|split]; red; intros; discriminate.
  - split; [apply parse_value_enough; assumption|].
    split; [apply parse_elements_enough | apply parse_members_enough]; assumption.
Qed.

(** [JSON_parse] fails only on a text that the parser rejects with every
    amount of fuel. *)
Lemma JSON_parse_fuel (f : nat) (s r : string) (v : json) :
  parse_value f s = Some (v, r) ->
  parse_value (2 * String.length s + 2) s = Some (v, r).
Proof.
  intros H. destruct (parse_enough f) as (HV & _ & _).
  destruct (HV _ _ _ H) as [Hl Hf]. apply Hf. lia.
Qed.

End JsonFuel.

(** * The retry loop, attempt by attempt *)
(* ===================================================================== *)

(** X1.  When the prompt can be built, the first [k] calls to the SDK are
    rejected with errors that do not end the retries, [k] being at most the
    number of retries, and the next call answers, [analyzeEndpoint] returns
    that answer with its parse: it has made [k + 1] attempts and [k + 1]
    calls, paused 1000, 2000, ... milliseconds between them, and logged one
    error and one warning for each failure, the warning with what the
    release in use hands to [onFailedAttempt].  With [k = 0] the first
    answer is returned at once, whether it parses or not. *)
Theorem analyzeEndpoint_recovers
    (rt : Client.runtime) (buildAnalysisPrompt : json -> result string)
    (payload : json) (prompt : string)
    (opts : Client.options) (w : Client.world) (c : Client.genai)
    (errs : nat -> exn) (k : nat) (text : string) :
  ClientTrace.rejected_payload payload = false ->
  buildAnalysisPrompt payload = Returns prompt ->
  Client.genaiClient w = Some c ->
  ClientTrace.callable c = true ->
  k <= Client.retries_of opts ->
  (forall i : nat, i < k ->
     Client.respond c (Client.sdk_calls w + i) (ClientTrace.model_of opts w) prompt
     = Client.Rejects (errs i)) ->
  (forall i : nat, i < k -> Client.aborts rt (errs i) = false) ->
  Client.respond c (Client.sdk_calls w + k) (ClientTrace.model_of opts w) prompt
  = Client.Responds text ->
  Client.analyzeEndpoint rt buildAnalysisPrompt payload opts w =
  (Client.mkWorld (Some c) (Client.DEFAULT_MODEL w)
     (Client.attempts w + k + 1) (Client.sdk_calls w + k + 1)
     (Client.slept w ++ ClientTrace.backoff k)
     (Client.console w
      ++ ClientTrace.failure_lines rt (Client.retries_of opts) errs k),
   Returns (Client.mkAnalysis text (Client.parse_raw text))).
Proof.
  intros Hp Hb Hc Hs Hk Hr Hab Hok.
  rewrite (analyzeEndpoint_accepted rt buildAnalysisPrompt _ _ _ _ Hp Hb).
  rewrite (pRetry_from_rejections rt _ _ c errs k) by auto.
  erewrite pRetry_from_succeeded;
    [| apply (run_responded rt _ _ _ _ c text); [reflexivity | exact Hs | exact Hok]].
  cbn [Client.genaiClient Client.DEFAULT_MODEL Client.attempts Client.sdk_calls
       Client.slept Client.console].
  do 2 f_equal; lia.
Qed.

Lemma analyzeEndpoint_recovers_witness :
  Client.analyzeEndpoint Examples.runtime Examples.prompt_of Examples.payload
    Client.no_options Scenarios.flaky =
  (Client.mkWorld (Some Scenarios.flaky_sdk) "gemini-2.5-flash" 3 3 [1000; 2000]
     [Fs.Err "Error calling Gemini: 503 Service Unavailable";
      Fs.Warn "GenAI attempt failed: 503 Service Unavailable";
      Fs.Err "Error calling Gemini: 503 Service Unavailable";
      Fs.Warn "GenAI attempt failed: 503 Service Unavailable"],
   Returns (Client.mkAnalysis Scenarios.answer
              (default JNull (JSON_parse Examples.insight_object)))).
Proof.
  apply (analyzeEndpoint_recovers Examples.runtime Examples.prompt_of
           Examples.payload "Analyze the following endpoint"
           Client.no_options Scenarios.flaky Scenarios.flaky_sdk
           (fun _ => Examples.unavailable) 2 Scenarios.answer).
  - reflexivity.
  - reflexivity.
  - reflexivity.
  - reflexivity.
  - vm_compute. lia.
  - intros [|[|i]] Hi; [reflexivity | reflexivity | lia].
  - intros i Hi. reflexivity.
  - reflexivity.
Defined.

(** X2.  When the prompt can be built and every call is rejected with an
    error that does not end the retries, [analyzeEndpoint] gives up once
    the retries are used up: [retries + 1] attempts and calls, a pause
    before every retry, an error and a warning on the console for every
    attempt.  It throws the error of the last call, or the main error of
    the attempts, as the release in use has it; when the calls are all
    rejected with the same error it throws that error.  The messages of
    the errors are ordinary ones, which the count of the main error
    takes. *)
Theorem analyzeEndpoint_gives_up
    (rt : Client.runtime) (buildAnalysisPrompt : json -> result string)
    (payload : json) (prompt : string)
    (opts : Client.options) (w : Client.world) (c : Client.genai)
    (errs : nat -> exn) :
  ClientTrace.rejected_payload payload = false ->
  buildAnalysisPrompt payload = Returns prompt ->
  Client.genaiClient w = Some c ->
  ClientTrace.callable c = true ->
  (forall i : nat, i <= Client.retries_of opts ->
     Client.respond c (Client.sdk_calls w + i) (ClientTrace.model_of opts w) prompt
     = Client.Rejects (errs i)) ->
  (forall i : nat, i <= Client.retries_of opts -> Client.aborts rt (errs i) = false) ->
  (forall i : nat, i <= Client.retries_of opts -> Client.ordinary (errs i) = true) ->
  let thrown :=
    Client.rejection rt (ClientTrace.errors_of errs (Client.retries_of opts))
      (errs (Client.retries_of opts)) in
  Client.analyzeEndpoint rt buildAnalysisPrompt payload opts w =
  (Client.mkWorld (Some c) (Client.DEFAULT_MODEL w)
     (Client.attempts w + Client.retries_of opts + 1)
     (Client.sdk_calls w + Client.retries_of opts + 1)
     (Client.slept w ++ ClientTrace.backoff (Client.retries_of opts))
     (Client.console w
      ++ ClientTrace.failure_lines rt (Client.retries_of opts) errs
           (Client.retries_of opts + 1)),
   Throws thrown) /\
  (Client.rejects_most_frequent rt = false -> thrown = errs (Client.retries_of opts)) /\
  ((forall i : nat, i <= Client.retries_of opts -> errs i = errs 0) ->
   thrown = errs 0).
Proof.
  intros Hp Hb Hc Hs Hr Hab _ thrown. split; [|split].
  - apply (analyzeEndpoint_exhausted rt buildAnalysisPrompt payload prompt opts w c
             errs Hp Hb Hc Hs Hr Hab).
  - intros Hm. unfold thrown, Client.rejection. rewrite Hm. reflexivity.
  - intros Hsame. unfold thrown. rewrite (Hsame (Client.retries_of opts)) by lia.
    apply rejection_same. unfold ClientTrace.errors_of.
    apply Forall_forall. intros x Hx.
    apply list_elem_of_In, in_map_iff in Hx as (i & <- & Hi).
    apply in_seq in Hi. apply Hsame. lia.
Qed.

Lemma analyzeEndpoint_gives_up_witness :
  let thrown := Examples.unavailable in
  Client.analyzeEndpoint Examples.runtime Examples.prompt_of Examples.payload
    (Client.mkOptions None (Some 1)) Examples.always_failing =
  (Client.mkWorld (Some Examples.failing_sdk) "gemini-2.5-flash" 2 2 [1000]
     [Fs.Err "Error calling Gemini: 503 Service Unavailable";
      Fs.Warn "GenAI attempt failed: 503 Service Unavailable";
      Fs.Err "Error calling Gemini: 503 Service Unavailable";
      Fs.Warn "GenAI attempt failed: 503 Service Unavailable"],
   Throws thrown) /\
  (Client.rejects_most_frequent Examples.runtime = false ->
   thrown = Examples.unavailable) /\
  ((forall i : nat, i <= 1 -> Examples.unavailable = Examples.unavailable) ->
   thrown = Examples.unavailable).
Proof.
  apply (analyzeEndpoint_gives_up Examples.runtime Examples.prompt_of
           Examples.payload "Analyze the following endpoint"
           (Client.mkOptions None (Some 1)) Examples.always_failing
           Examples.failing_sdk (fun _ => Examples.unavailable)).
  - reflexivity.
  - reflexivity.
  - reflexivity.
  - reflexivity.
  - intros i Hi. reflexivity.
  - intros i Hi. reflexivity.
  - intros i Hi. reflexivity.
Defined.

(** X3.  An error that ends the retries (an [AbortError], or a [TypeError]
    that is not a network error) ends the loop at the attempt that raised
    it: no pause follows and the retries left are not used.  A TypeError is
    thrown as it is, after the warning in a release that calls
    [onFailedAttempt] for it; of an AbortError the error it wraps is
    thrown, without a warning. *)
Theorem analyzeEndpoint_aborts
    (rt : Client.runtime) (buildAnalysisPrompt : json -> result string)
    (payload : json) (prompt : string)
    (opts : Client.options) (w : Client.world) (c : Client.genai)
    (errs : nat -> exn) (k : nat) (e : exn) :
  ClientTrace.rejected_payload payload = false ->
  buildAnalysisPrompt payload = Returns prompt ->
  Client.genaiClient w = Some c ->
  ClientTrace.callable c = true ->
  k <= Client.retries_of opts ->
  (forall i : nat, i < k ->
     Client.respond c (Client.sdk_calls w + i) (ClientTrace.model_of opts w) prompt
     = Client.Rejects (errs i)) ->
  (forall i : nat, i < k -> Client.aborts rt (errs i) = false) ->
  Client.respond c (Client.sdk_calls w + k) (ClientTrace.model_of opts w) prompt
  = Client.Rejects e ->
  Client.aborts rt e = true ->
  Client.analyzeEndpoint rt buildAnalysisPrompt payload opts w =
  (Client.mkWorld (Some c) (Client.DEFAULT_MODEL w)
     (Client.attempts w + k + 1) (Client.sdk_calls w + k + 1)
     (Client.slept w ++ ClientTrace.backoff k)
     (Client.console w
      ++ ClientTrace.failure_lines rt (Client.retries_of opts) errs k
      ++ [ClientTrace.error_line rt e]
      ++ ClientTrace.abort_lines rt e (1 + k) (Client.retries_of opts - k)),
   Throws (Client.rethrown e)).
Proof.
  intros Hp Hb Hc Hs Hk Hr Hab He Ha.
  rewrite (analyzeEndpoint_accepted rt buildAnalysisPrompt _ _ _ _ Hp Hb).
  rewrite (pRetry_from_rejections rt _ _ c errs k) by auto.
  erewrite pRetry_from_aborted;
    [| apply (run_rejected rt _ _ _ _ c e); [reflexivity | exact Hs | exact He]
     | exact Ha].
  unfold ClientTrace.logged_all.
  cbn [Client.genaiClient Client.DEFAULT_MODEL Client.attempts Client.sdk_calls
       Client.slept Client.console].
  rewrite <- !app_assoc. do 2 f_equal; lia.
Qed.

Lemma analyzeEndpoint_aborts_witness :
  Client.analyzeEndpoint Examples.other_runtime Examples.prompt_of Examples.payload
    Client.no_options Scenarios.crashing =
  (Client.mkWorld (Some Scenarios.crashing_sdk) "gemini-2.5-flash" 1 1 []
     [Fs.Err "Error calling Gemini: fetch is not a function";
      Fs.Warn "GenAI attempt failed: [object Object]"],
   Throws Scenarios.not_a_function).
Proof.
  apply (analyzeEndpoint_aborts Examples.other_runtime Examples.prompt_of
           Examples.payload "Analyze the following endpoint"
           Client.no_options Scenarios.crashing Scenarios.crashing_sdk
           (fun _ => Examples.unavailable) 0 Scenarios.not_a_function).
  - reflexivity.
  - reflexivity.
  - reflexivity.
  - reflexivity.
  - vm_compute. lia.
  - intros i Hi. lia.
  - intros i Hi. reflexivity.
  - reflexivity.
  - reflexivity.
Defined.

(** X4.  An SDK object without [generateContent] is treated like a failing
    call: when the prompt can be built, the error is logged and thrown
    inside every attempt, so the loop goes through all its attempts and
    pauses, and no call reaches the SDK. *)
Theorem sdk_without_generateContent_is_retried
    (rt : Client.runtime) (buildAnalysisPrompt : json -> result string)
    (payload : json) (prompt : string)
    (opts : Client.options) (w : Client.world) (c : Client.genai) :
  ClientTrace.rejected_payload payload = false ->
  buildAnalysisPrompt payload = Returns prompt ->
  Client.genaiClient w = Some c ->
  ClientTrace.callable c = false ->
  Client.analyzeEndpoint rt buildAnalysisPrompt payload opts w =
  (Client.mkWorld (Some c) (Client.DEFAULT_MODEL w)
     (Client.attempts w + Client.retries_of opts + 1)
     (Client.sdk_calls w)
     (Client.slept w ++ ClientTrace.backoff (Client.retries_of opts))
     (Client.console w
        ++ ClientTrace.failure_lines rt (Client.retries_of opts)
             (fun _ => Client.no_generateContent) (Client.retries_of opts + 1)),
   Throws Client.no_generateContent).
Proof.
  intros Hp Hb Hc Hs.
  rewrite (analyzeEndpoint_accepted rt buildAnalysisPrompt _ _ _ _ Hp Hb).
  set (r := Client.retries_of opts) in *.
  rewrite (pRetry_from_failures rt c (fun _ => Client.no_generateContent) _ 0 r r 1
             [] w); auto.
  - rewrite Nat.sub_diag.
    erewrite pRetry_from_failed;
      [| apply (run_no_generateContent rt _ _ _ _ c); [reflexivity | exact Hs]
       | reflexivity].
    rewrite rejection_same.
    + unfold Client.logged, ClientTrace.failure_lines, ClientTrace.backoff.
      cbn [Client.genaiClient Client.DEFAULT_MODEL Client.attempts Client.sdk_calls
           Client.slept Client.console].
      rewrite Nat.add_1_r with (n := r), seq_S, flat_map_app. cbn [List.flat_map].
      rewrite <- !app_assoc, Nat.sub_diag. cbn [Nat.add app].
      do 2 f_equal; lia.
    + cbn [app]. unfold ClientTrace.errors_of.
      induction (seq 0 r); cbn; constructor; [reflexivity | assumption].
  - intros i w' Hi Hc' Hn.
    rewrite (run_no_generateContent rt _ _ _ w' c Hc' Hs), Nat.add_0_r. reflexivity.
Qed.

Lemma sdk_without_generateContent_is_retried_witness :
  Client.analyzeEndpoint Examples.runtime Examples.prompt_of Examples.payload
    (Client.mkOptions None (Some 1)) Scenarios.shapeless =
  (Client.mkWorld (Some Scenarios.shapeless_sdk) "gemini-2.5-flash" 2 0 [1000]
     (ClientTrace.failure_lines Examples.runtime 1
        (fun _ => Client.no_generateContent) 2),
   Throws Client.no_generateContent).
Proof.
  apply (sdk_without_generateContent_is_retried Examples.runtime Examples.prompt_of
           Examples.payload "Analyze the following endpoint"
           (Client.mkOptions None (Some 1)) Scenarios.shapeless
           Scenarios.shapeless_sdk); reflexivity.
Defined.

(** X5.  A payload that is falsy or has no truthy [function] is refused
    before anything else happens: the error is thrown and the module state,
    the counters and the console are as they were.  For any other payload
    the prompt is built next: when that raises, the error is thrown and the
    world is again as it was; when it gives a prompt, at least one attempt
    is made. *)
Theorem analyzeEndpoint_checks_payload_first
    (rt : Client.runtime) (buildAnalysisPrompt : json -> result string)
    (payload : json) (opts : Client.options) (w : Client.world) :
  if ClientTrace.rejected_payload payload
  then Client.analyzeEndpoint rt buildAnalysisPrompt payload opts w
       = (w, Throws Client.bad_payload)
  else
    match buildAnalysisPrompt payload with
    | Throws e =>
        Client.analyzeEndpoint rt buildAnalysisPrompt payload opts w = (w, Throws e)
    | Returns _ =>
        Client.attempts w
        < Client.attempts
            (fst (Client.analyzeEndpoint rt buildAnalysisPrompt payload opts w))
    end.
Proof.
  destruct (ClientTrace.rejected_payload payload) eqn:Hp.
  - unfold ClientTrace.rejected_payload in Hp. unfold Client.analyzeEndpoint.
    rewrite Hp. reflexivity.
  - destruct (buildAnalysisPrompt payload) as [prompt|e] eqn:Hb.
    + rewrite (analyzeEndpoint_accepted rt buildAnalysisPrompt _ _ _ _ Hp Hb).
      apply pRetry_from_attempts_lt.
    + apply (analyzeEndpoint_no_prompt rt buildAnalysisPrompt _ _ _ _ Hp Hb).
Qed.

(* ===================================================================== *)
(* ===================================================================== *)
(** * The span from the first opening brace to the last closing one *)
(* ===================================================================== *)

Section BraceSpan.
Import Adapter Prose.

Lemma indexOf_from_opening (before rest : string) :
  all_chars not_opening before = true ->
  forall i : nat,
    indexOf_from "{" i (before +:+ String "{" rest) = Some (i + String.length before).
Proof.
  induction before as [|c p IH]; intros H i.
  - rewrite append_empty. cbn. rewrite Nat.add_0_r. reflexivity.
  - cbn [all_chars] in H. apply andb_true_iff in H as [Hc Hp].
    apply negb_true_iff in Hc.
    rewrite append_cons. cbn [indexOf_from String.length]. rewrite Hc, (IH Hp).
    f_equal. lia.
Qed.

Lemma lastIndexOf_from_none (after : string) :
  all_chars not_closing after = true ->
  forall (i : nat) (last : option nat),
    lastIndexOf_from "}" i after last = last.
Proof.
  induction after as [|c p IH]; intros H i last; [reflexivity|].
  cbn [all_chars] in H. apply andb_true_iff in H as [Hc Hp].
  apply negb_true_iff in Hc. rewrite Ascii.eqb_sym in Hc.
  cbn [lastIndexOf_from]. rewrite Hc. apply (IH Hp).
Qed.

Lemma lastIndexOf_from_closing (after : string) :
  all_chars not_closing after = true ->
  forall (p : string) (i : nat) (last : option nat),
    lastIndexOf_from "}" i (p +:+ String "}" after) last = Some (i + String.length p).
Proof.
  intros H. induction p as [|c p IH]; intros i last.
  - rewrite append_empty. cbn [lastIndexOf_from String.length].
    rewrite Ascii.eqb_refl, (lastIndexOf_from_none _ H), Nat.add_0_r. reflexivity.
  - rewrite append_cons. cbn [lastIndexOf_from String.length]. rewrite IH.
    f_equal. lia.
Qed.

Lemma embedded_shape (before inner after : string) :
  embedded before inner after =
  before +:+ String "{" (inner +:+ String "}" after).
Proof. reflexivity. Qed.

Lemma span_of_embedded (before inner after : string) :
  all_chars not_opening before = true ->
  all_chars not_closing after = true ->
  indexOf (embedded before inner after) "{" = Some (String.length before) /\
  lastIndexOf (embedded before inner after) "}"
    = Some (String.length before + S (String.length inner)) /\
  slice (embedded before inner after) (String.length before)
    (String.length before + S (String.length inner) + 1)
    = String "{" (inner +:+ "}").
Proof.
  intros Hb Ha. rewrite embedded_shape. split; [|split].
  - unfold indexOf. rewrite (indexOf_from_opening _ _ Hb). reflexivity.
  - unfold lastIndexOf.
    change (before +:+ String "{" (inner +:+ String "}" after))
      with (before +:+ (String "{" inner +:+ String "}" after)).
    rewrite <- append_assoc, (lastIndexOf_from_closing _ Ha), append_length.
    reflexivity.
  - unfold slice. rewrite drop_app_exact.
    replace (String.length before + S (String.length inner) + 1 - String.length before)
      with (String.length (String "{" (inner +:+ "}")))
      by (cbn [String.length]; rewrite append_length; cbn; lia).
    change (String "{" (inner +:+ String "}" after))
      with (String "{" (inner +:+ ("}" +:+ after))).
    rewrite <- append_assoc.
    change (String "{" ((inner +:+ "}") +:+ after))
      with (String "{" (inner +:+ "}") +:+ after).
    apply take_app_exact.
Qed.

End BraceSpan.

(** X6.  Text before the first opening brace and after the last closing
    brace of a reply is dropped by both readers of the reply: the fallback
    of the adapter's first step and the parse inside [analyzeEndpoint] see
    the span between the two braces only. *)
Theorem text_around_the_braces_is_dropped (before inner after : string) :
  all_chars Prose.not_opening before = true ->
  all_chars Adapter.not_closing after = true ->
  Adapter.brace_span (Prose.embedded before inner after) = "{" +:+ inner +:+ "}" /\
  Client.parse_raw (Prose.embedded before inner after)
    = default JNull (JSON_parse ("{" +:+ inner +:+ "}")).
Proof.
  intros Hb Ha.
  destruct (span_of_embedded before inner after Hb Ha) as (Hi & Hl & Hs).
  unfold Adapter.brace_span, Client.parse_raw. rewrite Hi, Hl.
  replace (String.length before <? String.length before + S (String.length inner))
    with true by (symmetry; apply Nat.ltb_lt; lia).
  rewrite Hs. split; reflexivity.
Qed.

Lemma text_around_the_braces_is_dropped_witness :
  Adapter.brace_span Scenarios.answer = Examples.insight_object /\
  Client.parse_raw Scenarios.answer = default JNull (JSON_parse Examples.insight_object).
Proof.
  apply (text_around_the_braces_is_dropped
           ("Here is the review:" +:+ nl)
           (take (String.length Examples.insight_object - 2)
              (drop 1 Examples.insight_object))
           (nl +:+ "Done.")); reflexivity.
Defined.
Section Cleanup.
Import Adapter Prose.

Lemma not_brace_matches (ch : ascii) :
  set_matches false true [CChar "{"; CChar "}"] ch = outside_braces ch.
Proof.
  unfold set_matches, outside_braces. cbn -[Ascii.eqb].
  rewrite (Ascii.eqb_sym "{"), (Ascii.eqb_sym "}").
  destruct (Ascii.eqb ch "{"), (Ascii.eqb ch "}"); reflexivity.
Qed.

Lemma drop_whole (s : string) : drop (String.length s) s = EmptyString.
Proof. induction s as [|c s IH]; [reflexivity | exact IH]. Qed.

Lemma succ_eqb (i : nat) : (S i =? i) = false.
Proof. apply Nat.eqb_neq. lia. Qed.

Lemma skip_to_end {R} (k : nat -> string -> caps -> option R) (t : string) :
  forall (i : nat) (c : caps),
    rmatch false (RSeq (RStar false not_brace) REol) i t c k =
    if all_chars outside_braces t then k (i + String.length t) EmptyString c else None.
Proof.
  induction t as [|ch t IH]; intros i c.
  - cbn. rewrite Nat.add_0_r. destruct (k i EmptyString c); reflexivity.
  - specialize (IH (S i) c). cbn [rmatch] in IH.
    cbn [rmatch String.length all_chars orElse not_brace clear_groups groups_of fold_right].
    rewrite not_brace_matches, succ_eqb.
    destruct (outside_braces ch); cbn [andb]; [|reflexivity].
    replace (i + S (String.length t)) with (S i + String.length t) by lia.
    exact IH.
Qed.

(** The same for the lazy star in front of the opening brace of the first
    group. *)
Lemma skip_to_opening {R} (k : nat -> string -> caps -> option R)
    (before rest : string) :
  all_chars outside_braces before = true ->
  forall (i : nat) (c : caps),
    rmatch false (RSeq (RStar false not_brace) (RGroup 1 (RChar "{"))) i
      (before +:+ String "{" rest) c k =
    k (S (i + String.length before)) rest (<[1 := Some "{"]> c).
Proof.
  induction before as [|ch t IH]; intros H i c.
  - rewrite append_empty. cbn. rewrite Nat.add_0_r.
    replace (S i - i) with 1 by lia. cbn.
    destruct (k (S i) rest (<[1:=Some "{"]> c)); reflexivity.
  - cbn [all_chars] in H. apply andb_true_iff in H as [Hc Ht].
    specialize (IH Ht (S i) c). cbn [rmatch] in IH.
    rewrite append_cons.
    cbn [rmatch String.length all_chars orElse not_brace clear_groups groups_of fold_right].
    rewrite not_brace_matches, succ_eqb, Hc.
    unfold outside_braces in Hc. apply andb_true_iff in Hc as [Hc _].
    apply negb_true_iff in Hc. rewrite Ascii.eqb_sym in Hc.
    unfold canon at 1 2. rewrite Hc. cbn [orElse].
    replace (i + S (String.length t)) with (S i + String.length t) by lia.
    exact IH.
Qed.

(** [/^[^{}]*?(\{)/]: text without braces in front of the first opening
    brace goes. *)
Lemma replace_leading_text (before rest : string) :
  all_chars outside_braces before = true ->
  replace (before +:+ String "{" rest) leading_junk_re [RText "{"] = String "{" rest.
Proof.
  intros H. unfold replace. cbn [re_global leading_junk_re].
  fold leading_junk_re.
  assert (E : search_from leading_junk_re 0 (before +:+ String "{" rest) =
              Some (MatchResult 0 (S (String.length before))
                      (<[0 := Some (take (S (String.length before) - 0)
                                      (before +:+ String "{" rest))]>
                         (<[1 := Some "{"]> [None; None])))).
  { destruct before as [|ch t].
    - reflexivity.
    - rewrite append_cons. cbn [search_from]. unfold match_at.
      cbn [re_ignoreCase re_body re_groups leading_junk_re RSeqs].
      change (rmatch false (RSeq RBol ?r) 0 ?s ?c ?k) with (rmatch false r 0 s c k).
      rewrite <- append_cons, (skip_to_opening _ _ _ H). reflexivity. }
  rewrite E. cbn [m_index m_end take expand fold_right].
  rewrite append_empty.
  change (String "{" rest) with (String "{" EmptyString +:+ rest) at 1.
  rewrite <- append_assoc.
  replace (S (String.length before))
    with (String.length (before +:+ String "{" EmptyString))
    by (rewrite append_length; cbn; lia).
  rewrite drop_app_exact. reflexivity.
Qed.

(** [/(\})[^{}]*?$/]: text without braces behind the last closing brace
    goes. *)
Lemma search_trailing_text (after : string) :
  all_chars outside_braces after = true ->
  forall (p : string) (i : nat),
    exists c : caps,
      search_from trailing_junk_re i (p +:+ String "}" after) =
      Some (MatchResult (i + String.length p)
              (S (i + String.length p + String.length after)) c) /\
      c !! 1 = Some (Some "}").
Proof.
  intros H. induction p as [|ch p IH]; intros i.
  - rewrite append_empty. cbn [search_from]. unfold match_at.
    cbn [re_ignoreCase re_body re_groups trailing_junk_re RSeqs].
    change (rmatch false (RSeq (RGroup 1 (RChar "}")) ?r) i (String "}" after) ?c ?k)
      with (rmatch false r (S i) after
              (<[1 := Some (take (S i - i) (String "}" after))]> c) k).
    rewrite skip_to_end, H. eexists. split.
    + rewrite Nat.add_0_r. reflexivity.
    + replace (S i - i) with 1 by lia. reflexivity.
  - rewrite append_cons. cbn [search_from String.length].
    replace (match_at trailing_junk_re i (String ch (p +:+ String "}" after)))
      with (@None match_result).
    + destruct (IH (S i)) as (c & -> & Hc). exists c. split; [|exact Hc].
      do 2 f_equal; lia.
    + unfold match_at.
      cbn [re_ignoreCase re_body re_groups trailing_junk_re RSeqs].
      change (rmatch false (RSeq (RGroup 1 (RChar "}")) ?r) i (String ch ?s) ?c ?k)
        with (if Ascii.eqb "}" ch
              then rmatch false r (S i) s
                     (<[1 := Some (take (S i - i) (String ch s))]> c) k
              else None).
      destruct (Ascii.eqb "}" ch); [|reflexivity].
      rewrite skip_to_end, all_chars_app. cbn [all_chars].
      rewrite andb_false_r. reflexivity.
Qed.

Lemma replace_trailing_text (p after : string) :
  all_chars outside_braces after = true ->
  replace (p +:+ String "}" after) trailing_junk_re [RText "}"] = p +:+ "}".
Proof.
  intros H. unfold replace. cbn [re_global trailing_junk_re].
  fold trailing_junk_re.
  destruct (search_trailing_text after H p 0) as (c & -> & Hc).
  cbn [m_index m_end Nat.add expand fold_right].
  rewrite take_app_exact.
  replace (S (String.length p + String.length after))
    with (String.length (p +:+ String "}" after))
    by (rewrite append_length; cbn; lia).
  rewrite drop_whole. reflexivity.
Qed.

(** The clean-up of a text without backticks: once the word [json] is
    deleted, what stands in front of the first brace and behind the last
    one goes, and the object stays as it is. *)
Lemma cleanup_embedded (t before inner after : string) :
  all_chars no_backtick t = true ->
  delete_json t = embedded before inner after ->
  all_chars outside_braces before = true ->
  all_chars outside_braces after = true ->
  cleanup t = String "{" (inner +:+ "}").
Proof.
  intros Ht Hd Hb Ha. unfold cleanup.
  rewrite (replace_backticks_none t Ht), replace_json_word, Hd, embedded_shape.
  rewrite (replace_leading_text _ _ Hb).
  change (String "{" (inner +:+ String "}" after))
    with (String "{" inner +:+ String "}" after).
  rewrite (replace_trailing_text _ _ Ha). apply trim_braced.
Qed.

Lemma brace_span_embedded (before inner after : string) :
  all_chars not_opening before = true ->
  all_chars not_closing after = true ->
  brace_span (embedded before inner after) = String "{" (inner +:+ "}").
Proof.
  intros Hb Ha.
  destruct (span_of_embedded before inner after Hb Ha) as (Hi & Hl & Hs).
  unfold brace_span. rewrite Hi, Hl.
  replace (String.length before <? String.length before + S (String.length inner))
    with true by (symmetry; apply Nat.ltb_lt; lia).
  exact Hs.
Qed.

Lemma delete_json_braced (inner : string) :
  delete_json (String "{" (inner +:+ "}")) = String "{" (delete_json inner +:+ "}").
Proof.
  rewrite delete_json_not_j by reflexivity. f_equal.
  apply (delete_json_around_other "}" EmptyString eq_refl (String.length inner)).
  lia.
Qed.

End Cleanup.

(** X7.  The clean-up of a candidate without backticks keeps the object and
    nothing else: once the word [json] is deleted, the text in front of the
    first brace and behind the last one is cut off, and what lies between
    the two is left as it is, white space and nested braces included. *)
Theorem cleanup_keeps_the_object (t before inner after : string) :
  all_chars Adapter.no_backtick t = true ->
  Adapter.delete_json t = Prose.embedded before inner after ->
  all_chars Prose.outside_braces before = true ->
  all_chars Prose.outside_braces after = true ->
  Adapter.cleanup t = "{" +:+ inner +:+ "}".
Proof. apply cleanup_embedded. Qed.

Lemma cleanup_keeps_the_object_witness :
  Adapter.cleanup (nl +:+ "Result: " +:+ Examples.insight_object +:+ " (end)")
  = Examples.insight_object.
Proof.
  apply (cleanup_keeps_the_object
           (nl +:+ "Result: " +:+ Examples.insight_object +:+ " (end)")
           (nl +:+ "Result: ")
           (take (String.length Examples.insight_object - 2)
              (drop 1 Examples.insight_object))
           " (end)"); reflexivity.
Defined.

(** X8.  A reply without backticks that holds an object between two pieces
    of text, the first without an opening brace and the second without a
    closing one, is read as that object: when the object parses once the
    word [json] is deleted from it, [cleanGeminiResponse] returns the
    insight made of the parsed value, and the text around the object plays
    no part. *)
Theorem object_in_prose_is_read (before inner after : string) (v : json) :
  all_chars Adapter.no_backtick (Prose.embedded before inner after) = true ->
  all_chars Prose.not_opening before = true ->
  all_chars Adapter.not_closing after = true ->
  JSON_parse ("{" +:+ Adapter.delete_json inner +:+ "}") = Some v ->
  Adapter.cleanGeminiResponse (Prose.embedded before inner after)
  = Adapter.normalize v.
Proof.
  intros Ht Hb Ha Hv. unfold Adapter.cleanGeminiResponse.
  replace (JsString.truthy (Prose.embedded before inner after)) with true
    by (rewrite embedded_shape; destruct before; reflexivity).
  cbn [negb]. unfold Adapter.extract_candidate.
  rewrite (fence_interior_none _ Ht), (brace_span_embedded _ _ _ Hb Ha).
  rewrite (cleanup_embedded _ EmptyString (Adapter.delete_json inner) EmptyString).
  - change (String "{" (Adapter.delete_json inner +:+ "}"))
      with ("{" +:+ Adapter.delete_json inner +:+ "}").
    rewrite Hv. reflexivity.
  - rewrite embedded_shape, !all_chars_app in Ht.
    apply andb_true_iff in Ht as [_ Ht]. cbn [all_chars] in Ht.
    apply andb_true_iff in Ht as [_ Ht]. rewrite all_chars_app in Ht.
    apply andb_true_iff in Ht as [Ht _].
    cbn [all_chars]. rewrite all_chars_app, Ht. reflexivity.
  - apply delete_json_braced.
  - reflexivity.
  - reflexivity.
Qed.

Lemma object_in_prose_is_read_witness :
  Adapter.cleanGeminiResponse Scenarios.answer
  = Adapter.Insight
      {| Adapter.summary := JString "ok";
         Adapter.issues := JArray [];
         Adapter.suggestions := JArray [];
         Adapter.before_after := JNull;
         Adapter.notes := JString "n" |}.
Proof.
  apply (object_in_prose_is_read
           ("Here is the review:" +:+ nl)
           (take (String.length Examples.insight_object - 2)
              (drop 1 Examples.insight_object))
           (nl +:+ "Done.")
           (JObject [("summary", JString "ok"); ("issues", JArray []);
                     ("suggestions", JArray []); ("before_after", JNull);
                     ("notes", JString "n")])); reflexivity.
Defined.

(* ===================================================================== *)
(** * The deletion of [json], from the text to the values *)
(* ===================================================================== *)

Section Erased.
Import Adapter Erasure.

Lemma delete_json_calm (c : ascii) (s : string) :
  no_j c = true -> delete_json (String c s) = String c (delete_json s).
Proof. intros H. apply delete_json_not_j, negb_true_iff, H. Qed.

Lemma all_chars_delete_json (p : ascii -> bool) (s : string) :
  all_chars p s = true ->
  forall skip : nat, all_chars p (delete_json_skip skip s) = true.
Proof.
  induction s as [|c s IH]; intros H skip; [reflexivity|].
  cbn [all_chars] in H. apply andb_true_iff in H as [Hc Hs].
  cbn [delete_json_skip]. destruct skip as [|skip]; [|apply (IH Hs)].
  destruct (starts_with_json (String c s)); [apply (IH Hs)|].
  cbn [all_chars]. rewrite Hc. apply (IH Hs).
Qed.

Lemma delete_json_prefix (w r : string) :
  all_chars no_j w = true -> delete_json (w +:+ r) = w +:+ delete_json r.
Proof.
  induction w as [|c w IH]; intros H; [reflexivity|].
  cbn [all_chars] in H. apply andb_true_iff in H as [Hc Hw].
  rewrite !append_cons, (delete_json_calm _ _ Hc), (IH Hw). reflexivity.
Qed.

Lemma ws_no_j (c : ascii) : is_json_ws c = true -> no_j c = true.
Proof. destruct c as [[] [] [] [] [] [] [] []]; vm_compute; congruence. Qed.

Lemma digit_no_j (c : ascii) : is_digit c = true -> no_j c = true.
Proof. destruct c as [[] [] [] [] [] [] [] []]; vm_compute; congruence. Qed.

Lemma calm_skip_ws (s : string) : calm (skip_ws s) = true -> calm s = true.
Proof.
  destruct s as [|c s]; [reflexivity|]. cbn [skip_ws calm].
  destruct (is_json_ws c) eqn:E; [intros _; apply (ws_no_j _ E) | exact (fun H => H)].
Qed.

Lemma skip_ws_delete_json (s : string) :
  calm (skip_ws s) = true -> skip_ws (delete_json s) = delete_json (skip_ws s).
Proof.
  induction s as [|c s IH]; intros H; [reflexivity|].
  cbn [skip_ws] in *. destruct (is_json_ws c) eqn:Hw.
  - rewrite (delete_json_calm _ _ (ws_no_j _ Hw)). cbn [skip_ws]. rewrite Hw.
    apply (IH H).
  - cbn [calm] in H. rewrite (delete_json_calm _ _ H). cbn [skip_ws]. rewrite Hw.
    reflexivity.
Qed.

Lemma all_chars_skip_ws (p : ascii -> bool) (s : string) :
  all_chars p s = true -> all_chars p (skip_ws s) = true.
Proof.
  induction s as [|c s IH]; intros H; [reflexivity|].
  cbn [skip_ws]. destruct (is_json_ws c); [|exact H].
  cbn [all_chars] in H. apply andb_true_iff in H as [_ Hs]. apply (IH Hs).
Qed.

Lemma expect_delete_json (c : ascii) (s r : string) :
  no_j c = true -> expect c s = Some r ->
  expect c (delete_json s) = Some (delete_json r).
Proof.
  destruct s as [|d s]; [discriminate|]. cbn [expect].
  destruct (Ascii.eqb c d) eqn:E; [|discriminate]. intros Hc [= <-].
  apply Ascii.eqb_eq in E. subst d. rewrite (delete_json_calm _ _ Hc).
  cbn [expect]. rewrite Ascii.eqb_refl. reflexivity.
Qed.

Lemma expect_none_delete_json (c : ascii) (s : string) :
  calm s = true -> expect c s = None -> expect c (delete_json s) = None.
Proof.
  destruct s as [|d s]; [reflexivity|]. cbn [calm]. intros Hc.
  rewrite (delete_json_calm _ _ Hc). cbn [expect].
  destruct (Ascii.eqb c d); [discriminate | reflexivity].
Qed.

Lemma expect_shape (c : ascii) (s r : string) :
  expect c s = Some r -> s = String c r.
Proof.
  destruct s as [|d s]; [discriminate|]. cbn [expect].
  destruct (Ascii.eqb c d) eqn:E; [|discriminate]. intros [= <-].
  apply Ascii.eqb_eq in E. subst d. reflexivity.
Qed.

Lemma all_chars_tail (p : ascii -> bool) (c : ascii) (s : string) :
  all_chars p (String c s) = true -> all_chars p s = true.
Proof. cbn [all_chars]. intros H. apply andb_true_iff in H as [_ H]. exact H. Qed.

(** ** String literals *)

Lemma parse_string_body_literal (s : string) :
  all_chars no_backslash s = true ->
  forall body r : string,
    parse_string_body s = Some (body, r) ->
    s = body +:+ String dquote r /\ all_chars literal_char body = true.
Proof.
  induction s as [|c s IH]; intros H body r; cbn [parse_string_body]; [discriminate|].
  cbn [all_chars] in H. apply andb_true_iff in H as [Hc Hs].
  unfold no_backslash in Hc. apply negb_true_iff in Hc.
  destruct (Ascii.eqb c dquote) eqn:Eq.
  - intros [= <- <-]. apply Ascii.eqb_eq in Eq. subst c. split; reflexivity.
  - rewrite Hc. destruct (code c <? 32) eqn:Hk; [discriminate|].
    destruct (parse_string_body s) as [[t r']|] eqn:E; [|discriminate].
    intros [= <- <-]. destruct (IH Hs _ _ eq_refl) as [-> Hl].
    split; [reflexivity|]. cbn [all_chars]. rewrite Hl, andb_true_r.
    unfold literal_char. rewrite Eq, Hc. cbn [negb andb]. rewrite !andb_true_r.
    apply Nat.leb_le. apply Nat.ltb_ge in Hk. exact Hk.
Qed.

Lemma parse_literal_string (body rest : string) :
  all_chars literal_char body = true ->
  parse_string_body (body +:+ String dquote rest) = Some (body, rest).
Proof.
  induction body as [|c body IH]; intros H.
  - rewrite append_empty. cbn [parse_string_body]. rewrite Ascii.eqb_refl. reflexivity.
  - cbn [all_chars] in H. apply andb_true_iff in H as [Hc Hb].
    unfold literal_char in Hc. rewrite !andb_true_iff, !negb_true_iff in Hc.
    destruct Hc as [[Hk Hq] Hs].
    rewrite append_cons. cbn [parse_string_body]. rewrite Hq, Hs, (IH Hb).
    replace (code c <? 32) with false; [reflexivity|].
    symmetry. apply Nat.ltb_ge. apply Nat.leb_le in Hk. exact Hk.
Qed.

Lemma parse_string_body_delete_json (s body r : string) :
  all_chars no_backslash s = true ->
  parse_string_body s = Some (body, r) ->
  parse_string_body (delete_json s) = Some (delete_json body, delete_json r) /\
  all_chars no_backslash r = true.
Proof.
  intros H E. destruct (parse_string_body_literal s H _ _ E) as [-> Hl]. split.
  - rewrite (delete_json_around_other dquote r eq_refl _ body (le_n _)).
    apply parse_literal_string. apply (all_chars_delete_json _ _ Hl 0).
  - rewrite all_chars_app in H. apply andb_true_iff in H as [_ H].
    apply (all_chars_tail _ _ _ H).
Qed.

(** ** The words [true], [false] and [null] *)

Lemma expect_word_delete_json (w s r : string) :
  all_chars no_j w = true ->
  expect_word w s = Some r ->
  expect_word w (delete_json s) = Some (delete_json r) /\ s = w +:+ r.
Proof.
  intros Hw. unfold expect_word.
  destruct (String.eqb (take (String.length w) s) w) eqn:E; [|discriminate].
  intros [= <-]. apply String.eqb_eq in E.
  assert (Hs : s = w +:+ drop (String.length w) s).
  { rewrite <- E at 1. symmetry. apply take_drop. }
  split; [|exact Hs].
  generalize dependent (drop (String.length w) s). intros r ->.
  rewrite (delete_json_prefix _ _ Hw), take_app_exact, String.eqb_refl, drop_app_exact.
  reflexivity.
Qed.

(** ** Numbers *)

Lemma span_digits_delete_json (s : string) :
  forall d r : string,
    span_digits s = (d, r) -> calm r = true ->
    span_digits (delete_json s) = (d, delete_json r).
Proof.
  induction s as [|c s IH]; intros d r; cbn [span_digits].
  - intros [= <- <-] _. reflexivity.
  - destruct (is_digit c) eqn:Hd.
    + destruct (span_digits s) as [d' r'] eqn:E. intros [= <- <-] Hc.
      rewrite (delete_json_calm _ _ (digit_no_j _ Hd)). cbn [span_digits].
      rewrite Hd, (IH _ _ eq_refl Hc). reflexivity.
    + intros [= <- <-] Hc. cbn [calm] in Hc. rewrite (delete_json_calm _ _ Hc).
      cbn [span_digits]. rewrite Hd. reflexivity.
Qed.

Lemma span_digits_rest (p : ascii -> bool) (s : string) :
  forall d r : string,
    span_digits s = (d, r) -> all_chars p s = true -> all_chars p r = true.
Proof.
  induction s as [|c s IH]; intros d r; cbn [span_digits].
  - intros [= <- <-] _. reflexivity.
  - destruct (is_digit c).
    + destruct (span_digits s) as [d' r'] eqn:E. intros [= <- <-] H.
      apply (IH _ _ eq_refl (all_chars_tail _ _ _ H)).
    + intros [= <- <-] H. exact H.
Qed.

Lemma span_digits_calm (s d r : string) :
  span_digits s = (d, r) -> d <> EmptyString -> calm s = true.
Proof.
  destruct s as [|c s]; cbn [span_digits]; [intros [= <- <-]; congruence|].
  destruct (is_digit c) eqn:Hd.
  - intros _ _. apply (digit_no_j _ Hd).
  - intros [= <- <-]. congruence.
Qed.

Lemma parse_int_part_delete_json (s i r : string) :
  parse_int_part s = Some (i, r) -> calm r = true ->
  parse_int_part (delete_json s) = Some (i, delete_json r) /\ calm s = true.
Proof.
  destruct s as [|c s]; cbn [parse_int_part]; [discriminate|].
  destruct (Ascii.eqb c "0") eqn:E0.
  - intros [= <- <-] _. apply Ascii.eqb_eq in E0. subst c.
    rewrite (delete_json_calm "0" s eq_refl). split; reflexivity.
  - destruct (is_digit c) eqn:Hd; [|discriminate].
    destruct (span_digits s) as [d r'] eqn:E. intros [= <- <-] Hc.
    rewrite (delete_json_calm _ _ (digit_no_j _ Hd)). cbn [parse_int_part calm].
    rewrite E0, Hd, (span_digits_delete_json _ _ _ E Hc).
    split; [reflexivity | apply (digit_no_j _ Hd)].
Qed.

Lemma parse_int_part_rest (p : ascii -> bool) (s i r : string) :
  parse_int_part s = Some (i, r) -> all_chars p s = true -> all_chars p r = true.
Proof.
  destruct s as [|c s]; cbn [parse_int_part]; [discriminate|].
  destruct (Ascii.eqb c "0").
  - intros [= <- <-] H. apply (all_chars_tail _ _ _ H).
  - destruct (is_digit c); [|discriminate].
    destruct (span_digits s) as [d r'] eqn:E. intros [= <- <-] H.
    apply (span_digits_rest _ _ _ _ E (all_chars_tail _ _ _ H)).
Qed.

Lemma parse_frac_part_delete_json (s f r : string) :
  parse_frac_part s = Some (f, r) -> calm r = true ->
  parse_frac_part (delete_json s) = Some (f, delete_json r) /\ calm s = true.
Proof.
  unfold parse_frac_part. destruct (expect "." s) as [s'|] eqn:E.
  - destruct (span_digits s') as [d r'] eqn:Ed.
    destruct d as [|c d]; [discriminate|]. intros [= <- <-] Hc.
    rewrite (expect_delete_json "." _ _ eq_refl E),
      (span_digits_delete_json _ _ _ Ed Hc).
    split; [reflexivity|]. rewrite (expect_shape _ _ _ E). reflexivity.
  - intros [= <- <-] Hc. rewrite (expect_none_delete_json _ _ Hc E).
    split; [reflexivity | exact Hc].
Qed.

Lemma parse_frac_part_rest (p : ascii -> bool) (s f r : string) :
  parse_frac_part s = Some (f, r) -> all_chars p s = true -> all_chars p r = true.
Proof.
  unfold parse_frac_part. destruct (expect "." s) as [s'|] eqn:E.
  - destruct (span_digits s') as [d r'] eqn:Ed.
    destruct d as [|c d]; [discriminate|]. intros [= <- <-] H.
    rewrite (expect_shape _ _ _ E) in H.
    apply (span_digits_rest _ _ _ _ Ed (all_chars_tail _ _ _ H)).
  - intros [= <- <-] H. exact H.
Qed.

Lemma exponent_mark_no_j (c : ascii) :
  Ascii.eqb c "e" || Ascii.eqb c "E" = true -> no_j c = true.
Proof. destruct c as [[] [] [] [] [] [] [] []]; vm_compute; congruence. Qed.

Lemma parse_exp_part_delete_json (s e r : string) :
  parse_exp_part s = Some (e, r) -> calm r = true ->
  parse_exp_part (delete_json s) = Some (e, delete_json r) /\ calm s = true.
Proof.
  destruct s as [|c s]; cbn [parse_exp_part].
  - intros [= <- <-] _. split; reflexivity.
  - destruct (Ascii.eqb c "e" || Ascii.eqb c "E") eqn:Ee.
    + pose proof (exponent_mark_no_j _ Ee) as Hj.
      rewrite (delete_json_calm _ _ Hj). cbn [parse_exp_part calm]. rewrite Ee.
      destruct (expect "+" s) as [t|] eqn:Ep.
      * destruct (span_digits t) as [d r'] eqn:Ed.
        destruct d as [|c' d]; [discriminate|]. intros [= <- <-] Hc.
        rewrite (expect_delete_json "+" _ _ eq_refl Ep),
          (span_digits_delete_json _ _ _ Ed Hc).
        split; [reflexivity | exact Hj].
      * destruct (expect "-" s) as [t|] eqn:Em.
        -- destruct (span_digits t) as [d r'] eqn:Ed.
           destruct d as [|c' d]; [discriminate|]. intros [= <- <-] Hc.
           assert (Hs : calm s = true)
             by (rewrite (expect_shape _ _ _ Em); reflexivity).
           rewrite (expect_none_delete_json _ _ Hs Ep),
             (expect_delete_json "-" _ _ eq_refl Em),
             (span_digits_delete_json _ _ _ Ed Hc).
           split; [reflexivity | exact Hj].
        -- destruct (span_digits s) as [d r'] eqn:Ed.
           destruct d as [|c' d']; [discriminate|]. intros [= <- <-] Hc.
           assert (Hs : calm s = true)
             by (apply (span_digits_calm _ _ _ Ed); discriminate).
           rewrite (expect_none_delete_json _ _ Hs Ep),
             (expect_none_delete_json _ _ Hs Em),
             (span_digits_delete_json _ _ _ Ed Hc).
           split; [reflexivity | exact Hj].
    + intros [= <- <-] Hc. cbn [calm] in Hc. rewrite (delete_json_calm _ _ Hc).
      cbn [parse_exp_part calm]. rewrite Ee. split; [reflexivity | exact Hc].
Qed.

Lemma parse_exp_part_rest (p : ascii -> bool) (s e r : string) :
  parse_exp_part s = Some (e, r) -> all_chars p s = true -> all_chars p r = true.
Proof.
  destruct s as [|c s]; cbn [parse_exp_part].
  - intros [= <- <-] _. reflexivity.
  - destruct (Ascii.eqb c "e" || Ascii.eqb c "E").
    + intros E H. apply all_chars_tail in H.
      destruct (expect "+" s) as [t|] eqn:Ep.
      * destruct (span_digits t) as [d r'] eqn:Ed.
        destruct d as [|c' d]; [discriminate|]. injection E as <- <-.
        rewrite (expect_shape _ _ _ Ep) in H.
        apply (span_digits_rest _ _ _ _ Ed (all_chars_tail _ _ _ H)).
      * destruct (expect "-" s) as [t|] eqn:Em.
        -- destruct (span_digits t) as [d r'] eqn:Ed.
           destruct d as [|c' d]; [discriminate|]. injection E as <- <-.
           rewrite (expect_shape _ _ _ Em) in H.
           apply (span_digits_rest _ _ _ _ Ed (all_chars_tail _ _ _ H)).
        -- destruct (span_digits s) as [d r'] eqn:Ed.
           destruct d as [|c' d]; [discriminate|]. injection E as <- <-.
           apply (span_digits_rest _ _ _ _ Ed H).
    + intros [= <- <-] H. exact H.
Qed.

Lemma parse_number_delete_json (s lx r : string) :
  parse_number s = Some (lx, r) -> calm r = true ->
  parse_number (delete_json s) = Some (lx, delete_json r) /\ calm s = true.
Proof.
  unfold parse_number. intros H Hc.
  destruct (expect "-" s) as [t|] eqn:Em.
  - destruct (parse_int_part t) as [[i s2]|] eqn:Ei; [|discriminate].
    cbn [mbind option_bind] in H.
    destruct (parse_frac_part s2) as [[f s3]|] eqn:Ef; [|discriminate].
    cbn [mbind option_bind] in H.
    destruct (parse_exp_part s3) as [[e s4]|] eqn:Ee; [|discriminate].
    cbn [mbind option_bind] in H. injection H as <- <-.
    destruct (parse_exp_part_delete_json _ _ _ Ee Hc) as [De C3].
    destruct (parse_frac_part_delete_json _ _ _ Ef C3) as [Df C2].
    destruct (parse_int_part_delete_json _ _ _ Ei C2) as [Di _].
    rewrite (expect_delete_json "-" _ _ eq_refl Em), Di. cbn [mbind option_bind].
    rewrite Df. cbn [mbind option_bind]. rewrite De. cbn [mbind option_bind].
    split; [reflexivity|]. rewrite (expect_shape _ _ _ Em). reflexivity.
  - destruct (parse_int_part s) as [[i s2]|] eqn:Ei; [|discriminate].
    cbn [mbind option_bind] in H.
    destruct (parse_frac_part s2) as [[f s3]|] eqn:Ef; [|discriminate].
    cbn [mbind option_bind] in H.
    destruct (parse_exp_part s3) as [[e s4]|] eqn:Ee; [|discriminate].
    cbn [mbind option_bind] in H. injection H as <- <-.
    destruct (parse_exp_part_delete_json _ _ _ Ee Hc) as [De C3].
    destruct (parse_frac_part_delete_json _ _ _ Ef C3) as [Df C2].
    destruct (parse_int_part_delete_json _ _ _ Ei C2) as [Di C1].
    rewrite (expect_none_delete_json _ _ C1 Em), Di. cbn [mbind option_bind].
    rewrite Df. cbn [mbind option_bind]. rewrite De. cbn [mbind option_bind].
    split; [reflexivity | exact C1].
Qed.

Lemma parse_number_rest (p : ascii -> bool) (s lx r : string) :
  parse_number s = Some (lx, r) -> all_chars p s = true -> all_chars p r = true.
Proof.
  unfold parse_number. intros H Hp.
  destruct (expect "-" s) as [t|] eqn:Em.
  - destruct (parse_int_part t) as [[i s2]|] eqn:Ei; [|discriminate].
    cbn [mbind option_bind] in H.
    destruct (parse_frac_part s2) as [[f s3]|] eqn:Ef; [|discriminate].
    cbn [mbind option_bind] in H.
    destruct (parse_exp_part s3) as [[e s4]|] eqn:Ee; [|discriminate].
    cbn [mbind option_bind] in H. injection H as <- <-.
    rewrite (expect_shape _ _ _ Em) in Hp. apply all_chars_tail in Hp.
    eauto using parse_int_part_rest, parse_frac_part_rest, parse_exp_part_rest.
  - destruct (parse_int_part s) as [[i s2]|] eqn:Ei; [|discriminate].
    cbn [mbind option_bind] in H.
    destruct (parse_frac_part s2) as [[f s3]|] eqn:Ef; [|discriminate].
    cbn [mbind option_bind] in H.
    destruct (parse_exp_part s3) as [[e s4]|] eqn:Ee; [|discriminate].
    cbn [mbind option_bind] in H. injection H as <- <-.
    eauto using parse_int_part_rest, parse_frac_part_rest, parse_exp_part_rest.
Qed.

(** ** Values *)

Lemma parse_int_part_calm (s i r : string) :
  parse_int_part s = Some (i, r) -> calm s = true.
Proof.
  destruct s as [|c s]; cbn [parse_int_part calm]; [discriminate|].
  destruct (Ascii.eqb c "0") eqn:E0.
  - intros _. apply Ascii.eqb_eq in E0. subst c. reflexivity.
  - destruct (is_digit c) eqn:Hd; [|discriminate]. intros _. apply (digit_no_j _ Hd).
Qed.

Lemma parse_number_calm (s lx r : string) :
  parse_number s = Some (lx, r) -> calm s = true.
Proof.
  unfold parse_number. destruct (expect "-" s) as [t|] eqn:Em.
  - intros _. rewrite (expect_shape _ _ _ Em). reflexivity.
  - destruct (parse_int_part s) as [[i s2]|] eqn:Ei; [|discriminate].
    intros _. apply (parse_int_part_calm _ _ _ Ei).
Qed.

(** A value begins, after white space, with a character that is no [j]. *)
Lemma parse_value_calm (f : nat) (s : string) (v : json) (r : string) :
  parse_value f s = Some (v, r) -> calm (skip_ws s) = true.
Proof.
  destruct f as [|f]; [discriminate|]. cbn [parse_value].
  destruct (skip_ws s) as [|c r0] eqn:Es; [discriminate|]. cbn [calm].
  destruct (Ascii.eqb c "{") eqn:E1;
    [intros _; apply Ascii.eqb_eq in E1; subst c; reflexivity|].
  destruct (Ascii.eqb c "[") eqn:E2;
    [intros _; apply Ascii.eqb_eq in E2; subst c; reflexivity|].
  destruct (Ascii.eqb c dquote) eqn:E3;
    [intros _; apply Ascii.eqb_eq in E3; subst c; reflexivity|].
  destruct (Ascii.eqb c "t") eqn:E4;
    [intros _; apply Ascii.eqb_eq in E4; subst c; reflexivity|].
  destruct (Ascii.eqb c "f") eqn:E5;
    [intros _; apply Ascii.eqb_eq in E5; subst c; reflexivity|].
  destruct (Ascii.eqb c "n") eqn:E6;
    [intros _; apply Ascii.eqb_eq in E6; subst c; reflexivity|].
  destruct (parse_number (String c r0)) as [[lx r']|] eqn:En; [|discriminate].
  intros _. apply (parse_number_calm _ _ _ En).
Qed.

Lemma next_separator_delete_json (close : ascii) (r : string) :
  no_j close = true ->
  (forall r' : string,
     next_separator close r = Comma r' ->
     next_separator close (delete_json r) = Comma (delete_json r') /\
     calm r = true /\
     (all_chars no_backslash r = true -> all_chars no_backslash r' = true)) /\
  (forall r' : string,
     next_separator close r = Close r' ->
     next_separator close (delete_json r) = Close (delete_json r') /\
     calm r = true /\
     (all_chars no_backslash r = true -> all_chars no_backslash r' = true)).
Proof.
  intros Hclose. unfold next_separator.
  destruct (skip_ws r) as [|c x] eqn:Es; [split; intros r'; discriminate|].
  destruct (Ascii.eqb c ",") eqn:Ec.
  - apply Ascii.eqb_eq in Ec. subst c. split; intros r'; [|discriminate].
    intros [= <-].
    assert (Hc : calm (skip_ws r) = true) by (rewrite Es; reflexivity).
    rewrite (skip_ws_delete_json _ Hc), Es, (delete_json_calm "," x eq_refl).
    cbn. repeat split; [apply (calm_skip_ws _ Hc)|].
    intros H. apply all_chars_skip_ws in H. rewrite Es in H.
    apply (all_chars_tail _ _ _ H).
  - destruct (Ascii.eqb c close) eqn:Ex; [|split; intros r'; discriminate].
    apply Ascii.eqb_eq in Ex. subst c. split; intros r'; [discriminate|].
    intros [= <-].
    assert (Hc : calm (skip_ws r) = true) by (rewrite Es; exact Hclose).
    rewrite (skip_ws_delete_json _ Hc), Es, (delete_json_calm close x Hclose).
    rewrite Ec, Ascii.eqb_refl. repeat split; [apply (calm_skip_ws _ Hc)|].
    intros H. apply all_chars_skip_ws in H. rewrite Es in H.
    apply (all_chars_tail _ _ _ H).
Qed.

Lemma erased_value_step (f : nat) :
  erased_elements f -> erased_members f -> erased_value (S f).
Proof.
  intros IHE IHM s v r H Hs Hr.
  pose proof (parse_value_calm _ _ _ _ H) as Hcalm.
  cbn [parse_value] in H |- *.
  rewrite (skip_ws_delete_json _ Hcalm).
  pose proof (all_chars_skip_ws _ _ Hs) as Hs0.
  destruct (skip_ws s) as [|c r0] eqn:Es; [discriminate|].
  cbn [calm] in Hcalm. rewrite (delete_json_calm _ _ Hcalm).
  apply all_chars_tail in Hs0.
  destruct (Ascii.eqb c "{") eqn:E1.
  { destruct (expect "}" (skip_ws r0)) as [r'|] eqn:Ee.
    - injection H as <- <-.
      assert (Hc : calm (skip_ws r0) = true)
        by (rewrite (expect_shape _ _ _ Ee); reflexivity).
      rewrite (skip_ws_delete_json _ Hc), (expect_delete_json "}" _ _ eq_refl Ee).
      split; [reflexivity|].
      apply (all_chars_skip_ws _ _) in Hs0. rewrite (expect_shape _ _ _ Ee) in Hs0.
      apply (all_chars_tail _ _ _ Hs0).
    - assert (Hc : calm (skip_ws r0) = true).
      { destruct f as [|f]; [discriminate|]. cbn [parse_members] in H.
        destruct (expect dquote (skip_ws r0)) as [r1|] eqn:E0; [|discriminate].
        rewrite (expect_shape _ _ _ E0). reflexivity. }
      rewrite (skip_ws_delete_json _ Hc), (expect_none_delete_json _ _ Hc Ee).
      apply (IHM r0 [] v r H Hs0 Hr). }
  destruct (Ascii.eqb c "[") eqn:E2.
  { destruct (expect "]" (skip_ws r0)) as [r'|] eqn:Ee.
    - injection H as <- <-.
      assert (Hc : calm (skip_ws r0) = true)
        by (rewrite (expect_shape _ _ _ Ee); reflexivity).
      rewrite (skip_ws_delete_json _ Hc), (expect_delete_json "]" _ _ eq_refl Ee).
      split; [reflexivity|].
      apply (all_chars_skip_ws _ _) in Hs0. rewrite (expect_shape _ _ _ Ee) in Hs0.
      apply (all_chars_tail _ _ _ Hs0).
    - assert (Hc : calm (skip_ws r0) = true).
      { destruct f as [|f]; [discriminate|]. cbn [parse_elements] in H.
        destruct (parse_value f r0) as [[v0 r1]|] eqn:Ev; [|discriminate].
        apply (parse_value_calm _ _ _ _ Ev). }
      rewrite (skip_ws_delete_json _ Hc), (expect_none_delete_json _ _ Hc Ee).
      apply (IHE r0 [] v r H Hs0 Hr). }
  destruct (Ascii.eqb c dquote) eqn:E3.
  { destruct (parse_string_body r0) as [[t r']|] eqn:Eb; [|discriminate].
    injection H as <- <-.
    destruct (parse_string_body_delete_json _ _ _ Hs0 Eb) as [-> Hr'].
    split; [reflexivity | exact Hr']. }
  assert (Hword : forall (w : string) (b : json),
            all_chars no_j w = true -> erase b = b ->
            expect_word w (String c r0) ≫= (fun r' => Some (b, r')) = Some (v, r) ->
            expect_word w (String c (delete_json r0)) ≫= (fun r' => Some (b, r'))
            = Some (erase v, delete_json r) /\
            all_chars no_backslash r = true).
  { intros w b Hw Hb Hx.
    destruct (expect_word w (String c r0)) as [r'|] eqn:Ew; [|discriminate].
    injection Hx as <- <-.
    destruct (expect_word_delete_json _ _ _ Hw Ew) as [Hd Hshape].
    rewrite (delete_json_calm _ _ Hcalm) in Hd. rewrite Hd, Hb.
    split; [reflexivity|].
    assert (Hall : all_chars no_backslash (String c r0) = true).
    { apply all_chars_skip_ws in Hs. rewrite Es in Hs. exact Hs. }
    rewrite Hshape, all_chars_app in Hall.
    apply andb_true_iff in Hall as [_ Hall]. exact Hall. }
  destruct (Ascii.eqb c "t") eqn:E4; [apply (Hword "true" _ eq_refl eq_refl H)|].
  destruct (Ascii.eqb c "f") eqn:E5; [apply (Hword "false" _ eq_refl eq_refl H)|].
  destruct (Ascii.eqb c "n") eqn:E6; [apply (Hword "null" _ eq_refl eq_refl H)|].
  clear Hword.
  destruct (parse_number (String c r0)) as [[lx r']|] eqn:En; [|discriminate].
  injection H as <- <-.
  destruct (parse_number_delete_json _ _ _ En Hr) as [Hd _].
  rewrite (delete_json_calm _ _ Hcalm) in Hd. rewrite Hd.
  split; [reflexivity|].
  apply (parse_number_rest _ _ _ _ En).
  apply all_chars_skip_ws in Hs. rewrite Es in Hs. exact Hs.
Qed.

Lemma erased_elements_step (f : nat) :
  erased_value f -> erased_elements f -> erased_elements (S f).
Proof.
  intros IHV IHE s acc v r H Hs Hr. cbn [parse_elements] in H |- *.
  destruct (parse_value f s) as [[v0 r0]|] eqn:Ev; [|discriminate].
  cbn [mbind option_bind] in H.
  destruct (next_separator_delete_json "]" r0 eq_refl) as [HC HX].
  destruct (next_separator "]" r0) as [r1|r1|] eqn:En; [| |discriminate].
  - destruct (HC r1 eq_refl) as (Hn & Hc0 & Hb).
    destruct (IHV _ _ _ Ev Hs Hc0) as [-> Hr0]. cbn [mbind option_bind].
    rewrite Hn.
    destruct (IHE _ _ _ _ H (Hb Hr0) Hr) as [Hd Hrest].
    rewrite List.map_app in Hd. split; [exact Hd | exact Hrest].
  - destruct (HX r1 eq_refl) as (Hn & Hc0 & Hb).
    destruct (IHV _ _ _ Ev Hs Hc0) as [-> Hr0]. cbn [mbind option_bind].
    rewrite Hn. injection H as <- <-.
    cbn [erase]. rewrite List.map_app. split; [reflexivity | apply (Hb Hr0)].
Qed.

Lemma erased_members_step (f : nat) :
  erased_value f -> erased_members f -> erased_members (S f).
Proof.
  intros IHV IHM s acc v r H Hs Hr. cbn [parse_members] in H |- *.
  pose proof (all_chars_skip_ws _ _ Hs) as Hs0.
  destruct (expect dquote (skip_ws s)) as [r0|] eqn:E0; [|discriminate].
  cbn [mbind option_bind] in H.
  assert (Hc : calm (skip_ws s) = true)
    by (rewrite (expect_shape _ _ _ E0); reflexivity).
  rewrite (skip_ws_delete_json _ Hc), (expect_delete_json dquote _ _ eq_refl E0).
  cbn [mbind option_bind].
  rewrite (expect_shape _ _ _ E0) in Hs0. apply all_chars_tail in Hs0.
  destruct (parse_string_body r0) as [[key r1]|] eqn:Ek; [|discriminate].
  cbn [mbind option_bind] in H.
  destruct (parse_string_body_delete_json _ _ _ Hs0 Ek) as [-> Hs1].
  cbn [mbind option_bind].
  pose proof (all_chars_skip_ws _ _ Hs1) as Hs1'.
  destruct (expect ":" (skip_ws r1)) as [r2|] eqn:E2; [|discriminate].
  cbn [mbind option_bind] in H.
  assert (Hc1 : calm (skip_ws r1) = true)
    by (rewrite (expect_shape _ _ _ E2); reflexivity).
  rewrite (skip_ws_delete_json _ Hc1), (expect_delete_json ":" _ _ eq_refl E2).
  cbn [mbind option_bind].
  rewrite (expect_shape _ _ _ E2) in Hs1'. apply all_chars_tail in Hs1'.
  destruct (parse_value f r2) as [[v0 r3]|] eqn:Ev; [|discriminate].
  cbn [mbind option_bind] in H.
  destruct (next_separator_delete_json "}" r3 eq_refl) as [HC HX].
  destruct (next_separator "}" r3) as [r4|r4|] eqn:En; [| |discriminate].
  - destruct (HC r4 eq_refl) as (Hn & Hc3 & Hb).
    destruct (IHV _ _ _ Ev Hs1' Hc3) as [-> Hr3]. cbn [mbind option_bind].
    rewrite Hn.
    destruct (IHM _ _ _ _ H (Hb Hr3) Hr) as [Hd Hrest].
    rewrite List.map_app in Hd. split; [exact Hd | exact Hrest].
  - destruct (HX r4 eq_refl) as (Hn & Hc3 & Hb).
    destruct (IHV _ _ _ Ev Hs1' Hc3) as [-> Hr3]. cbn [mbind option_bind].
    rewrite Hn. injection H as <- <-.
    cbn [erase]. rewrite List.map_app. split; [reflexivity | apply (Hb Hr3)].
Qed.

Lemma parse_erased (f : nat) :
  erased_value f /\ erased_elements f /\ erased_members f.
Proof.
  induction f as [|f (IHV & IHE & IHM)].
  - unfold erased_value, erased_elements, erased_members.
    repeat split; intros; discriminate.
  - split; [apply erased_value_step; assumption|].
    split; [apply erased_elements_step | apply erased_members_step]; assumption.
Qed.

(** [JSON.parse] after the deletion: on a text without a backslash the
    parse gives the value with the word deleted from its strings and member
    names. *)
Lemma JSON_parse_delete_json (s : string) (v : json) :
  all_chars no_backslash s = true ->
  JSON_parse s = Some v ->
  JSON_parse (delete_json s) = Some (erase v).
Proof.
  intros Hs. unfold JSON_parse at 1.
  destruct (parse_value (2 * String.length s + 2) s) as [[v0 r]|] eqn:E;
    [|discriminate].
  cbn [mbind option_bind].
  destruct (skip_ws r) as [|c x] eqn:Er; [|discriminate]. intros [= <-].
  assert (Hc : calm r = true) by (apply calm_skip_ws; rewrite Er; reflexivity).
  destruct (parse_erased (2 * String.length s + 2)) as (HV & _ & _).
  destruct (HV _ _ _ E Hs Hc) as [Hd _].
  unfold JSON_parse. rewrite (JSON_parse_fuel _ _ _ _ Hd). cbn [mbind option_bind].
  rewrite (skip_ws_delete_json r) by (rewrite Er; reflexivity).
  rewrite Er. reflexivity.
Qed.

(** ** What the deletion changes *)

Lemma delete_json_same (s : string) :
  contains_json s = false -> delete_json s = s.
Proof.
  unfold contains_json. intros H. rewrite delete_json_find.
  destruct (find_json s); [discriminate | reflexivity].
Qed.

Lemma delete_json_differs (s : string) :
  contains_json s = true -> delete_json s <> s.
Proof.
  intros H E. apply delete_json_shorter in H. rewrite E in H. lia.
Qed.

Lemma map_fixed {A : Type} (f : A -> A) (l : list A) :
  List.map f l = l -> forall x, In x l -> f x = x.
Proof.
  induction l as [|a l IH]; intros E x Hx; [destruct Hx|].
  cbn [List.map] in E. injection E as Ea El.
  destruct Hx as [<- | Hx]; [exact Ea | apply (IH El _ Hx)].
Qed.

Lemma erase_differs (x : json) : mentions_json x = true -> erase x <> x.
Proof.
  induction x as [| | | s | items IH | members IH] using json_induction;
    cbn [mentions_json erase]; try discriminate.
  - intros H E. injection E as E. apply (delete_json_differs _ H E).
  - intros H E. injection E as E.
    apply existsb_exists in H as (item & Hin & Hm).
    rewrite List.Forall_forall in IH.
    apply (IH item Hin Hm). apply (map_fixed _ _ E _ Hin).
  - intros H E. injection E as E.
    apply existsb_exists in H as (m & Hin & Hm).
    rewrite List.Forall_forall in IH.
    pose proof (map_fixed _ _ E _ Hin) as Hfix.
    destruct m as [k x]. cbn [fst snd] in *. injection Hfix as Hk Hx.
    apply orb_true_iff in Hm as [Hm | Hm].
    + apply (delete_json_differs _ Hm Hk).
    + apply (IH _ Hin Hm Hx).
Qed.

Lemma or_default_differs (x d : json) :
  mentions_json x = true -> mentions_json d = false ->
  or_default (Some (erase x)) d <> x.
Proof.
  intros Hx Hd. cbn [or_default]. destruct (Json.truthy (erase x)).
  - apply (erase_differs _ Hx).
  - intros E. rewrite E in Hd. congruence.
Qed.

(** The members of an object no name of which holds the word, looked up
    after the deletion. *)
Lemma lookup_member_erased (k : string) (members : list (string * json)) :
  forallb (fun m => negb (contains_json (fst m))) members = true ->
  lookup_member k (List.map erase_member members)
  = erase <$> lookup_member k members.
Proof.
  induction members as [|[k' x] members IH]; intros H; [reflexivity|].
  cbn [forallb fst] in H. apply andb_true_iff in H as [Hk Hm].
  apply negb_true_iff in Hk.
  cbn [List.map lookup_member erase_member fst snd].
  rewrite (IH Hm), (delete_json_same _ Hk).
  destruct (lookup_member k members); [reflexivity|].
  destruct (String.eqb k k'); reflexivity.
Qed.

Lemma field_differs_erased (members : list (string * json)) (k : string) (d : json) :
  plain_names (JObject members) = true ->
  mentions_json d = false ->
  field_differs members k
    (or_default (lookup_member k (List.map erase_member members)) d).
Proof.
  intros Hn Hd x Hx Hm. cbn [plain_names] in Hn.
  rewrite (lookup_member_erased _ _ Hn), Hx. apply (or_default_differs _ _ Hm Hd).
Qed.

(** The deletion on a candidate that holds an object between two texts. *)
Lemma delete_json_embedded (before inner after : string) :
  delete_json (Prose.embedded before inner after)
  = Prose.embedded (delete_json before) (delete_json inner) (delete_json after).
Proof.
  rewrite !embedded_shape.
  rewrite (delete_json_around_other "{" _ eq_refl _ before (le_n _)).
  rewrite (delete_json_around_other "}" _ eq_refl _ inner (le_n _)).
  reflexivity.
Qed.

Lemma extract_candidate_empty : extract_candidate EmptyString = EmptyString.
Proof. vm_compute. reflexivity. Qed.

(** The adapter on a reply whose candidate is an object, without a
    backslash, between two texts without braces: the value parsed is the
    object with the word deleted. *)
Lemma cleanGeminiResponse_erased (rawResponse before inner after : string)
    (parsed : json) :
  extract_candidate rawResponse = Prose.embedded before inner after ->
  all_chars no_backtick (Prose.embedded before inner after) = true ->
  all_chars Prose.outside_braces before = true ->
  all_chars Prose.outside_braces after = true ->
  all_chars no_backslash inner = true ->
  JSON_parse ("{" +:+ inner +:+ "}") = Some parsed ->
  cleanup (extract_candidate rawResponse) = delete_json ("{" +:+ inner +:+ "}") /\
  cleanGeminiResponse rawResponse = normalize (erase parsed).
Proof.
  intros Hc Ht Hb Ha Hi Hp.
  assert (Hclean :
    cleanup (extract_candidate rawResponse) = delete_json ("{" +:+ inner +:+ "}")).
  { rewrite Hc.
    rewrite (cleanup_embedded _ (delete_json before) (delete_json inner)
               (delete_json after) Ht (delete_json_embedded _ _ _)
               (all_chars_delete_json _ _ Hb 0) (all_chars_delete_json _ _ Ha 0)).
    symmetry. apply delete_json_braced. }
  split; [exact Hclean|].
  unfold cleanGeminiResponse.
  replace (JsString.truthy rawResponse) with true.
  2:{ destruct rawResponse; [|reflexivity].
      rewrite extract_candidate_empty, embedded_shape in Hc.
      destruct before; discriminate. }
  cbn [negb]. rewrite Hclean.
  rewrite (JSON_parse_delete_json _ parsed); [reflexivity | | exact Hp].
  change ("{" +:+ inner +:+ "}") with (String "{" (inner +:+ "}")).
  cbn [all_chars]. rewrite all_chars_app, Hi. reflexivity.
Qed.

End Erased.




(** Where a member name holds the word the deletion can merge members, and a
    field can come back with the value it has in the reply: here the
    summary is [json] in the reply, and [json] is returned, made of
    [jsjsonon], the value of the member whose name becomes [summary]. *)
Lemma merged_members_return_the_raw_value :
  JSON_parse Examples.merging_response =
    Some (JObject [("summary", JString "json"); ("sumjsonmary", JString "jsjsonon")]) /\
  Adapter.delete_json Examples.merging_response =
    "{" +:+ Examples.quoted "summary" +:+ ":" +:+ Examples.quoted "" +:+ ","
    +:+ Examples.quoted "summary" +:+ ":" +:+ Examples.quoted "json" +:+ "}" /\
  Adapter.cleanGeminiResponse Examples.merging_response =
    Adapter.Insight
      {| Adapter.summary := JString "json";
         Adapter.issues := JArray [];
         Adapter.suggestions := JArray [];
         Adapter.before_after := JNull;
         Adapter.notes := JString "No notes provided." |}.
Proof. vm_compute. repeat split; reflexivity. Qed.

Section Fence.
Import Adapter Prose.

Lemma any_char_matches (ic : bool) (ch : ascii) :
  set_matches ic false [CSpace; CNonSpace] ch = true.
Proof.
  unfold set_matches. cbn. destruct (is_space ch); reflexivity.
Qed.

Lemma lazy_any_to_fence {R} (k : nat -> string -> caps -> option R)
    (g : nat -> string) (after : string) (x : R) (body : string) :
  all_chars no_backtick body = true ->
  forall (i : nat) (c : caps),
    k (i + String.length body + 3) after (<[1 := Some (g (i + String.length body))]> c)
      = Some x ->
    rmatch true (RStar false any_char) i (body +:+ "```" +:+ after) c
      (fun j s' c' => rmatch true (RLit "```") j s' (<[1 := Some (g j)]> c') k)
    = Some x.
Proof.
  induction body as [|ch t IH]; intros H i c Hk.
  - cbn [String.length] in Hk. rewrite Nat.add_0_r in Hk.
    rewrite append_empty.
    change ("```" +:+ after) with (String "`" (String "`" (String "`" after))).
    cbn.
    replace (S (S (S i))) with (i + 3) by lia. rewrite Hk. reflexivity.
  - cbn [all_chars] in H. apply andb_true_iff in H as [Hc Ht].
    unfold no_backtick in Hc. apply andb_true_iff in Hc as [Hc _].
    apply negb_true_iff in Hc.
    cbn [String.length] in Hk.
    replace (i + S (String.length t)) with (S i + String.length t) in Hk by lia.
    specialize (IH Ht (S i) c Hk). cbn [rmatch] in IH.
    rewrite append_cons.
    cbn [rmatch String.length orElse any_char clear_groups groups_of fold_right RLit].
    unfold canon at 1 2. rewrite Hc, any_char_matches, succ_eqb. cbn [orElse].
    exact IH.
Qed.

(** No fence begins at a character other than a backtick. *)
Lemma match_at_fence_none (ch : ascii) (s : string) (i : nat) :
  no_backtick ch = true -> match_at fence_re i (String ch s) = None.
Proof.
  intros Hc. unfold no_backtick in Hc. apply andb_true_iff in Hc as [Hc _].
  apply negb_true_iff in Hc.
  unfold match_at. cbn -[Ascii.eqb]. rewrite Hc. reflexivity.
Qed.

Lemma search_fence_skips (before rest : string) :
  all_chars no_backtick before = true ->
  forall i : nat,
    search_from fence_re i (before +:+ rest)
    = search_from fence_re (i + String.length before) rest.
Proof.
  induction before as [|ch t IH]; intros H i.
  - rewrite append_empty, Nat.add_0_r. reflexivity.
  - cbn [all_chars] in H. apply andb_true_iff in H as [Hc Ht].
    rewrite append_cons. cbn [search_from String.length].
    rewrite (match_at_fence_none _ _ _ Hc), (IH Ht). f_equal. lia.
Qed.

(** The match of [fence_re] at an opening fence with its tag. *)
Lemma match_at_fence (w body after : string) (i : nat) :
  is_json_word w = true ->
  all_chars no_backtick body = true ->
  exists m : match_result,
    match_at fence_re i ("```" +:+ w +:+ body +:+ "```" +:+ after) = Some m /\
    group m 1 = Some body.
Proof.
  intros Hw Hb.
  unfold is_json_word, starts_with_json in Hw.
  destruct w as [|c1 [|c2 [|c3 [|c4 [|c5 w]]]]]; try discriminate;
    [|cbn in Hw; rewrite andb_false_r in Hw; discriminate].
  rewrite andb_true_r in Hw. unfold same_letter in Hw.
  apply andb_true_iff in Hw as [Hw H4]. apply andb_true_iff in Hw as [Hw H3].
  apply andb_true_iff in Hw as [H1 H2].
  change ("```" +:+ String c1 (String c2 (String c3 (String c4 EmptyString)))
            +:+ body +:+ "```" +:+ after)
    with (String "`" (String "`" (String "`" (String c1 (String c2 (String c3
            (String c4 (body +:+ "```" +:+ after)))))))).
  unfold match_at.
  cbn [re_ignoreCase re_body re_groups fence_re RSeqs].
  set (s0 := body +:+ "```" +:+ after).
  set (k := fun (i' : nat) (_ : string) (c' : caps) =>
              Some (MatchResult i i'
                      (<[0 := Some (take (i' - i)
                                (String "`" (String "`" (String "`" (String c1
                                   (String c2 (String c3 (String c4 s0))))))))]> c'))).
  change (rmatch true (RSeq (RLit "```json") ?r) i _ ?c k)
    with (if Ascii.eqb (toUpperChar "j") (toUpperChar c1) then
            if Ascii.eqb (toUpperChar "s") (toUpperChar c2) then
              if Ascii.eqb (toUpperChar "o") (toUpperChar c3) then
                if Ascii.eqb (toUpperChar "n") (toUpperChar c4) then
                  rmatch true r (7 + i) s0 c k
                else None else None else None else None).
  rewrite H1, H2, H3, H4.
  change (rmatch true (RSeq (RGroup 1 (RStar false any_char)) (RLit "```")) (7 + i) s0
            (replicate 2 None) k)
    with (rmatch true (RStar false any_char) (7 + i) s0 (replicate 2 None)
            (fun j s' c' =>
               rmatch true (RLit "```") j s'
                 (<[1 := Some ((fun j => take (j - (7 + i)) s0) j)]> c') k)).
  eexists. split.
  - apply (lazy_any_to_fence k (fun j => take (j - (7 + i)) s0) after _ body Hb).
    reflexivity.
  - unfold group. cbn [m_caps].
    change (mjoin (Some (Some (take (7 + i + String.length body - (7 + i)) s0)))
            = Some body).
    replace (7 + i + String.length body - (7 + i)) with (String.length body) by lia.
    unfold s0. rewrite take_app_exact. reflexivity.
Qed.

Lemma fence_interior_fenced (before w body after : string) :
  all_chars no_backtick before = true ->
  is_json_word w = true ->
  all_chars no_backtick body = true ->
  body <> EmptyString ->
  fence_interior (before +:+ "```" +:+ w +:+ body +:+ "```" +:+ after) = Some body.
Proof.
  intros Hp Hw Hb Hne. unfold fence_interior, str_match.
  rewrite (search_fence_skips _ _ Hp).
  destruct (match_at_fence w body after (0 + String.length before) Hw Hb)
    as (m & Hm & Hg).
  change ("```" +:+ w +:+ body +:+ "```" +:+ after)
    with (String "`" ("``" +:+ w +:+ body +:+ "```" +:+ after)) in Hm |- *.
  cbn [search_from]. rewrite Hm. cbn [mbind option_bind]. rewrite Hg.
  cbn [mbind option_bind]. rewrite (truthy_nonempty _ Hne). reflexivity.
Qed.

End Fence.

(** X9.  A fence that opens with three backticks and the word [json], in any
    mix of cases, and closes with three backticks is found wherever it
    stands: when no backtick comes before it or inside it and its interior
    is not empty, the interior is the candidate, whatever braces or fences
    the text before and after holds. *)
Theorem first_json_fence_is_the_candidate (before w body after : string) :
  all_chars Adapter.no_backtick before = true ->
  Adapter.is_json_word w = true ->
  all_chars Adapter.no_backtick body = true ->
  body <> EmptyString ->
  Adapter.extract_candidate (before +:+ "```" +:+ w +:+ body +:+ "```" +:+ after)
  = body.
Proof.
  intros Hp Hw Hb Hne. unfold Adapter.extract_candidate.
  rewrite (fence_interior_fenced _ _ _ _ Hp Hw Hb Hne). reflexivity.
Qed.

Lemma first_json_fence_is_the_candidate_witness :
  Adapter.extract_candidate
    ("{draft} " +:+ "```" +:+ "JSON" +:+ (nl +:+ Examples.insight_object +:+ nl)
       +:+ "```" +:+ " and ```json{}```")
  = nl +:+ Examples.insight_object +:+ nl.
Proof.
  apply (first_json_fence_is_the_candidate "{draft} " "JSON"
           (nl +:+ Examples.insight_object +:+ nl) " and ```json{}```");
    [reflexivity | reflexivity | reflexivity | discriminate].
Defined.

(* ===================================================================== *)
(** * The insight returned *)
(* ===================================================================== *)

Section Normalize.
Import Adapter Prose.

Lemma or_default_truthy (x : option json) (d : json) :
  Json.truthy d = true -> Json.truthy (or_default x d) = true.
Proof.
  intros Hd. destruct x as [v|]; cbn [or_default]; [|exact Hd].
  destruct (Json.truthy v) eqn:Hv; [exact Hv | exact Hd].
Qed.

Lemma or_default_null (x : option json) :
  or_default x JNull = JNull \/ Json.truthy (or_default x JNull) = true.
Proof.
  destruct x as [v|]; cbn [or_default]; [|left; reflexivity].
  destruct (Json.truthy v) eqn:Hv; [right; exact Hv | left; reflexivity].
Qed.

Lemma normalize_fields (parsed : json) (r : AIInsight) :
  normalize parsed = Insight r ->
  Json.truthy (summary r) = true /\
  Json.truthy (issues r) = true /\
  Json.truthy (suggestions r) = true /\
  Json.truthy (notes r) = true /\
  (before_after r = JNull \/ Json.truthy (before_after r) = true).
Proof.
  intros H.
  assert (E : r = {| summary := or_default (get parsed "summary") (JString "No summary provided.");
                     issues := or_default (get parsed "issues") (JArray []);
                     suggestions := or_default (get parsed "suggestions") (JArray []);
                     before_after := or_default (get parsed "before_after") JNull;
                     notes := or_default (get parsed "notes") (JString "No notes provided.") |}).
  { destruct parsed; cbn [normalize] in H; try discriminate; injection H as <-;
      reflexivity. }
  rewrite E. cbn [summary issues suggestions notes before_after].
  repeat split; try (apply or_default_truthy; reflexivity).
  apply or_default_null.
Qed.

End Normalize.

(** A number is falsy when its double is zero: the digits of [1e-400] are
    not zero, its double is, and the placeholder takes its place. *)
Lemma tiny_number_is_falsy :
  Json.truthy (JNumber "1e-400") = false /\
  Json.truthy (JNumber "5e-324") = true /\
  Adapter.cleanGeminiResponse
    ("{" +:+ Examples.quoted "summary" +:+ ":1e-400,"
     +:+ Examples.quoted "notes" +:+ ":" +:+ Examples.quoted "n" +:+ "}") =
    Adapter.Insight
      {| Adapter.summary := JString "No summary provided.";
         Adapter.issues := JArray [];
         Adapter.suggestions := JArray [];
         Adapter.before_after := JNull;
         Adapter.notes := JString "n" |}.
Proof. vm_compute. repeat split; reflexivity. Qed.

(** X10.  Whatever the reply, an insight that [cleanGeminiResponse] returns
    has no falsy field but possibly [before_after]: summary, issues,
    suggestions and notes are the truthy values of the reply or their
    placeholders, and [before_after] is a truthy value or [null]. *)
Theorem insight_fields_are_never_falsy (rawResponse : string) (r : Adapter.AIInsight) :
  Adapter.cleanGeminiResponse rawResponse = Adapter.Insight r ->
  Json.truthy (Adapter.summary r) = true /\
  Json.truthy (Adapter.issues r) = true /\
  Json.truthy (Adapter.suggestions r) = true /\
  Json.truthy (Adapter.notes r) = true /\
  (Adapter.before_after r = JNull \/ Json.truthy (Adapter.before_after r) = true).
Proof.
  unfold Adapter.cleanGeminiResponse.
  destruct (negb (JsString.truthy rawResponse)); [discriminate|].
  destruct (JSON_parse (Adapter.cleanup (Adapter.extract_candidate rawResponse)))
    as [parsed|]; [apply normalize_fields|].
  destruct (JSON_parse
              (Adapter.auto_fix (Adapter.cleanup (Adapter.extract_candidate rawResponse))))
    as [parsed|]; [apply normalize_fields | discriminate].
Qed.

Lemma insight_fields_are_never_falsy_witness :
  Json.truthy (JString "No summary provided.") = true /\
  Json.truthy (JArray []) = true /\
  Json.truthy (JArray []) = true /\
  Json.truthy (JString "No notes provided.") = true /\
  (JNull = JNull \/ Json.truthy JNull = true).
Proof.
  apply (insight_fields_are_never_falsy
           ("{" +:+ Examples.quoted "summary" +:+ ":" +:+ Examples.quoted ""
              +:+ "," +:+ Examples.quoted "issues" +:+ ":0}")
           Prose.placeholders).
  reflexivity.
Defined.

(* ===================================================================== *)
(** * The matcher finds matches of the pattern only *)
(* ===================================================================== *)

Section Soundness.
Import RegexLanguage.

Lemma clear_groups_length (r : regex) (c : caps) :
  length (clear_groups r c) = length c.
Proof.
  unfold clear_groups, caps in *.
  induction (groups_of r) as [|n l IH]; [reflexivity|].
  cbn [fold_right]. rewrite length_insert. exact IH.
Qed.

Lemma clear_groups_lookup (r : regex) (c : caps) (n : nat) :
  n ∉ groups_of r -> clear_groups r c !! n = c !! n.
Proof.
  unfold clear_groups, caps in *.
  induction (groups_of r) as [|m l IH]; intros Hn; [reflexivity|].
  apply not_elem_of_cons in Hn as [Hne Hn]. cbn [fold_right].
  rewrite list_lookup_insert_ne by congruence. apply (IH Hn).
Qed.

Lemma mandatory_in_groups (n : nat) (r : regex) :
  mandatory n r = true -> n ∈ groups_of r.
Proof.
  induction r as [| a | | neg items | | | r1 IH1 r2 IH2 | r1 IH1 r2 IH2
                 | g r1 IH1 | g r1 IH1 | m r1 IH1];
    cbn [mandatory groups_of]; try discriminate.
  - intros H. apply orb_true_iff in H as [H|H]; apply elem_of_app; auto.
  - intros H. apply andb_true_iff in H as [H _]. apply elem_of_app; auto.
  - intros H. apply orb_true_iff in H as [H|H].
    + apply Nat.eqb_eq in H as ->. apply elem_of_cons; auto.
    + apply elem_of_cons; auto.
Qed.

Lemma captured_seq_l (ic : bool) (r1 r2 : regex) (n : nat) (c : caps) :
  captured ic r1 n c -> captured ic (RSeq r1 r2) n c.
Proof.
  intros (v & body & Hc & Hb & Hm). exists v, body.
  cbn [group_bodies]. rewrite elem_of_app. auto.
Qed.

Lemma captured_seq_r (ic : bool) (r1 r2 : regex) (n : nat) (c : caps) :
  captured ic r2 n c -> captured ic (RSeq r1 r2) n c.
Proof.
  intros (v & body & Hc & Hb & Hm). exists v, body.
  cbn [group_bodies]. rewrite elem_of_app. auto.
Qed.

Lemma captured_alt_l (ic : bool) (r1 r2 : regex) (n : nat) (c : caps) :
  captured ic r1 n c -> captured ic (RAlt r1 r2) n c.
Proof.
  intros (v & body & Hc & Hb & Hm). exists v, body.
  cbn [group_bodies]. rewrite elem_of_app. auto.
Qed.

Lemma captured_alt_r (ic : bool) (r1 r2 : regex) (n : nat) (c : caps) :
  captured ic r2 n c -> captured ic (RAlt r1 r2) n c.
Proof.
  intros (v & body & Hc & Hb & Hm). exists v, body.
  cbn [group_bodies]. rewrite elem_of_app. auto.
Qed.

Lemma rmatch_sound {R} (ic : bool) (r : regex) :
  forall (i : nat) (s : string) (c : caps)
         (k : nat -> string -> caps -> option R) (x : R),
    NoDup (groups_of r) ->
    (forall n : nat, n ∈ groups_of r -> n < length c) ->
    rmatch ic r i s c k = Some x ->
    sound ic r i s c k x.
Proof.
  induction r as [| a | | neg items | | | r1 IH1 r2 IH2 | r1 IH1 r2 IH2
                 | g r1 IH1 | g r1 IH1 | m r1 IH1];
    intros i s c k x Hnd Hlt H; cbn [rmatch] in H; unfold sound, caps in *.
  - exists EmptyString, s, c. cbn [String.length]. rewrite Nat.add_0_r.
    repeat split; [constructor | exact H | discriminate].
  - destruct s as [|ch s]; [discriminate|].
    destruct (Ascii.eqb _ _) eqn:E; [|discriminate].
    exists (String ch EmptyString), s, c. cbn [String.length].
    rewrite Nat.add_1_r.
    repeat split; [constructor; exact E | exact H | discriminate].
  - destruct s as [|ch s]; [discriminate|].
    destruct (is_line_terminator ch) eqn:E; [discriminate|].
    exists (String ch EmptyString), s, c. cbn [String.length].
    rewrite Nat.add_1_r.
    repeat split; [constructor; exact E | exact H | discriminate].
  - destruct s as [|ch s]; [discriminate|].
    destruct (set_matches _ _ _ _) eqn:E; [|discriminate].
    exists (String ch EmptyString), s, c. cbn [String.length].
    rewrite Nat.add_1_r.
    repeat split; [constructor; exact E | exact H | discriminate].
  - destruct (i =? 0); [|discriminate].
    exists EmptyString, s, c. cbn [String.length]. rewrite Nat.add_0_r.
    repeat split; [constructor | exact H | discriminate].
  - destruct s; [|discriminate].
    exists EmptyString, EmptyString, c. cbn [String.length]. rewrite Nat.add_0_r.
    repeat split; [constructor | exact H | discriminate].
  - (* RSeq *)
    cbn [groups_of] in Hnd, Hlt. apply NoDup_app in Hnd as (Hnd1 & Hdis & Hnd2).
    apply IH1 in H as (u1 & s1 & c1 & -> & Hm1 & Hk1 & Hl1 & Hp1 & Hc1);
      [| exact Hnd1 | intros n Hn; apply Hlt, elem_of_app; auto].
    apply IH2 in Hk1 as (u2 & s2 & c2 & -> & Hm2 & Hk2 & Hl2 & Hp2 & Hc2);
      [| exact Hnd2 | intros n Hn; rewrite Hl1; apply Hlt, elem_of_app; auto].
    exists (u1 +:+ u2), s2, c2. repeat split.
    + rewrite append_assoc. reflexivity.
    + constructor; assumption.
    + rewrite append_length, Nat.add_assoc. exact Hk2.
    + congruence.
    + intros n Hn. cbn [groups_of] in Hn. apply not_elem_of_app in Hn as [Hn1 Hn2].
      rewrite (Hp2 n Hn2). apply (Hp1 n Hn1).
    + intros n Hn. cbn [mandatory] in Hn.
      destruct (mandatory n r2) eqn:E2.
      * apply captured_seq_r, Hc2, E2.
      * rewrite orb_false_r in Hn. apply captured_seq_l.
        destruct (Hc1 n Hn) as (v & body & Hv & Hb & Hm).
        exists v, body. repeat split; [|exact Hb | exact Hm].
        rewrite Hp2; [exact Hv|]. apply Hdis, mandatory_in_groups, Hn.
  - (* RAlt *)
    cbn [groups_of] in Hnd, Hlt. apply NoDup_app in Hnd as (Hnd1 & Hdis & Hnd2).
    apply orElse_some in H as [H|H].
    + apply IH1 in H as (u & s' & c' & -> & Hm & Hk & Hl & Hp & Hc);
        [| exact Hnd1 | intros n Hn; apply Hlt, elem_of_app; auto].
      exists u, s', c'. repeat split; auto.
      * apply MAltL, Hm.
      * intros n Hn. cbn [groups_of] in Hn. apply not_elem_of_app in Hn as [Hn1 _].
        apply (Hp n Hn1).
      * intros n Hn. cbn [mandatory] in Hn. apply andb_true_iff in Hn as [Hn _].
        apply captured_alt_l, Hc, Hn.
    + apply IH2 in H as (u & s' & c' & -> & Hm & Hk & Hl & Hp & Hc);
        [| exact Hnd2 | intros n Hn; apply Hlt, elem_of_app; auto].
      exists u, s', c'. repeat split; auto.
      * apply MAltR, Hm.
      * intros n Hn. cbn [groups_of] in Hn. apply not_elem_of_app in Hn as [_ Hn2].
        apply (Hp n Hn2).
      * intros n Hn. cbn [mandatory] in Hn. apply andb_true_iff in Hn as [_ Hn].
        apply captured_alt_r, Hc, Hn.
  - (* RStar *)
    cbn [groups_of] in Hnd, Hlt.
    remember (String.length s) as fuel eqn:E. clear E.
    revert i s c Hlt H. induction fuel as [|fuel IHf]; intros i s c Hlt H.
    + assert (Hk : k i s c = Some x)
        by (destruct g; apply orElse_some in H as [H|H]; try discriminate; exact H).
      exists EmptyString, s, c. cbn [String.length]. rewrite Nat.add_0_r.
      repeat split; [constructor | exact Hk | discriminate].
    + assert (Hit :
        rmatch ic r1 i s (clear_groups r1 c)
          (fun i' s' c' =>
             if i' =? i then None
             else (fix loop (fuel : nat) (i : nat) (s : string) (c : caps)
                     {struct fuel} : option R :=
                     let iterate (_ : unit) :=
                       match fuel with
                       | 0 => None
                       | S fuel' =>
                           rmatch ic r1 i s (clear_groups r1 c)
                             (fun i' s' c' =>
                                if i' =? i then None else loop fuel' i' s' c')
                       end in
                     if g then orElse (iterate tt) (fun _ => k i s c)
                     else orElse (k i s c) iterate) fuel i' s' c') = Some x ->
        sound ic (RStar g r1) i s c k x).
      { intros Hit.
        apply IH1 in Hit as (u1 & s1 & c1 & -> & Hm1 & Hk1 & Hl1 & Hp1 & _);
          [| exact Hnd | intros n Hn; rewrite clear_groups_length; apply Hlt, Hn].
        destruct (i + String.length u1 =? i); [discriminate|].
        apply IHf in Hk1 as (u2 & s2 & c2 & -> & Hm2 & Hk2 & Hl2 & Hp2 & _);
          [| intros n Hn; rewrite Hl1, clear_groups_length; apply Hlt, Hn].
        exists (u1 +:+ u2), s2, c2. repeat split.
        - rewrite append_assoc. reflexivity.
        - constructor; assumption.
        - rewrite append_length, Nat.add_assoc. exact Hk2.
        - rewrite Hl2, Hl1. apply clear_groups_length.
        - intros n Hn. cbn [groups_of] in *.
          transitivity (c1 !! n); [apply Hp2, Hn|].
          transitivity (clear_groups r1 c !! n);
            [apply Hp1, Hn | apply clear_groups_lookup, Hn].
        - discriminate. }
      assert (Hk : k i s c = Some x -> sound ic (RStar g r1) i s c k x).
      { intros Hk. exists EmptyString, s, c. cbn [String.length].
        rewrite Nat.add_0_r.
        repeat split; [constructor | exact Hk | discriminate]. }
      destruct g; apply orElse_some in H as [H|H];
        first [exact (Hit H) | exact (Hk H)].
  - (* ROpt *)
    cbn [groups_of] in Hnd, Hlt.
    assert (Hk : k i s c = Some x -> sound ic (ROpt g r1) i s c k x).
    { intros Hk. exists EmptyString, s, c. cbn [String.length].
      rewrite Nat.add_0_r.
      repeat split; [constructor | exact Hk | discriminate]. }
    assert (Hit :
      rmatch ic r1 i s (clear_groups r1 c)
        (fun i' s' c' => if i' =? i then None else k i' s' c') = Some x ->
      sound ic (ROpt g r1) i s c k x).
    { intros Hit.
      apply IH1 in Hit as (u1 & s1 & c1 & -> & Hm1 & Hk1 & Hl1 & Hp1 & _);
        [| exact Hnd | intros n Hn; rewrite clear_groups_length; apply Hlt, Hn].
      destruct (i + String.length u1 =? i); [discriminate|].
      exists u1, s1, c1. repeat split.
      - apply MOptSome, Hm1.
      - exact Hk1.
      - rewrite Hl1. apply clear_groups_length.
      - intros n Hn. cbn [groups_of] in *.
        transitivity (clear_groups r1 c !! n);
          [apply Hp1, Hn | apply clear_groups_lookup, Hn].
      - discriminate. }
    destruct g; apply orElse_some in H as [H|H];
      first [exact (Hit H) | exact (Hk H)].
  - (* RGroup *)
    cbn [groups_of] in Hnd, Hlt. apply NoDup_cons in Hnd as [Hm Hnd].
    apply IH1 in H as (u & s' & c' & -> & Hmu & Hk & Hl & Hp & Hc);
      [| exact Hnd | intros n Hn; apply Hlt, elem_of_cons; auto].
    replace (i + String.length u - i) with (String.length u) in Hk by lia.
    rewrite take_app_exact in Hk.
    exists u, s', (<[m := Some u]> c'). repeat split.
    + apply MGroup, Hmu.
    + exact Hk.
    + rewrite length_insert. exact Hl.
    + intros n Hn. cbn [groups_of] in Hn. apply not_elem_of_cons in Hn as [Hne Hn].
      transitivity (c' !! n); [apply list_lookup_insert_ne; congruence|].
      apply (Hp n Hn).
    + intros n Hn. cbn [mandatory] in Hn.
      destruct (m =? n) eqn:E.
      * apply Nat.eqb_eq in E as <-. exists u, r1. repeat split.
        -- apply list_lookup_insert_eq. rewrite Hl. apply Hlt, elem_of_cons; auto.
        -- cbn [group_bodies]. rewrite Nat.eqb_refl. apply elem_of_app. left.
           apply elem_of_cons. left. reflexivity.
        -- exact Hmu.
      * cbn [orb] in Hn. destruct (Hc n Hn) as (v & body & Hv & Hb & Hmb).
        exists v, body. repeat split.
        -- apply Nat.eqb_neq in E.
           transitivity (c' !! n); [apply list_lookup_insert_ne, E | exact Hv].
        -- cbn [group_bodies]. rewrite E. exact Hb.
        -- exact Hmb.
Qed.

End Soundness.

(* ===================================================================== *)
(** * The endpoints of the scanners *)
(* ===================================================================== *)

Section EndpointShapes.
Import RegexLanguage Shapes.

Ltac each_char c := destruct c as [[] [] [] [] [] [] [] []].

Lemma canon_upper (ic : bool) (a ch : ascii) :
  Ascii.eqb (canon ic a) (canon ic ch) = true -> toUpperChar ch = toUpperChar a.
Proof.
  intros H. apply Ascii.eqb_eq in H. destruct ic; cbn [canon] in H; congruence.
Qed.

Lemma matches_lit_upper (ic : bool) (w : string) :
  forall u : string, matches ic (RLit w) u -> toUpperCase u = toUpperCase w.
Proof.
  induction w as [|a w IH]; intros u H.
  - inversion H; subst. reflexivity.
  - destruct w as [|b w].
    + inversion H; subst. cbn [toUpperCase]. f_equal. eapply canon_upper; eauto.
    + change (RLit (String a (String b w)))
        with (RSeq (RChar a) (RLit (String b w))) in H.
      inversion H as [| | | | | | r1 r2 u1 v H1 H2 | | | | | | |]; subst.
      inversion H1; subst. rewrite append_cons, append_empty.
      cbn [toUpperCase]. f_equal; [eapply canon_upper; eauto | apply (IH _ H2)].
Qed.

Lemma matches_alts_lit (ic : bool) (ws : list string) :
  forall u : string,
    ws <> [] ->
    matches ic (RAlts (List.map RLit ws)) u ->
    exists w : string, w ∈ ws /\ toUpperCase u = toUpperCase w.
Proof.
  induction ws as [|w ws IH]; intros u Hne H; [congruence|].
  destruct ws as [|w' ws].
  - exists w. split; [apply elem_of_cons; auto | apply (matches_lit_upper _ _ _ H)].
  - change (RAlts (List.map RLit (w :: w' :: ws)))
      with (RAlt (RLit w) (RAlts (List.map RLit (w' :: ws)))) in H.
    inversion H; subst.
    + exists w. split; [apply elem_of_cons; auto | eapply matches_lit_upper; eauto].
    + destruct (IH u) as (w0 & Hw & Hu); [congruence | assumption |].
      exists w0. split; [apply elem_of_cons; auto | exact Hu].
Qed.

Lemma member_upper (x w : string) (ws : list string) :
  w ∈ ws -> x = toUpperCase w -> member x (List.map toUpperCase ws) = true.
Proof.
  intros Hw ->. unfold member. apply existsb_exists. exists (toUpperCase w).
  split; [|apply String.eqb_refl].
  apply in_map, list_elem_of_In, Hw.
Qed.

Lemma matches_star_set (ic g neg : bool) (items : list citem) (u : string) :
  matches ic (RStar g (RSet neg items)) u ->
  all_chars (set_matches ic neg items) u = true.
Proof.
  remember (RStar g (RSet neg items)) as r eqn:E. intros H.
  induction H; try discriminate; [reflexivity|].
  injection E as -> ->. inversion H; subst.
  rewrite append_cons, append_empty. cbn [all_chars].
  rewrite IHmatches2 by reflexivity.
  match goal with Hs : set_matches _ _ _ _ = true |- _ => rewrite Hs end.
  reflexivity.
Qed.

Lemma matches_plus_set (ic g neg : bool) (items : list citem) (u : string) :
  matches ic (RPlus g (RSet neg items)) u ->
  JsString.truthy u = true /\ all_chars (set_matches ic neg items) u = true.
Proof.
  unfold RPlus. intros H.
  inversion H as [| | | | | | r1 r2 u1 v H1 H2 | | | | | | |]; subst.
  inversion H1; subst. rewrite append_cons, append_empty. split; [reflexivity|].
  cbn [all_chars]. rewrite (matches_star_set _ _ _ _ _ H2).
  match goal with Hs : set_matches _ _ _ _ = true |- _ => rewrite Hs end.
  reflexivity.
Qed.

Lemma matches_star_any (ic g : bool) (u : string) :
  matches ic (RStar g RAny) u -> all_chars same_line u = true.
Proof.
  remember (RStar g RAny) as r eqn:E. intros H.
  induction H; try discriminate; [reflexivity|].
  injection E as -> ->. inversion H; subst.
  rewrite append_cons, append_empty. cbn [all_chars].
  rewrite IHmatches2 by reflexivity. unfold same_line.
  match goal with Hs : is_line_terminator _ = false |- _ => rewrite Hs end.
  reflexivity.
Qed.

Lemma all_chars_ext (p q : ascii -> bool) (s : string) :
  (forall c, p c = q c) -> all_chars p s = all_chars q s.
Proof.
  intros H. induction s as [|c s IH]; [reflexivity|].
  cbn [all_chars]. rewrite H, IH. reflexivity.
Qed.

Lemma handler_set (c : ascii) :
  set_matches false false
    [CRange "a" "z"; CRange "A" "Z"; CRange "0" "9"; CChar "_"] c
  = is_handler_char c.
Proof. each_char c; reflexivity. Qed.

Lemma module_handler_set (c : ascii) :
  set_matches true false [CWord; CChar "$"] c = is_module_handler_char c.
Proof. each_char c; reflexivity. Qed.

Lemma module_path_set (c : ascii) :
  set_matches true true RouteReflectorModule.quote_items c = no_quote c.
Proof. each_char c; reflexivity. Qed.

Lemma search_from_match_at (re : regexp) (s : string) :
  forall (i : nat) (m : match_result),
    search_from re i s = Some m ->
    exists (j : nat) (t : string), match_at re j t = Some m.
Proof.
  induction s as [|ch s IH]; intros i m H; cbn [search_from] in H.
  - destruct (match_at re i EmptyString) eqn:E; [|discriminate].
    injection H as <-. eauto.
  - destruct (match_at re i (String ch s)) eqn:E.
    + injection H as <-. eauto.
    + apply (IH _ _ H).
Qed.

Lemma exec_match_at (re : regexp) (s : string) (lastIndex lastIndex' : nat)
    (m : match_result) :
  exec re s lastIndex = (Some m, lastIndex') ->
  exists (j : nat) (t : string), match_at re j t = Some m.
Proof.
  unfold exec. intros H.
  destruct (re_global re).
  - destruct (String.length s <? lastIndex); [discriminate|].
    destruct (search_from re lastIndex (drop lastIndex s)) as [m'|] eqn:E;
      [|discriminate].
    injection H as <- _. apply (search_from_match_at _ _ _ _ E).
  - injection H as H _. apply (search_from_match_at _ _ _ _ H).
Qed.

(** What the three groups of [routeRegex] hold after a match. *)
Lemma routeRegex_groups (i : nat) (s : string) (m : match_result) :
  match_at RouteReflector.routeRegex i s = Some m ->
  member (toUpperCase (RouteReflector.capture m 1))
    ["GET"; "POST"; "PUT"; "DELETE"; "PATCH"] = true /\
  all_chars same_line (RouteReflector.capture m 2) = true /\
  JsString.truthy (RouteReflector.capture m 3) = true /\
  all_chars is_handler_char (RouteReflector.capture m 3) = true.
Proof.
  unfold match_at. intros H.
  apply rmatch_sound in H as (u & s' & c' & -> & _ & [= <-] & Hl & _ & Hc).
  - destruct (Hc 1 eq_refl) as (v1 & b1 & Hv1 & Hb1 & Hm1).
    destruct (Hc 2 eq_refl) as (v2 & b2 & Hv2 & Hb2 & Hm2).
    destruct (Hc 3 eq_refl) as (v3 & b3 & Hv3 & Hb3 & Hm3).
    unfold RouteReflector.capture, group. cbn [m_caps].
    unfold caps in *.
    rewrite !list_lookup_insert_ne by discriminate.
    rewrite Hv1, Hv2, Hv3. cbn [mjoin option_join default].
    apply list_elem_of_singleton in Hb1, Hb2, Hb3. subst b1 b2 b3.
    repeat split.
    + destruct (matches_alts_lit false ["get"; "post"; "put"; "delete"; "patch"] v1)
        as (w & Hw & Hu); [discriminate | exact Hm1 |].
      apply (member_upper _ w ["get"; "post"; "put"; "delete"; "patch"] Hw Hu).
    + apply (matches_star_any _ _ _ Hm2).
    + apply (matches_plus_set _ _ _ _ _ Hm3).
    + rewrite <- (all_chars_ext _ _ _ handler_set).
      apply (matches_plus_set _ _ _ _ _ Hm3).
  - change (NoDup [1; 2; 3]).
    repeat (apply NoDup_cons; split; [rewrite ?elem_of_cons, elem_of_nil; lia|]).
    apply NoDup_nil. exact I.
  - intros n Hn. change (n ∈ [1; 2; 3]) in Hn. rewrite !elem_of_cons in Hn.
    change (n < 4).
    destruct Hn as [->|[->|[->|Hn]]]; [lia | lia | lia |].
    apply elem_of_nil in Hn. contradiction.
Qed.

(** The same for [routePattern], which ignores the case of the letters. *)
Lemma routePattern_groups (i : nat) (s : string) (m : match_result) :
  match_at RouteReflectorModule.routePattern i s = Some m ->
  member (toUpperCase (RouteReflectorModule.capture m 1))
    ["GET"; "POST"; "PUT"; "DELETE"; "PATCH"; "OPTIONS"; "HEAD"] = true /\
  JsString.truthy (RouteReflectorModule.capture m 2) = true /\
  all_chars no_quote (RouteReflectorModule.capture m 2) = true /\
  JsString.truthy (RouteReflectorModule.capture m 3) = true /\
  all_chars is_module_handler_char (RouteReflectorModule.capture m 3) = true.
Proof.
  unfold match_at. intros H.
  apply rmatch_sound in H as (u & s' & c' & -> & _ & [= <-] & Hl & _ & Hc).
  - destruct (Hc 1 eq_refl) as (v1 & b1 & Hv1 & Hb1 & Hm1).
    destruct (Hc 2 eq_refl) as (v2 & b2 & Hv2 & Hb2 & Hm2).
    destruct (Hc 3 eq_refl) as (v3 & b3 & Hv3 & Hb3 & Hm3).
    unfold RouteReflectorModule.capture, group. cbn [m_caps].
    unfold caps in *.
    rewrite !list_lookup_insert_ne by discriminate.
    rewrite Hv1, Hv2, Hv3. cbn [mjoin option_join default].
    apply list_elem_of_singleton in Hb1, Hb2, Hb3. subst b1 b2 b3.
    repeat split.
    + destruct (matches_alts_lit true
                  ["get"; "post"; "put"; "delete"; "patch"; "options"; "head"] v1)
        as (w & Hw & Hu); [discriminate | exact Hm1 |].
      apply (member_upper _ w
               ["get"; "post"; "put"; "delete"; "patch"; "options"; "head"] Hw Hu).
    + apply (matches_plus_set _ _ _ _ _ Hm2).
    + rewrite <- (all_chars_ext _ _ _ module_path_set).
      apply (matches_plus_set _ _ _ _ _ Hm2).
    + apply (matches_plus_set _ _ _ _ _ Hm3).
    + rewrite <- (all_chars_ext _ _ _ module_handler_set).
      apply (matches_plus_set _ _ _ _ _ Hm3).
  - change (NoDup [1; 2; 3]).
    repeat (apply NoDup_cons; split; [rewrite ?elem_of_cons, elem_of_nil; lia|]).
    apply NoDup_nil. exact I.
  - intros n Hn. change (n ∈ [1; 2; 3]) in Hn. rewrite !elem_of_cons in Hn.
    change (n < 4).
    destruct Hn as [->|[->|[->|Hn]]]; [lia | lia | lia |].
    apply elem_of_nil in Hn. contradiction.
Qed.

Lemma forallb_snoc {A : Type} (p : A -> bool) (l : list A) (x : A) :
  forallb p (l ++ [x])%list = forallb p l && p x.
Proof. rewrite forallb_app. cbn. rewrite andb_true_r. reflexivity. Qed.

Lemma exec_loop_well_formed (code controllerFile : string) (fuel : nat) :
  forall (lastIndex : nat) (acc endpoints : list RouteReflector.endpoint),
    forallb (well_formed controllerFile) acc = true ->
    RouteReflector.exec_loop fuel code controllerFile lastIndex acc = Some endpoints ->
    forallb (well_formed controllerFile) endpoints = true.
Proof.
  induction fuel as [|fuel IH]; intros lastIndex acc endpoints Hacc H;
    [discriminate|].
  cbn [RouteReflector.exec_loop] in H.
  destruct (exec RouteReflector.routeRegex code lastIndex) as [[m|] lastIndex'] eqn:E.
  - apply IH in H; [exact H|].
    apply exec_match_at in E as (j & t & E).
    destruct (routeRegex_groups _ _ _ E) as (H1 & H2 & H3 & H4).
    rewrite forallb_snoc, Hacc. unfold well_formed.
    cbn [RouteReflector.method RouteReflector.path RouteReflector.handler
         RouteReflector.controller].
    rewrite H1, H2, H3, H4, String.eqb_refl. reflexivity.
  - injection H as <-. exact Hacc.
Qed.

Lemma module_exec_loop_well_formed (code file : string) (fuel : nat) :
  forall (lastIndex : nat) (acc endpoints : list RouteReflectorModule.endpoint),
    forallb (module_well_formed file) acc = true ->
    RouteReflectorModule.exec_loop fuel code file lastIndex acc = Some endpoints ->
    forallb (module_well_formed file) endpoints = true.
Proof.
  induction fuel as [|fuel IH]; intros lastIndex acc endpoints Hacc H;
    [discriminate|].
  cbn [RouteReflectorModule.exec_loop] in H.
  destruct (exec RouteReflectorModule.routePattern code lastIndex)
    as [[m|] lastIndex'] eqn:E.
  - apply IH in H; [exact H|].
    apply exec_match_at in E as (j & t & E).
    destruct (routePattern_groups _ _ _ E) as (H1 & H2 & H3 & H4 & H5).
    rewrite forallb_snoc, Hacc. unfold module_well_formed.
    cbn [RouteReflectorModule.method RouteReflectorModule.path
         RouteReflectorModule.handler RouteReflectorModule.file].
    rewrite H1, H2, H3, H4, H5, String.eqb_refl. reflexivity.
  - injection H as <-. exact Hacc.
Qed.

Lemma scan_code_well_formed (code controllerFile : string) :
  exists endpoints : list RouteReflector.endpoint,
    RouteReflector.scan_code code controllerFile = Some endpoints /\
    forallb (well_formed controllerFile) endpoints = true.
Proof.
  destruct (scan_code_total code controllerFile) as [endpoints H].
  exists endpoints. split; [exact H|].
  apply (exec_loop_well_formed code controllerFile _ 0 [] endpoints eq_refl H).
Qed.

Lemma module_scan_code_well_formed (code file : string) :
  exists endpoints : list RouteReflectorModule.endpoint,
    RouteReflectorModule.scan_code code file = Some endpoints /\
    forallb (module_well_formed file) endpoints = true.
Proof.
  destruct (module_scan_code_total code file) as [endpoints H].
  exists endpoints. split; [exact H|].
  apply (module_exec_loop_well_formed code file _ 0 [] endpoints eq_refl H).
Qed.

End EndpointShapes.

(** X11.  The scan of a route file that exists ends and returns a list, and
    leaves the world as it was.  Every endpoint of the list has one of the
    five methods GET, POST, PUT, DELETE and PATCH in capitals, a path
    within one line, a handler that is a non-empty run of letters, digits
    and underscores, and the controller file computed from the path of the
    route file. *)
Theorem scanRoutesFile_endpoints_are_well_formed
    (w : Fs.world) (filePath code : string) :
  Fs.files w !! filePath = Some (Fs.File code) ->
  exists endpoints : list RouteReflector.endpoint,
    RouteReflector.scanRoutesFile filePath w = (w, Returns endpoints) /\
    forallb (Shapes.well_formed (RouteReflector.controller_of filePath)) endpoints
    = true.
Proof.
  intros H.
  destruct (scan_code_well_formed code (RouteReflector.controller_of filePath))
    as (endpoints & Hs & Hw).
  exists endpoints. split; [|exact Hw].
  unfold RouteReflector.scanRoutesFile, bind.
  rewrite (existsSync_present _ _ _ H). cbn [negb].
  rewrite (readFileSync_file _ _ _ H), Hs. reflexivity.
Qed.

Lemma scanRoutesFile_endpoints_are_well_formed_witness :
  exists endpoints : list RouteReflector.endpoint,
    RouteReflector.scanRoutesFile "/app/src/routes/user.routes.js"
      Examples.routes_world = (Examples.routes_world, Returns endpoints) /\
    forallb (Shapes.well_formed "user.controller.js") endpoints = true.
Proof.
  apply (scanRoutesFile_endpoints_are_well_formed Examples.routes_world
           "/app/src/routes/user.routes.js" Examples.route_line).
  vm_compute. reflexivity.
Defined.

(** X12.  The other scanner, on a file that exists: the scan ends, returns
    a list and leaves the world as it was.  Every endpoint has one of seven
    methods in capitals, however the call was spelled, a non-empty path
    without a quote character, a handler that is a non-empty run of word
    characters and dollar signs, and the path of the file relative to the
    working directory. *)
Theorem extractEndpointsFromFile_endpoints_are_well_formed
    (cwd : string) (w : Fs.world) (filePath code : string) :
  Fs.files w !! filePath = Some (Fs.File code) ->
  exists endpoints : list RouteReflectorModule.endpoint,
    RouteReflectorModule.extractEndpointsFromFile cwd filePath w
    = (w, Returns endpoints) /\
    forallb (Shapes.module_well_formed (Fs.path_relative cwd filePath)) endpoints
    = true.
Proof.
  intros H.
  destruct (module_scan_code_well_formed code (Fs.path_relative cwd filePath))
    as (endpoints & Hs & Hw).
  exists endpoints. split; [|exact Hw].
  unfold RouteReflectorModule.extractEndpointsFromFile, bind.
  rewrite (readFileSync_file _ _ _ H), Hs. reflexivity.
Qed.

Lemma extractEndpointsFromFile_endpoints_are_well_formed_witness :
  exists endpoints : list RouteReflectorModule.endpoint,
    RouteReflectorModule.extractEndpointsFromFile "/app"
      "/app/src/routes/user.routes.js" Examples.routes_world
    = (Examples.routes_world, Returns endpoints) /\
    forallb (Shapes.module_well_formed "src/routes/user.routes.js") endpoints = true.
Proof.
  apply (extractEndpointsFromFile_endpoints_are_well_formed "/app"
           Examples.routes_world "/app/src/routes/user.routes.js"
           Examples.route_line).
  vm_compute. reflexivity.
Defined.


(* ===================================================================== *)
(** * Scanning a directory *)
(* ===================================================================== *)

Section DirectoryScan.
Import Sweep.

Lemma scanRoutesFile_file (w : Fs.world) (filePath : string) :
  is_file w filePath = true ->
  RouteReflector.scanRoutesFile filePath w = (w, Returns (endpoints_at w filePath)).
Proof.
  unfold is_file, endpoints_at. intros H.
  destruct (Fs.files w !! filePath) as [[code|names]|] eqn:E; try discriminate.
  unfold RouteReflector.scanRoutesFile, bind.
  rewrite (existsSync_present _ _ _ E). cbn [negb].
  rewrite (readFileSync_file _ _ _ E).
  destruct (scan_code_total code (RouteReflector.controller_of filePath)) as [l ->].
  reflexivity.
Qed.

Lemma extractEndpointsFromFile_file (cwd : string) (w : Fs.world) (filePath : string) :
  is_file w filePath = true ->
  RouteReflectorModule.extractEndpointsFromFile cwd filePath w
  = (w, Returns (module_endpoints_at cwd w filePath)).
Proof.
  unfold is_file, module_endpoints_at. intros H.
  destruct (Fs.files w !! filePath) as [[code|names]|] eqn:E; try discriminate.
  unfold RouteReflectorModule.extractEndpointsFromFile, bind.
  rewrite (readFileSync_file _ _ _ E).
  destruct (module_scan_code_total code (Fs.path_relative cwd filePath)) as [l ->].
  reflexivity.
Qed.

Lemma scan_files_files (w : Fs.world) (dirPath : string) (names : list string) :
  forall acc : list RouteReflector.endpoint,
    forallb (fun name => is_file w (Fs.path_join dirPath name)) names = true ->
    RouteReflector.scan_files dirPath names acc w
    = (w, Returns (acc ++ List.concat
                     (List.map (fun name => endpoints_at w (Fs.path_join dirPath name))
                        names))%list).
Proof.
  induction names as [|name names IH]; intros acc H.
  - cbn. rewrite app_nil_r. reflexivity.
  - cbn [forallb] in H. apply andb_true_iff in H as [Hn Hs].
    cbn [RouteReflector.scan_files]. unfold bind.
    rewrite (scanRoutesFile_file _ _ Hn), (IH _ Hs).
    cbn [List.map List.concat]. rewrite <- app_assoc. reflexivity.
Qed.

Lemma module_scan_files_files (cwd : string) (w : Fs.world) (dirPath : string)
    (names : list string) :
  forall acc : list RouteReflectorModule.endpoint,
    forallb (fun name => is_file w (Fs.path_join dirPath name)) names = true ->
    RouteReflectorModule.scan_files cwd dirPath names acc w
    = (w, Returns (acc ++ List.concat
                     (List.map
                        (fun name => module_endpoints_at cwd w (Fs.path_join dirPath name))
                        names))%list).
Proof.
  induction names as [|name names IH]; intros acc H.
  - cbn. rewrite app_nil_r. reflexivity.
  - cbn [forallb] in H. apply andb_true_iff in H as [Hn Hs].
    cbn [RouteReflectorModule.scan_files]. unfold bind.
    rewrite (extractEndpointsFromFile_file _ _ _ Hn), (IH _ Hs).
    cbn [List.map List.concat]. rewrite <- app_assoc. reflexivity.
Qed.

End DirectoryScan.

(** X13.  The scan of a directory is the scans of its files one after the
    other: when every entry of the listing that ends in [.js] is a file,
    both scanners return the endpoints of these files in the order of the
    listing, entries with other names play no part, and the world is left
    as it was. *)
Theorem directory_scan_is_the_scans_of_its_files
    (cwd : string) (w : Fs.world) (dirPath : string) (names : list string) :
  Fs.files w !! dirPath = Some (Fs.Dir names) ->
  forallb (fun name => Sweep.is_file w (Fs.path_join dirPath name))
    (Sweep.route_files names) = true ->
  RouteReflector.scanRoutesDirectory dirPath w
  = (w, Returns (List.concat
                   (List.map (fun name => Sweep.endpoints_at w (Fs.path_join dirPath name))
                      (Sweep.route_files names)))) /\
  RouteReflectorModule.scanRoutesDirectory cwd dirPath w
  = (w, Returns (List.concat
                   (List.map
                      (fun name => Sweep.module_endpoints_at cwd w (Fs.path_join dirPath name))
                      (Sweep.route_files names)))).
Proof.
  intros Hd Hf. split.
  - unfold RouteReflector.scanRoutesDirectory, bind.
    rewrite (existsSync_present _ _ _ Hd). cbn [negb].
    unfold Fs.readdirSync at 1. rewrite Hd.
    apply (scan_files_files w dirPath _ [] Hf).
  - unfold RouteReflectorModule.scanRoutesDirectory, bind.
    unfold Fs.readdirSync at 1. rewrite Hd.
    apply (module_scan_files_files cwd w dirPath _ [] Hf).
Qed.

Lemma directory_scan_is_the_scans_of_its_files_witness :
  RouteReflector.scanRoutesDirectory "/app/src/routes" Scenarios.routes_tree
  = (Scenarios.routes_tree,
     Returns [RouteReflector.mkEndpoint "GET" "/users/:id" "getUser" "user.controller.js";
              RouteReflector.mkEndpoint "POST" "/posts" "createPost" "post.controller.js"]) /\
  RouteReflectorModule.scanRoutesDirectory "/app" "/app/src/routes" Scenarios.routes_tree
  = (Scenarios.routes_tree,
     Returns [RouteReflectorModule.mkEndpoint "GET" "/users/:id" "getUser"
                "src/routes/user.routes.js";
              RouteReflectorModule.mkEndpoint "POST" "/posts" "createPost"
                "src/routes/post.routes.js"]).
Proof.
  apply (directory_scan_is_the_scans_of_its_files "/app" Scenarios.routes_tree
           "/app/src/routes" ["user.routes.js"; "README.md"; "post.routes.js"]).
  - vm_compute. reflexivity.
  - vm_compute. reflexivity.
Defined.

(* ===================================================================== *)
(** * Paths *)
(* ===================================================================== *)

Section Paths.
Import Sweep Fs.

Lemma lastIndexOf_from_absent (c : ascii) (after : string) :
  all_chars (fun d => negb (Ascii.eqb d c)) after = true ->
  forall (i : nat) (last : option nat),
    lastIndexOf_from c i after last = last.
Proof.
  induction after as [|d p IH]; intros H i last; [reflexivity|].
  cbn [all_chars] in H. apply andb_true_iff in H as [Hc Hp].
  apply negb_true_iff in Hc.
  cbn [lastIndexOf_from]. rewrite Hc. apply (IH Hp).
Qed.

Lemma lastIndexOf_from_last (c : ascii) (after : string) :
  all_chars (fun d => negb (Ascii.eqb d c)) after = true ->
  forall (p : string) (i : nat) (last : option nat),
    lastIndexOf_from c i (p +:+ String c after) last = Some (i + String.length p).
Proof.
  intros H. induction p as [|d p IH]; intros i last.
  - rewrite append_empty. cbn [lastIndexOf_from String.length].
    rewrite Ascii.eqb_refl, (lastIndexOf_from_absent _ _ H), Nat.add_0_r.
    reflexivity.
  - rewrite append_cons. cbn [lastIndexOf_from String.length]. rewrite IH.
    f_equal. lia.
Qed.

Lemma segment_spec (name : string) :
  segment name = true ->
  all_chars no_slash name = true /\
  name <> EmptyString /\ name <> "." /\ name <> "..".
Proof.
  unfold segment. rewrite !andb_true_iff, !negb_true_iff, !String.eqb_neq. tauto.
Qed.

Lemma split_path_plain (name : string) :
  all_chars no_slash name = true -> split_path name = [name].
Proof.
  induction name as [|c s IH]; intros H; [reflexivity|].
  cbn [all_chars] in H. apply andb_true_iff in H as [Hc Hs].
  apply negb_true_iff in Hc.
  cbn [split_path]. rewrite Hc, (IH Hs). reflexivity.
Qed.

Lemma split_path_cons (p : string) : exists seg segs, split_path p = seg :: segs.
Proof.
  induction p as [|c p (seg & segs & IH)]; [eexists _, _; reflexivity|].
  cbn [split_path]. destruct (Ascii.eqb c "/"); [eexists _, _; reflexivity|].
  rewrite IH. eexists _, _; reflexivity.
Qed.

Lemma split_path_app (a b : string) :
  split_path (a +:+ String "/" b) = (split_path a ++ split_path b)%list.
Proof.
  induction a as [|c a IH]; [reflexivity|].
  rewrite append_cons. cbn [split_path]. rewrite IH.
  destruct (Ascii.eqb c "/"); [reflexivity|].
  destruct (split_path_cons a) as (seg & segs & ->). reflexivity.
Qed.

Lemma keep_segment (allowAboveRoot : bool) (kept : list string) (name : string) :
  segment name = true -> keep allowAboveRoot kept name = name :: kept.
Proof.
  intros H. apply segment_spec in H as (_ & H0 & H1 & H2). unfold keep.
  apply String.eqb_neq in H0, H1, H2. rewrite H0, H1, H2. reflexivity.
Qed.

Lemma join_rest_app (xs ys : list string) :
  join_rest (xs ++ ys) = join_rest xs +:+ join_rest ys.
Proof.
  induction xs as [|x xs IH]; [reflexivity|].
  cbn [app join_rest]. rewrite IH, !append_assoc. reflexivity.
Qed.

Lemma append_empty_r (s : string) : s +:+ EmptyString = s.
Proof. induction s as [|c s IH]; [reflexivity|]. rewrite append_cons, IH. reflexivity. Qed.

(** The segments with a name added: the name after a text that is empty or
    ends in a slash. *)
Lemma join_path_last (xs : list string) (name : string) :
  exists prefix : string,
    join_path (xs ++ [name]) = prefix +:+ name /\
    (prefix = EmptyString \/ exists p : string, prefix = p +:+ "/").
Proof.
  destruct xs as [|x xs].
  - exists EmptyString. cbn. rewrite append_empty_r. auto.
  - exists ((x +:+ join_rest xs) +:+ "/"). split.
    + cbn [app join_path]. rewrite join_rest_app. cbn [join_rest].
      rewrite append_empty_r, !append_assoc. reflexivity.
    + right. exists (x +:+ join_rest xs). reflexivity.
Qed.

Lemma drop_app_more (a b : string) (k : nat) :
  drop (String.length a + k) (a +:+ b) = drop k b.
Proof.
  induction a as [|c a IH]; [reflexivity|].
  rewrite append_cons. cbn [String.length Nat.add drop]. exact IH.
Qed.

Lemma endsWith_slash_no (a name : string) :
  all_chars no_slash name = true -> name <> EmptyString ->
  endsWith (a +:+ name) "/" = false.
Proof.
  intros H Hne. unfold endsWith. apply andb_false_iff. left.
  apply String.eqb_neq. intros E.
  rewrite append_length in E.
  replace (String.length a + String.length name - String.length "/")
    with (String.length a + (String.length name - 1)) in E
    by (destruct name; [congruence | cbn; lia]).
  rewrite drop_app_more in E.
  pose proof (all_chars_drop no_slash name H (String.length name - 1)) as Hd.
  rewrite E in Hd. discriminate.
Qed.

Lemma nonempty_app_r (a b : string) : b <> EmptyString -> a +:+ b <> EmptyString.
Proof.
  intros Hb E. apply (f_equal String.length) in E. rewrite append_length in E.
  destruct b; [congruence | cbn in E; lia].
Qed.

(** What [path.normalize] makes of a path that ends in a name. *)
Lemma path_normalize_last (a name : string) :
  segment name = true ->
  (a = EmptyString \/ exists p : string, a = p +:+ "/") ->
  exists prefix : string,
    path_normalize (a +:+ name) = prefix +:+ name /\
    (prefix = EmptyString \/ exists p : string, prefix = p +:+ "/").
Proof.
  intros Hn Ha. destruct (segment_spec _ Hn) as (Hs & Hne & _).
  unfold path_normalize.
  replace (String.eqb (a +:+ name) EmptyString) with false
    by (symmetry; apply String.eqb_neq, nonempty_app_r, Hne).
  rewrite (endsWith_slash_no a name Hs Hne).
  set (abs := is_absolute (a +:+ name)).
  assert (Hsplit : exists segs, split_path (a +:+ name) = (segs ++ [name])%list).
  { destruct Ha as [-> | (p & ->)].
    - exists []. rewrite append_empty. apply (split_path_plain _ Hs).
    - exists (split_path p). rewrite append_assoc.
      change ("/" +:+ name) with (String "/" name).
      rewrite split_path_app, (split_path_plain _ Hs). reflexivity. }
  destruct Hsplit as (segs & ->).
  unfold normalize_segments. rewrite fold_left_app. cbn [fold_left].
  rewrite (keep_segment _ _ _ Hn). cbn [List.rev].
  destruct (join_path_last (List.rev (fold_left (keep (negb abs)) segs [])) name)
    as (prefix & -> & Hp).
  replace (String.eqb (prefix +:+ name) EmptyString) with false
    by (symmetry; apply String.eqb_neq, nonempty_app_r, Hne).
  rewrite append_empty_r.
  destruct abs.
  - exists ("/" +:+ prefix). split; [rewrite append_assoc; reflexivity|].
    right. destruct Hp as [-> | (p & ->)].
    + exists EmptyString. reflexivity.
    + exists ("/" +:+ p). rewrite append_assoc. reflexivity.
  - exists prefix. rewrite append_empty. auto.
Qed.

Lemma path_join_last (dirPath name : string) :
  segment name = true ->
  exists prefix : string,
    path_join dirPath name = prefix +:+ name /\
    (prefix = EmptyString \/ exists p : string, prefix = p +:+ "/").
Proof.
  intros Hn. destruct (segment_spec _ Hn) as (_ & Hne & _). unfold path_join.
  replace (String.eqb name EmptyString) with false
    by (symmetry; apply String.eqb_neq, Hne).
  destruct (String.eqb dirPath EmptyString).
  - apply (path_normalize_last EmptyString name Hn). auto.
  - rewrite <- append_assoc. apply (path_normalize_last _ name Hn). eauto.
Qed.

Lemma last_segment_after (prefix name : string) :
  all_chars no_slash name = true ->
  (prefix = EmptyString \/ exists p : string, prefix = p +:+ "/") ->
  last_segment (prefix +:+ name) = name.
Proof.
  intros H [-> | (p & ->)]; unfold last_segment, lastIndexOf.
  - rewrite append_empty, (lastIndexOf_from_absent "/" name H). reflexivity.
  - rewrite append_assoc. change ("/" +:+ name) with (String "/" name).
    rewrite (lastIndexOf_from_last "/" name H). cbn [Nat.add].
    unfold slice_from.
    change (p +:+ String "/" name) with (p +:+ ("/" +:+ name)).
    rewrite <- append_assoc.
    replace (String.length p + 1) with (String.length (p +:+ "/"))
      by (rewrite append_length; reflexivity).
    apply drop_app_exact.
Qed.

Lemma last_segment_join (dirPath name : string) :
  segment name = true -> last_segment (path_join dirPath name) = name.
Proof.
  intros Hn. destruct (path_join_last dirPath name Hn) as (prefix & -> & Hp).
  apply last_segment_after; [apply (segment_spec _ Hn) | exact Hp].
Qed.

Lemma segment_with_extension (stem ext : string) :
  all_chars no_slash stem = true ->
  all_chars no_dot stem = true ->
  stem <> EmptyString ->
  all_chars no_slash ext = true ->
  segment (stem +:+ ext) = true.
Proof.
  intros Hs Hd Hne He. destruct stem as [|c stem]; [congruence|].
  cbn [all_chars] in Hd. apply andb_true_iff in Hd as [Hc _].
  unfold no_dot in Hc. apply negb_true_iff, Ascii.eqb_neq in Hc.
  unfold segment. rewrite all_chars_app, Hs, He. cbn [andb].
  rewrite !andb_true_iff, !negb_true_iff, !String.eqb_neq.
  repeat split.
  - discriminate.
  - rewrite append_cons. intros E. injection E as E _. congruence.
  - rewrite append_cons. intros E. injection E as E _. congruence.
Qed.

Lemma basename_strips_js (dirPath stem : string) :
  stem <> EmptyString ->
  segment (stem +:+ ".js") = true ->
  path_basename (path_join dirPath (stem +:+ ".js")) ".js" = stem.
Proof.
  intros Hne Hseg. unfold path_basename.
  rewrite (last_segment_join _ _ Hseg).
  destruct (path_join_last dirPath _ Hseg) as (prefix & -> & _).
  replace (String.eqb (prefix +:+ (stem +:+ ".js")) ".js") with false.
  2:{ symmetry. apply String.eqb_neq. intros E.
      apply (f_equal String.length) in E. rewrite !append_length in E. cbn in E.
      destruct stem; [congruence | cbn in E; lia]. }
  cbn [JsString.truthy andb].
  unfold endsWith. rewrite append_length. cbn [String.length].
  replace (String.length stem + 3 - 3) with (String.length stem) by lia.
  rewrite drop_app_exact, take_app_exact. cbn [String.eqb Ascii.eqb Bool.eqb andb].
  replace (3 <=? String.length stem + 3) with true
    by (symmetry; apply Nat.leb_le; lia).
  replace (String.eqb (stem +:+ ".js") ".js") with false; [reflexivity|].
  symmetry. apply String.eqb_neq. intros E.
  apply (f_equal String.length) in E. rewrite append_length in E. cbn in E.
  destruct stem; [congruence | cbn in E; lia].
Qed.

Lemma match_at_routes_none (c : ascii) (s : string) (i : nat) :
  no_dot c = true -> match_at routes_suffix i (String c s) = None.
Proof.
  intros Hc. apply negb_true_iff in Hc.
  unfold match_at. cbn -[Ascii.eqb]. rewrite Hc. reflexivity.
Qed.

Lemma search_routes_none (s : string) :
  all_chars no_dot s = true ->
  forall i : nat, search_from routes_suffix i s = None.
Proof.
  induction s as [|c s IH]; intros H i; [reflexivity|].
  cbn [all_chars] in H. apply andb_true_iff in H as [Hc Hs].
  cbn [search_from]. rewrite (match_at_routes_none _ _ _ Hc). apply (IH Hs).
Qed.

Lemma search_routes_suffix (stem : string) :
  all_chars no_dot stem = true ->
  forall i : nat,
    search_from routes_suffix i (stem +:+ ".routes")
    = Some (MatchResult (i + String.length stem) (i + String.length stem + 7)
              [Some ".routes"]).
Proof.
  induction stem as [|c s IH]; intros H i.
  - rewrite append_empty. cbn [String.length]. rewrite Nat.add_0_r.
    cbn. replace (S (S (S (S (S (S (S i)))))) - i) with 7 by lia.
    replace (S (S (S (S (S (S (S i))))))) with (i + 7) by lia. reflexivity.
  - cbn [all_chars] in H. apply andb_true_iff in H as [Hc Hs].
    rewrite append_cons. cbn [search_from String.length].
    rewrite (match_at_routes_none _ _ _ Hc), (IH Hs). do 2 f_equal; lia.
Qed.

End Paths.

(** X14.  The controller file of a route file [<stem>.routes.js] is
    [<stem>.controller.js], whatever the directory, when the stem holds no
    dot and no slash.  A route file [<stem>.js] without the [.routes] part
    keeps its stem as the name of the controller file, without any
    extension. *)
Theorem controller_file_of_a_route_file (dirPath stem : string) :
  all_chars Sweep.no_dot stem = true ->
  all_chars Sweep.no_slash stem = true ->
  stem <> EmptyString ->
  RouteReflector.controller_of (Fs.path_join dirPath (stem +:+ ".routes.js"))
  = stem +:+ ".controller.js" /\
  RouteReflector.controller_of (Fs.path_join dirPath (stem +:+ ".js")) = stem.
Proof.
  intros Hd Hs Hne. unfold RouteReflector.controller_of.
  fold Sweep.routes_suffix. split.
  - change (stem +:+ ".routes.js") with (stem +:+ (".routes" +:+ ".js")).
    rewrite <- append_assoc.
    rewrite basename_strips_js.
    + unfold replace. cbn [re_global Sweep.routes_suffix]. fold Sweep.routes_suffix.
      rewrite (search_routes_suffix stem Hd).
      cbn [m_index m_end Nat.add expand fold_right].
      rewrite take_app_exact.
      replace (String.length stem + 7) with (String.length (stem +:+ ".routes"))
        by (rewrite append_length; reflexivity).
      rewrite drop_whole. reflexivity.
    + destruct stem; [congruence | discriminate].
    + rewrite append_assoc.
      apply (segment_with_extension stem ".routes.js" Hs Hd Hne eq_refl).
  - rewrite (basename_strips_js _ _ Hne
               (segment_with_extension stem ".js" Hs Hd Hne eq_refl)).
    unfold replace. cbn [re_global Sweep.routes_suffix]. fold Sweep.routes_suffix.
    rewrite (search_routes_none stem Hd). reflexivity.
Qed.

Lemma controller_file_of_a_route_file_witness :
  RouteReflector.controller_of "/app/src/routes/user.routes.js" = "user.controller.js" /\
  RouteReflector.controller_of "/app/src/routes/user.js" = "user".
Proof.
  apply (controller_file_of_a_route_file "/app/src/routes" "user");
    [reflexivity | reflexivity | discriminate].
Defined.

(** X15.  The guards that test a path with [existsSync] let a path of the
    wrong kind through: a directory where a file is expected makes
    [scanRoutesFile] and [extractFunctionCode] raise EISDIR, and a file
    where a directory is expected makes [scanRoutesDirectory] raise
    ENOTDIR; no warning is written in either case. *)
Theorem existence_guards_let_the_wrong_kind_through
    (parse : string -> exn + list AstParser.node) (w : Fs.world)
    (filePath handlerName : string) (e : Fs.entry) :
  Fs.files w !! filePath = Some e ->
  match e with
  | Fs.Dir _ =>
      RouteReflector.scanRoutesFile filePath w = (w, Throws (Fs.EISDIR filePath)) /\
      AstParser.extractFunctionCode parse filePath handlerName w
        = (w, Throws (Fs.EISDIR filePath))
  | Fs.File _ =>
      RouteReflector.scanRoutesDirectory filePath w = (w, Throws (Fs.ENOTDIR filePath))
  end.
Proof.
  intros H. destruct e as [code|names].
  - unfold RouteReflector.scanRoutesDirectory, bind.
    rewrite (existsSync_present _ _ _ H). cbn [negb].
    unfold Fs.readdirSync. rewrite H. reflexivity.
  - split.
    + unfold RouteReflector.scanRoutesFile, bind.
      rewrite (existsSync_present _ _ _ H). cbn [negb].
      unfold Fs.readFileSync. rewrite H. reflexivity.
    + unfold AstParser.extractFunctionCode, bind.
      rewrite (existsSync_present _ _ _ H). cbn [negb].
      unfold Fs.readFileSync. rewrite H. reflexivity.
Qed.

Lemma existence_guards_let_the_wrong_kind_through_witness :
  RouteReflector.scanRoutesFile "/app/src/routes" Examples.routes_world
    = (Examples.routes_world, Throws (Fs.EISDIR "/app/src/routes")) /\
  AstParser.extractFunctionCode Examples.babel "/app/src/routes" "getUser"
    Examples.routes_world
    = (Examples.routes_world, Throws (Fs.EISDIR "/app/src/routes")).
Proof.
  apply (existence_guards_let_the_wrong_kind_through Examples.babel
           Examples.routes_world "/app/src/routes" "getUser"
           (Fs.Dir ["user.routes.js"])).
  vm_compute. reflexivity.
Defined.

(* ===================================================================== *)
(** * What the extractor returns and what it writes *)
(* ===================================================================== *)

Section Extractor.
Import AstParser.

Lemma first_some_found {A B} (f : A -> option B) (l : list A) (y : B) :
  first_some f l = Some y -> exists x : A, In x l /\ f x = Some y.
Proof.
  induction l as [|x l IH]; [discriminate|]. cbn [first_some].
  destruct (f x) as [y'|] eqn:E.
  - intros [= <-]. exists x. split; [left; reflexivity | exact E].
  - intros H. destruct (IH H) as (x' & Hin & Hx). exists x'. split; [right|]; assumption.
Qed.

Lemma handler_at_name (source handlerName : string) (n : node) (f : extracted_function) :
  handler_at source handlerName n = Some f -> name f = handlerName.
Proof.
  unfold handler_at, declaration_named, binding_named.
  destruct n as [id a s e l cs | id p l [[]|] | a s e cs | a s e cs | ty cs];
    try discriminate;
    destruct (name_is id handlerName); try discriminate;
    intros [= <-]; reflexivity.
Qed.

Lemma traverse_name (source handlerName : string) (program : list node)
    (f : extracted_function) :
  extracted (traverse source handlerName program) = Some f -> name f = handlerName.
Proof.
  rewrite traverse_first_in_document_order. unfold first_in_document_order.
  intros H. apply first_some_found in H as (n & _ & H).
  apply (handler_at_name _ _ _ _ H).
Qed.

Lemma traverse_app (source handlerName : string) (before after : list node) :
  extracted (traverse source handlerName (before ++ after)%list) =
  match extracted (traverse source handlerName before) with
  | Some f => Some f
  | None => extracted (traverse source handlerName after)
  end.
Proof.
  rewrite !traverse_first_in_document_order. unfold first_in_document_order.
  rewrite flat_map_app. apply first_some_app.
Qed.

End Extractor.

(** X16.  [extractFunctionCode] never touches the files, and it writes to
    the console exactly when it returns [null]: one warning then, nothing
    when a function is extracted and nothing when the read or the parser
    raises.  A function that is extracted carries the name asked for. *)
Theorem extraction_warns_exactly_when_it_returns_null
    (parse : string -> exn + list AstParser.node) (w : Fs.world)
    (filePath handlerName : string) :
  let out := AstParser.extractFunctionCode parse filePath handlerName w in
  Fs.files (fst out) = Fs.files w /\
  match snd out with
  | Returns (Some f) =>
      Fs.console (fst out) = Fs.console w /\ AstParser.name f = handlerName
  | Returns None =>
      exists text : string, Fs.console (fst out) = (Fs.console w ++ [Fs.Warn text])%list
  | Throws _ => Fs.console (fst out) = Fs.console w
  end.
Proof.
  unfold AstParser.extractFunctionCode, bind, Fs.existsSync, gets, Fs.readFileSync.
  destruct (Fs.files w !! filePath) as [[source|names]|] eqn:E.
  - rewrite bool_decide_true by eauto. cbn [negb fst snd]. rewrite E.
    destruct (parse source) as [e|program]; [cbn; auto|].
    destruct (AstParser.extracted (AstParser.traverse source handlerName program))
      as [f|] eqn:Ef; cbn.
    + repeat split. apply (traverse_name _ _ _ _ Ef).
    + split; [reflexivity | eauto].
  - rewrite bool_decide_true by eauto. cbn [negb fst snd]. rewrite E. cbn. auto.
  - rewrite bool_decide_false by (intros [? ?]; discriminate). cbn.
    split; [reflexivity | eauto].
Qed.

(** X17.  The traversal stops at the first match: what is extracted from a
    program is what is extracted from its first statements when they hold
    a match, whatever follows them, and what is extracted from the rest
    when they hold none. *)
Theorem traversal_stops_at_the_first_match
    (source handlerName : string) (before after : list AstParser.node) :
  AstParser.extracted (AstParser.traverse source handlerName (before ++ after)%list) =
  match AstParser.extracted (AstParser.traverse source handlerName before) with
  | Some f => Some f
  | None => AstParser.extracted (AstParser.traverse source handlerName after)
  end.
Proof. apply traverse_app. Qed.

(* ===================================================================== *)
(** * The sweep over the payloads *)
(* ===================================================================== *)

Section ReportName.
Import Pipeline.

Lemma mark_set (c : ascii) :
  set_matches false false [CChar ":"; CChar "."] c = is_mark c.
Proof.
  unfold set_matches, is_mark. cbn -[Ascii.eqb].
  rewrite (Ascii.eqb_sym ":"), (Ascii.eqb_sym "."), orb_false_r. reflexivity.
Qed.

Lemma match_at_mark (c : ascii) (s : string) (i : nat) :
  match_at colon_dot_re i (String c s) =
  if is_mark c then Some (MatchResult i (S i) [Some (String c EmptyString)])
  else None.
Proof.
  unfold match_at. cbn [re_ignoreCase re_body re_groups colon_dot_re rmatch].
  rewrite mark_set. destruct (is_mark c); [|reflexivity].
  replace (S i - i) with 1 by lia. reflexivity.
Qed.

(** The first colon or dot from [i] on, with what stands before and after
    it. *)
Lemma search_mark (s : string) :
  forall i : nat,
    match search_from colon_dot_re i s with
    | Some m =>
        exists (p : string) (c : ascii) (rest : string),
          s = p +:+ String c rest /\
          m_index m = i + String.length p /\
          m_end m = S (i + String.length p) /\
          dashed p = p /\ is_mark c = true
    | None => dashed s = s
    end.
Proof.
  induction s as [|c s IH]; intros i.
  - reflexivity.
  - cbn [search_from]. rewrite match_at_mark.
    destruct (is_mark c) eqn:Hc.
    + exists EmptyString, c, s. cbn [String.length m_index m_end].
      rewrite Nat.add_0_r. auto.
    + specialize (IH (S i)).
      destruct (search_from colon_dot_re (S i) s) as [m|].
      * destruct IH as (p & c' & rest & -> & Hi & He & Hp & Hm).
        exists (String c p), c', rest. cbn [String.length dashed].
        rewrite Hc, Hp, Hi, He. repeat split; auto; lia.
      * cbn [dashed]. rewrite Hc, IH. reflexivity.
Qed.

Lemma dashed_app (p s : string) : dashed (p +:+ s) = dashed p +:+ dashed s.
Proof.
  induction p as [|c p IH]; [reflexivity|].
  rewrite append_cons. cbn [dashed]. rewrite IH. reflexivity.
Qed.

Lemma replace_loop_mark (fuel : nat) :
  forall (pos : nat) (s : string),
    String.length s < fuel ->
    replace_loop fuel colon_dot_re [RText "-"] pos s 0 = dashed s.
Proof.
  induction fuel as [|fuel IH]; intros pos s Hlen; [lia|].
  cbn [replace_loop].
  replace (String.length s <? 0) with false by (symmetry; apply Nat.ltb_ge; lia).
  change (drop 0 s) with s.
  pose proof (search_mark s (pos + 0)) as H.
  destruct (search_from colon_dot_re (pos + 0) s) as [m|]; [|auto].
  destruct H as (p & c & rest & -> & Hi & He & Hp & Hm).
  rewrite Hi, He. cbn [expand fold_right].
  replace (pos + 0 + String.length p - pos) with (String.length p) by lia.
  replace (S (pos + 0 + String.length p) - pos) with (S (String.length p)) by lia.
  replace (S (pos + 0 + String.length p) =? pos + 0 + String.length p) with false
    by (symmetry; apply Nat.eqb_neq; lia).
  rewrite take_app_exact.
  change (p +:+ String c rest) with (p +:+ (String c EmptyString +:+ rest)).
  rewrite <- (append_assoc p (String c EmptyString) rest).
  replace (S (String.length p)) with (String.length (p +:+ String c EmptyString))
    by (rewrite append_length; cbn; lia).
  rewrite drop_app_exact, IH.
  - rewrite !dashed_app, Hp. cbn [dashed]. rewrite Hm, !append_assoc. reflexivity.
  - rewrite !append_length in Hlen. cbn [String.length] in Hlen. lia.
Qed.

Lemma dashed_length (s : string) : String.length (dashed s) = String.length s.
Proof. induction s as [|c s IH]; [reflexivity|]. cbn. rewrite IH. reflexivity. Qed.

Lemma dashed_no_mark (s : string) :
  all_chars (fun c => negb (is_mark c)) (dashed s) = true.
Proof.
  induction s as [|c s IH]; [reflexivity|]. cbn [dashed all_chars].
  rewrite IH. destruct (is_mark c) eqn:E; [reflexivity | rewrite E; reflexivity].
Qed.

End ReportName.

(** X18.  The time stamp in the name of a report: the replacement of
    [/[:.]/g] by a dash turns every colon and every dot into a dash and
    leaves the other characters where they are, so that the stamp keeps
    its length and holds no colon and no dot. *)
Theorem report_stamp_has_dashes_for_colons_and_dots (stamp : string) :
  replace stamp Pipeline.colon_dot_re [RText "-"] = Pipeline.dashed stamp /\
  String.length (Pipeline.dashed stamp) = String.length stamp /\
  all_chars (fun c => negb (Pipeline.is_mark c)) (Pipeline.dashed stamp) = true.
Proof.
  split; [|split].
  - unfold replace. cbn [re_global Pipeline.colon_dot_re].
    fold Pipeline.colon_dot_re. apply replace_loop_mark. lia.
  - apply dashed_length.
  - apply dashed_no_mark.
Qed.

(** X19.  A payload that the sweep sends to [analyzeEndpoint] is never
    refused by the check of [analyzeEndpoint] itself: a payload whose
    [function] holds cleaned or sanitized code is an object with a truthy
    [function]. *)
Theorem payload_with_code_passes_the_client_check (payload : json) :
  Pipeline.has_code payload = true ->
  ClientTrace.rejected_payload payload = false.
Proof.
  unfold Pipeline.has_code, ClientTrace.rejected_payload, Pipeline.chained.
  intros H.
  destruct (get payload "function") as [fn|] eqn:E; [|discriminate].
  destruct fn; try discriminate.
  destruct payload; try discriminate. reflexivity.
Qed.

Lemma payload_with_code_passes_the_client_check_witness :
  ClientTrace.rejected_payload Examples.payload = false.
Proof.
  apply (payload_with_code_passes_the_client_check Examples.payload).
  reflexivity.
Defined.

Section Sweep.
Import Client Pipeline.

Variable ANALYSIS_DIR AI_REPORTS_DIR : string.
Variable rt : Client.runtime.
Variable buildAnalysisPrompt : json -> result string.
Variable toISOString : nat -> string.
Variable stringify : Adapter.outcome -> string.
Variable parse_error : string -> string.
Variable text_of : json -> result string.

Lemma has_code_accepted (payload : json) :
  has_code payload = true -> ClientTrace.rejected_payload payload = false.
Proof.
  unfold has_code, ClientTrace.rejected_payload, chained. intros H.
  destruct (get payload "function") as [fn|] eqn:E; [|discriminate].
  destruct fn; try discriminate.
  destruct payload; try discriminate. reflexivity.
Qed.

Lemma on_files_read (w : Pipeline.world) (p : string) :
  on_files (Fs.readFileSync p) w =
  (w, match files w !! p with
      | Some (Fs.File content) => Returns content
      | Some (Fs.Dir _) => Throws (Fs.EISDIR p)
      | None => Throws (Fs.ENOENT p)
      end).
Proof.
  unfold on_files, Fs.readFileSync. cbn [Fs.files].
  destruct w as [f a c]. cbn [files ai clock].
  destruct (f !! p) as [[content|names]|]; reflexivity.
Qed.

Lemma on_files_readdir (w : Pipeline.world) (p : string) :
  on_files (Fs.readdirSync p) w =
  (w, match files w !! p with
      | Some (Fs.Dir names) => Returns names
      | Some (Fs.File _) => Throws (Fs.ENOTDIR p)
      | None => Throws (Fs.ENOENT p)
      end).
Proof.
  unfold on_files, Fs.readdirSync. cbn [Fs.files].
  destruct w as [f a c]. cbn [files ai clock].
  destruct (f !! p) as [[content|names]|]; reflexivity.
Qed.

Lemma console_log_world (text : string) (w : Pipeline.world) :
  console_log text w =
  (Pipeline.mkWorld (files w) (logged (Fs.Log text) (ai w)) (clock w), Returns tt).
Proof. reflexivity. Qed.

Lemma try_catch_returns {W : Type} (m : eff W unit) (h : exn -> eff W unit) (w : W) :
  (forall e w', snd (h e w') = Returns tt) ->
  snd (try_catch m h w) = Returns tt.
Proof.
  intros Hh. unfold try_catch. destruct (m w) as [w' [[]|e]]; [reflexivity | apply Hh].
Qed.

Lemma analyze_file_outcome (file : string) (w : Pipeline.world) :
  snd (Pipeline.analyze_file ANALYSIS_DIR AI_REPORTS_DIR rt buildAnalysisPrompt
         toISOString stringify parse_error text_of file w) =
  match files w !! Fs.path_join ANALYSIS_DIR file with
  | None => Throws (Fs.ENOENT (Fs.path_join ANALYSIS_DIR file))
  | Some (Fs.Dir _) => Throws (Fs.EISDIR (Fs.path_join ANALYSIS_DIR file))
  | Some (Fs.File text) =>
      match JSON_parse text with
      | None => Throws (mkExn SyntaxError (parse_error text))
      | Some JNull => Throws null_payload
      | Some payload =>
          if has_code payload then
            match template text_of (endpoint_name payload) with
            | Returns _ => Returns tt
            | Throws e => Throws e
            end
          else Returns tt
      end
  end.
Proof.
  unfold Pipeline.analyze_file, bind. rewrite on_files_read.
  destruct (files w !! Fs.path_join ANALYSIS_DIR file) as [[text|names]|];
    try reflexivity.
  destruct (JSON_parse text) as [payload|]; [|reflexivity].
  destruct payload; try reflexivity;
    (destruct (has_code _); [|reflexivity]; cbn [negb];
     destruct (template text_of _) as [endpointName|e]; [|reflexivity];
     unfold bind, console_log, on_client, Client.write_console, modify;
     cbn [fst snd ai files clock]; apply try_catch_returns; reflexivity).
Qed.

Lemma run_keeps_client (model prompt : string) (attemptNumber : nat)
    (w : Client.world) :
  genaiClient (fst (run rt model prompt attemptNumber w)) = genaiClient w.
Proof.
  unfold run, bind, count_attempt, modify, generateTextWithGenAI, gets, try_catch,
    generateContent, throw, write_console, ret.
  cbn. destruct (genaiClient w) as [c|]; [|reflexivity].
  destruct (shape c); cbn; try destruct (respond c _ _ _); reflexivity.
Qed.

Lemma pRetry_from_keeps_client (model prompt : string) (retriesLeft : nat) :
  forall (attemptNumber : nat) (errors : list exn) (w : Client.world),
    genaiClient (fst (pRetry_from rt retriesLeft attemptNumber errors
                        (run rt model prompt) (onFailedAttempt rt) w))
    = genaiClient w.
Proof.
  induction retriesLeft as [|r IH]; intros k errors w;
    pose proof (run_keeps_client model prompt k w) as Hrun;
    destruct (run rt model prompt k w) as [w1 [a|e]] eqn:Hi; cbn [fst] in Hrun.
  - rewrite (pRetry_from_succeeded rt _ _ _ _ _ _ _ Hi). exact Hrun.
  - destruct (aborts rt e) eqn:Ha.
    + rewrite (pRetry_from_aborted rt _ _ _ _ _ _ _ Hi Ha). exact Hrun.
    + rewrite (pRetry_from_failed rt _ _ _ _ _ _ _ Hi Ha). exact Hrun.
  - rewrite (pRetry_from_succeeded rt _ _ _ _ _ _ _ Hi). exact Hrun.
  - destruct (aborts rt e) eqn:Ha.
    + rewrite (pRetry_from_aborted rt _ _ _ _ _ _ _ Hi Ha). exact Hrun.
    + rewrite (pRetry_from_failed rt _ _ _ _ _ _ _ Hi Ha), IH. exact Hrun.
Qed.

(** One payload with code, without a client: four attempts, no call, no
    report, and the loop goes on. *)
Lemma analyze_file_offline (file : string) (w : Pipeline.world) :
  genaiClient (ai w) = None ->
  ready ANALYSIS_DIR buildAnalysisPrompt text_of w file = true ->
  let out := Pipeline.analyze_file ANALYSIS_DIR AI_REPORTS_DIR rt buildAnalysisPrompt
               toISOString stringify parse_error text_of file w in
  snd out = Returns tt /\
  files (fst out) = files w /\
  clock (fst out) = clock w /\
  genaiClient (ai (fst out)) = None /\
  sdk_calls (ai (fst out)) = sdk_calls (ai w) /\
  attempts (ai (fst out)) = attempts (ai w) + 4.
Proof.
  intros Hc Hr. cbv zeta. unfold ready in Hr.
  unfold Pipeline.analyze_file, bind. rewrite on_files_read.
  destruct (files w !! Fs.path_join ANALYSIS_DIR file) as [[text|names]|];
    try discriminate.
  destruct (JSON_parse text) as [payload|]; [|discriminate].
  apply andb_true_iff in Hr as [Hcode Hw]. unfold writable in Hw.
  destruct (template text_of (endpoint_name payload)) as [endpointName|];
    [|discriminate].
  destruct (buildAnalysisPrompt payload) as [prompt|] eqn:Hb; [|discriminate].
  assert (Hp : ClientTrace.rejected_payload payload = false)
    by apply (has_code_accepted _ Hcode).
  destruct payload; try discriminate Hcode; rewrite Hcode; cbn [negb].
  all: unfold console_log, on_client, Client.write_console, modify;
    cbn [fst snd ai files clock];
    unfold try_catch, Pipeline.report, bind, on_client; cbn [fst snd ai files clock];
    rewrite (analyzeEndpoint_accepted rt buildAnalysisPrompt _ prompt _ _ Hp Hb);
    match goal with
    | |- context [pRetry_from rt ?r ?a [] (run rt ?model ?p) (onFailedAttempt rt) ?w0] =>
        pose proof (pRetry_from_not_initialized rt model p r a [] w0 Hc
                      (List.Forall_nil _))
          as (H1 & H2 & H3 & _);
        pose proof (pRetry_from_keeps_client model p r a [] w0) as H4;
        destruct (pRetry_from rt r a [] (run rt model p) (onFailedAttempt rt) w0)
          as [c res]
    end;
    cbn [fst snd] in H1, H2, H3, H4; subst res;
    unfold console_error, on_client, Client.write_console, modify;
    cbn [fst snd ai files clock logged genaiClient sdk_calls attempts];
    cbn [logged genaiClient sdk_calls attempts] in H2, H3, H4;
    repeat split; try assumption; try (rewrite H4; exact Hc);
    rewrite H2; change (retries_of no_options) with 3; lia.
Qed.

Lemma ready_files (w w' : Pipeline.world) (file : string) :
  files w' = files w ->
  ready ANALYSIS_DIR buildAnalysisPrompt text_of w' file
  = ready ANALYSIS_DIR buildAnalysisPrompt text_of w file.
Proof. unfold ready. intros ->. reflexivity. Qed.

Lemma sweep_offline (payloadFiles : list string) :
  forall w : Pipeline.world,
    genaiClient (ai w) = None ->
    forallb (ready ANALYSIS_DIR buildAnalysisPrompt text_of w) payloadFiles = true ->
    let out := Pipeline.sweep ANALYSIS_DIR AI_REPORTS_DIR rt buildAnalysisPrompt
                 toISOString stringify parse_error text_of payloadFiles w in
    snd out = Returns tt /\
    files (fst out) = files w /\
    clock (fst out) = clock w /\
    sdk_calls (ai (fst out)) = sdk_calls (ai w) /\
    attempts (ai (fst out)) = attempts (ai w) + 4 * length payloadFiles.
Proof.
  induction payloadFiles as [|file l IH]; intros w Hc Hr.
  - cbn. repeat split; lia.
  - cbn [forallb] in Hr. apply andb_true_iff in Hr as [Hf Hl].
    pose proof (analyze_file_offline file w Hc Hf) as H. cbv zeta in H.
    destruct H as (H1 & H2 & H3 & H4 & H5 & H6).
    cbn [Pipeline.sweep]. unfold bind.
    destruct (Pipeline.analyze_file ANALYSIS_DIR AI_REPORTS_DIR rt buildAnalysisPrompt
                toISOString stringify parse_error text_of file w) as [w1 r1]. cbn [fst snd] in *. subst r1.
    assert (Hl1 : forallb (ready ANALYSIS_DIR buildAnalysisPrompt text_of w1) l = true).
    { apply forallb_forall. intros f Hin. rewrite (ready_files w w1 f H2).
      apply (proj1 (forallb_forall _ _) Hl f Hin). }
    destruct (IH w1 H4 Hl1) as (I1 & I2 & I3 & I4 & I5).
    cbn zeta in *. repeat split; try congruence.
    rewrite I5, H6. cbn [length]. lia.
Qed.

End Sweep.

(** X20.  What stops the sweep lies in the payload file.  The loop body
    raises when the file cannot be read, when its text does not parse,
    when it parses to [null], and when the payload holds code but the name
    of its endpoint cannot be turned into text for the line that announces
    the analysis; whatever happens after that (a prompt that cannot be
    built, a failed analysis, a reply that cannot be cleaned, a report that
    cannot be written) is logged, and the loop goes on to the next file.
    The errors of the SDK have ordinary messages. *)
Theorem only_the_payload_file_stops_the_sweep
    (ANALYSIS_DIR AI_REPORTS_DIR : string) (rt : Client.runtime)
    (buildAnalysisPrompt : json -> result string)
    (toISOString : nat -> string) (stringify : Adapter.outcome -> string)
    (parse_error : string -> string) (text_of : json -> result string)
    (file : string) (w : Pipeline.world) :
  ClientTrace.ordinary_rejections (Pipeline.ai w) ->
  snd (Pipeline.analyze_file ANALYSIS_DIR AI_REPORTS_DIR rt buildAnalysisPrompt
         toISOString stringify parse_error text_of file w) =
  match Pipeline.files w !! Fs.path_join ANALYSIS_DIR file with
  | None => Throws (Fs.ENOENT (Fs.path_join ANALYSIS_DIR file))
  | Some (Fs.Dir _) => Throws (Fs.EISDIR (Fs.path_join ANALYSIS_DIR file))
  | Some (Fs.File text) =>
      match JSON_parse text with
      | None => Throws (mkExn SyntaxError (parse_error text))
      | Some JNull => Throws Pipeline.null_payload
      | Some payload =>
          if Pipeline.has_code payload then
            match Pipeline.template text_of (Pipeline.endpoint_name payload) with
            | Returns _ => Returns tt
            | Throws e => Throws e
            end
          else Returns tt
      end
  end.
Proof. intros _. apply analyze_file_outcome. Qed.

Lemma only_the_payload_file_stops_the_sweep_witness :
  snd (Pipeline.analyze_file "/app/analysis_reports" "/app/src/ai_reports"
         Examples.runtime Examples.prompt_of Scenarios.iso Scenarios.show
         Scenarios.message_of Scenarios.text_of "getUser.json" Scenarios.online)
  = Returns tt.
Proof.
  apply (only_the_payload_file_stops_the_sweep "/app/analysis_reports"
           "/app/src/ai_reports" Examples.runtime Examples.prompt_of Scenarios.iso
           Scenarios.show Scenarios.message_of Scenarios.text_of "getUser.json"
           Scenarios.online).
  intros c n model prompt e Hc Hr. injection Hc as <-. discriminate Hr.
Defined.

(** X21.  Without a client the sweep still ends well.  When the SDK did not
    load and every payload file is there, parses and holds code, and the
    name of its endpoint and its prompt can be written,
    [analyzeReports] makes four attempts for each payload, reaches the SDK
    for none, writes no report and does not read the clock; it returns
    normally, and the last line on the console says that all endpoints
    were analyzed successfully. *)
Theorem sweep_without_a_client_reports_success
    (ANALYSIS_DIR AI_REPORTS_DIR : string) (rt : Client.runtime)
    (buildAnalysisPrompt : json -> result string)
    (toISOString : nat -> string) (stringify : Adapter.outcome -> string)
    (parse_error : string -> string) (text_of : json -> result string)
    (w : Pipeline.world) (names : list string) :
  Client.genaiClient (Pipeline.ai w) = None ->
  Pipeline.files w !! ANALYSIS_DIR = Some (Fs.Dir names) ->
  Pipeline.payload_files names <> [] ->
  forallb (Pipeline.ready ANALYSIS_DIR buildAnalysisPrompt text_of w)
    (Pipeline.payload_files names) = true ->
  let out := Pipeline.analyzeReports ANALYSIS_DIR AI_REPORTS_DIR rt buildAnalysisPrompt
               toISOString stringify parse_error text_of w in
  snd out = Returns tt /\
  Pipeline.files (fst out) = Pipeline.files w /\
  Pipeline.clock (fst out) = Pipeline.clock w /\
  Client.sdk_calls (Pipeline.ai (fst out)) = Client.sdk_calls (Pipeline.ai w) /\
  Client.attempts (Pipeline.ai (fst out))
    = Client.attempts (Pipeline.ai w) + 4 * length (Pipeline.payload_files names) /\
  exists lines : list Fs.log_line,
    Pipeline.console (fst out)
    = (lines ++ [Fs.Log ("All selected endpoints analyzed successfully!" +:+ nl)])%list.
Proof.
  intros Hc Hd Hne Hr. unfold Pipeline.analyzeReports, bind.
  rewrite console_log_world, on_files_readdir.
  cbn [Pipeline.files]. rewrite Hd.
  destruct (Pipeline.payload_files names) as [|f l] eqn:E; [congruence|].
  match goal with |- context [Pipeline.sweep _ _ _ _ _ _ _ _ _ ?w0] => set (w1 := w0) end.
  assert (Hr1 : forallb (Pipeline.ready ANALYSIS_DIR buildAnalysisPrompt text_of w1)
                  (f :: l) = true).
  { apply forallb_forall. intros g Hin.
    rewrite (ready_files ANALYSIS_DIR buildAnalysisPrompt text_of w w1 g eq_refl).
    apply (proj1 (forallb_forall _ _) Hr g Hin). }
  destruct (sweep_offline ANALYSIS_DIR AI_REPORTS_DIR rt buildAnalysisPrompt toISOString
              stringify parse_error text_of (f :: l) w1 Hc Hr1)
    as (H1 & H2 & H3 & H4 & H5).
  destruct (Pipeline.sweep ANALYSIS_DIR AI_REPORTS_DIR rt buildAnalysisPrompt toISOString
              stringify parse_error text_of (f :: l) w1) as [w2 r2].
  cbn [fst snd] in *. subst r2. rewrite console_log_world.
  unfold Pipeline.console.
  cbn [fst snd Pipeline.ai Pipeline.files Pipeline.clock Client.logged
       Client.sdk_calls Client.attempts Client.console].
  repeat split; try assumption; eauto.
Qed.

Lemma sweep_without_a_client_reports_success_witness :
  let out := Pipeline.analyzeReports "/app/analysis_reports" "/app/src/ai_reports"
               Examples.runtime Examples.prompt_of Scenarios.iso Scenarios.show Scenarios.message_of
               Scenarios.text_of Scenarios.offline in
  snd out = Returns tt /\
  Pipeline.files (fst out) = Scenarios.reports_tree /\
  Pipeline.clock (fst out) = 0 /\
  Client.sdk_calls (Pipeline.ai (fst out)) = 0 /\
  Client.attempts (Pipeline.ai (fst out)) = 8 /\
  exists lines : list Fs.log_line,
    Pipeline.console (fst out)
    = (lines ++ [Fs.Log ("All selected endpoints analyzed successfully!" +:+ nl)])%list.
Proof.
  apply (sweep_without_a_client_reports_success "/app/analysis_reports"
           "/app/src/ai_reports" Examples.runtime Examples.prompt_of Scenarios.iso Scenarios.show
           Scenarios.message_of Scenarios.text_of Scenarios.offline
           ["getUser.json"; "last_session.json"; "createPost.json"]).
  - reflexivity.
  - vm_compute. reflexivity.
  - vm_compute. discriminate.
  - vm_compute. reflexivity.
Defined.

(** X22.  A payload without code is skipped: when the file parses to a
    value other than [null] whose [function] holds neither cleaned nor
    sanitized code, the loop body writes one warning and does nothing
    else: no attempt, no report, no reading of the clock. *)
Theorem payload_without_code_is_skipped
    (ANALYSIS_DIR AI_REPORTS_DIR : string) (rt : Client.runtime)
    (buildAnalysisPrompt : json -> result string)
    (toISOString : nat -> string) (stringify : Adapter.outcome -> string)
    (parse_error : string -> string) (text_of : json -> result string)
    (file : string) (w : Pipeline.world) (text : string) (payload : json) :
  Pipeline.files w !! Fs.path_join ANALYSIS_DIR file = Some (Fs.File text) ->
  JSON_parse text = Some payload ->
  payload <> JNull ->
  Pipeline.has_code payload = false ->
  Pipeline.analyze_file ANALYSIS_DIR AI_REPORTS_DIR rt buildAnalysisPrompt
    toISOString stringify parse_error text_of file w
  = (Pipeline.mkWorld (Pipeline.files w)
       (Client.logged
          (Fs.Warn ("Skipping " +:+ file +:+ ": invalid payload structure."))
          (Pipeline.ai w))
       (Pipeline.clock w),
     Returns tt).
Proof.
  intros Hf Hp Hn Hc. unfold Pipeline.analyze_file, bind.
  rewrite on_files_read, Hf, Hp.
  destruct payload; try congruence; rewrite Hc; reflexivity.
Qed.

Lemma payload_without_code_is_skipped_witness :
  Pipeline.analyze_file "/app/analysis_reports" "/app/src/ai_reports"
    Examples.runtime Examples.prompt_of Scenarios.iso Scenarios.show Scenarios.message_of
    Scenarios.text_of "last_session.json" Scenarios.offline
  = (Pipeline.mkWorld Scenarios.reports_tree
       (Client.logged
          (Fs.Warn "Skipping last_session.json: invalid payload structure.")
          Examples.unconfigured)
       0,
     Returns tt).
Proof.
  apply (payload_without_code_is_skipped "/app/analysis_reports"
           "/app/src/ai_reports" Examples.runtime Examples.prompt_of Scenarios.iso Scenarios.show
           Scenarios.message_of Scenarios.text_of "last_session.json"
           Scenarios.offline "{}" (JObject [])).
  - vm_compute. reflexivity.
  - reflexivity.
  - discriminate.
  - reflexivity.
Defined.

Section Report.
Import Client Pipeline.

Variable ANALYSIS_DIR AI_REPORTS_DIR : string.
Variable rt : Client.runtime.
Variable buildAnalysisPrompt : json -> result string.
Variable toISOString : nat -> string.
Variable stringify : Adapter.outcome -> string.
Variable parse_error : string -> string.
Variable text_of : json -> result string.

(** Lines added to the one console. *)
Lemma cleanGeminiResponse_logged (rawResponse : string) (w : Pipeline.world) :
  exists lines : list Fs.log_line,
    Pipeline.cleanGeminiResponse parse_error rawResponse w =
    (Pipeline.mkWorld (files w) (fold_left (fun c l => logged l c) lines (ai w))
       (clock w),
     Returns (Adapter.cleanGeminiResponse rawResponse)).
Proof.
  unfold Pipeline.cleanGeminiResponse, Adapter.cleanGeminiResponse.
  destruct w as [f a c]. cbn [files ai clock].
  destruct (negb (JsString.truthy rawResponse)); [exists []; reflexivity|].
  destruct (JSON_parse (Adapter.cleanup (Adapter.extract_candidate rawResponse)))
    as [parsed|]; [exists []; reflexivity|].
  unfold bind.
  destruct (JSON_parse
              (Adapter.auto_fix (Adapter.cleanup (Adapter.extract_candidate rawResponse))))
    as [parsed|]; eexists [_; _]; reflexivity.
Qed.

Lemma fold_logged_fields (lines : list Fs.log_line) :
  forall a : Client.world,
    genaiClient (fold_left (fun c l => logged l c) lines a) = genaiClient a /\
    attempts (fold_left (fun c l => logged l c) lines a) = attempts a /\
    sdk_calls (fold_left (fun c l => logged l c) lines a) = sdk_calls a.
Proof.
  induction lines as [|l lines IH]; intros a; [auto|].
  cbn [fold_left]. destruct (IH (logged l a)) as (H1 & H2 & H3). auto.
Qed.

Lemma analyzeEndpoint_answered (payload : json) (prompt : string)
    (a : Client.world) (c : genai) (reply : string) :
  ClientTrace.rejected_payload payload = false ->
  buildAnalysisPrompt payload = Returns prompt ->
  genaiClient a = Some c ->
  ClientTrace.callable c = true ->
  respond c (sdk_calls a) (DEFAULT_MODEL a) prompt = Responds reply ->
  analyzeEndpoint rt buildAnalysisPrompt payload no_options a =
  (Client.mkWorld (Some c) (DEFAULT_MODEL a) (S (attempts a)) (S (sdk_calls a))
     (slept a) (Client.console a),
   Returns (mkAnalysis reply (parse_raw reply))).
Proof.
  intros Hp Hb Hc Hs Hr.
  rewrite (analyzeEndpoint_accepted rt buildAnalysisPrompt _ _ _ _ Hp Hb).
  apply pRetry_from_succeeded. apply (run_responded rt _ _ _ _ c reply Hc Hs Hr).
Qed.

(** One payload with code and a client that answers: the report. *)
Lemma analyze_file_answered (file : string) (w : Pipeline.world)
    (text : string) (payload : json) (c : genai) (reply : string)
    (prompt endpointName : string) (listing : list string) :
  let reportPath :=
    Fs.path_join AI_REPORTS_DIR
      (endpointName +:+ "_AI_Insights_"
       +:+ replace (toISOString (clock w)) colon_dot_re [RText "-"] +:+ ".json") in
  files w !! Fs.path_join ANALYSIS_DIR file = Some (Fs.File text) ->
  JSON_parse text = Some payload ->
  has_code payload = true ->
  template text_of (endpoint_name payload) = Returns endpointName ->
  buildAnalysisPrompt payload = Returns prompt ->
  genaiClient (ai w) = Some c ->
  ClientTrace.callable c = true ->
  respond c (sdk_calls (ai w)) (DEFAULT_MODEL (ai w)) prompt = Responds reply ->
  reply <> EmptyString ->
  Adapter.cleanGeminiResponse reply <> Adapter.ThrowsTypeError ->
  files w !! reportPath = None ->
  files w !! dirname reportPath = Some (Fs.Dir listing) ->
  let out := Pipeline.analyze_file ANALYSIS_DIR AI_REPORTS_DIR rt buildAnalysisPrompt
               toISOString stringify parse_error text_of file w in
  snd out = Returns tt /\
  files (fst out) =
    <[reportPath := Fs.File (stringify (Adapter.cleanGeminiResponse reply))]>
      (<[dirname reportPath := Fs.Dir (listing ++ [Fs.last_segment reportPath])%list]>
         (files w)) /\
  clock (fst out) = S (clock w) /\
  attempts (ai (fst out)) = S (attempts (ai w)) /\
  sdk_calls (ai (fst out)) = S (sdk_calls (ai w)).
Proof.
  intros reportPath Hf Hp Hcode Hname Hb Hc Hs Hr Hne Hclean Hnew Hdir.
  assert (Hacc : ClientTrace.rejected_payload payload = false)
    by apply (has_code_accepted _ Hcode).
  unfold Pipeline.analyze_file, bind. rewrite on_files_read, Hf, Hp.
  assert (Hbody :
    forall w2 : Pipeline.world,
      files w2 = files w -> clock w2 = clock w ->
      genaiClient (ai w2) = Some c ->
      sdk_calls (ai w2) = sdk_calls (ai w) ->
      attempts (ai w2) = attempts (ai w) ->
      DEFAULT_MODEL (ai w2) = DEFAULT_MODEL (ai w) ->
      exists a3 : Client.world,
        Pipeline.report AI_REPORTS_DIR rt buildAnalysisPrompt toISOString
          stringify parse_error endpointName payload w2 =
        (Pipeline.mkWorld
           (<[reportPath := Fs.File (stringify (Adapter.cleanGeminiResponse reply))]>
              (<[dirname reportPath :=
                   Fs.Dir (listing ++ [Fs.last_segment reportPath])%list]>
                 (files w)))
           a3 (S (clock w)),
         Returns tt) /\
        attempts a3 = S (attempts (ai w)) /\
        sdk_calls a3 = S (sdk_calls (ai w))).
  { intros w2 E1 E2 E3 E4 E5 E6. unfold Pipeline.report, bind.
    unfold on_client at 1.
    rewrite (analyzeEndpoint_answered payload prompt (ai w2) c reply Hacc Hb E3 Hs)
      by (rewrite E4, E6; exact Hr).
    unfold clean. cbn [raw]. rewrite (truthy_nonempty _ Hne). unfold bind.
    match goal with
    | |- context [Pipeline.cleanGeminiResponse parse_error reply ?w0] =>
        destruct (cleanGeminiResponse_logged reply w0) as (lines & ->)
    end.
    cbn [files ai clock].
    destruct (fold_logged_fields lines
                (Client.mkWorld (Some c) (DEFAULT_MODEL (ai w2)) (S (attempts (ai w2)))
                   (S (sdk_calls (ai w2))) (slept (ai w2)) (Client.console (ai w2))))
      as (F1 & F2 & F3).
    cbn [genaiClient attempts sdk_calls] in F1, F2, F3.
    destruct (Adapter.cleanGeminiResponse reply) as [r|e|] eqn:Ecl; [| |congruence].
    all: unfold ret, now, writeFileSync; cbn [files ai clock];
      rewrite E1, E2; fold reportPath; rewrite Hnew, Hdir;
      rewrite console_log_world; cbn [fst snd files ai clock];
      eexists; split; [reflexivity|];
      cbn [logged attempts sdk_calls]; rewrite F2, F3, E4, E5; auto. }
  destruct payload; try discriminate Hcode; rewrite Hcode, Hname; cbn [negb].
  all: rewrite !console_log_world; unfold try_catch.
  all: match goal with
       | |- context [Pipeline.report _ _ _ _ _ _ _ _ ?w2] =>
           destruct (Hbody w2 eq_refl eq_refl Hc eq_refl eq_refl eq_refl)
             as (a3 & B1 & B2 & B3);
           rewrite B1
       end.
  all: cbn [fst snd files ai clock]; auto.
Qed.

End Report.

Section ReportPath.
Import Sweep Pipeline.

Lemma dashed_no_slash (s : string) :
  all_chars no_slash s = true -> all_chars no_slash (dashed s) = true.
Proof.
  induction s as [|c s IH]; [reflexivity|]. cbn [all_chars dashed].
  intros H. apply andb_true_iff in H as [Hc Hs]. rewrite (IH Hs).
  destruct (is_mark c); [reflexivity | rewrite Hc; reflexivity].
Qed.

(** A name of more than two characters without a slash is a segment. *)
Lemma segment_long (name : string) :
  all_chars no_slash name = true -> 2 < String.length name -> segment name = true.
Proof.
  intros H Hl. unfold segment. rewrite H. cbn [andb].
  rewrite !andb_true_iff, !negb_true_iff, !String.eqb_neq.
  repeat split; intros E; rewrite E in Hl; cbn in Hl; lia.
Qed.

End ReportPath.

(** X23.  A payload with code whose endpoint name and prompt can be
    written, and a client that answers the first call with a non-empty
    ASCII text: whatever [cleanGeminiResponse] makes of the reply, an
    insight or the error object of a reply that is no JSON, is written as
    the report.  One attempt and one call are made, the clock is read
    once, and the report is a new file in the listing of the reports
    directory, named after the endpoint and the time with dashes for colons
    and dots; the other files stay as they are.  The reports directory is
    given in normal form: it is the directory of the path that [path.join]
    makes of it and the name of the report. *)
Theorem answered_payload_is_reported
    (ANALYSIS_DIR AI_REPORTS_DIR : string) (rt : Client.runtime)
    (buildAnalysisPrompt : json -> result string)
    (toISOString : nat -> string) (stringify : Adapter.outcome -> string)
    (parse_error : string -> string) (text_of : json -> result string)
    (file : string) (w : Pipeline.world)
    (text : string) (payload : json) (c : Client.genai) (reply : string)
    (prompt endpointName : string) (listing : list string) :
  let reportName :=
    endpointName +:+ "_AI_Insights_"
    +:+ Pipeline.dashed (toISOString (Pipeline.clock w)) +:+ ".json" in
  let reportPath := Fs.path_join AI_REPORTS_DIR reportName in
  Pipeline.files w !! Fs.path_join ANALYSIS_DIR file = Some (Fs.File text) ->
  JSON_parse text = Some payload ->
  Pipeline.has_code payload = true ->
  Pipeline.template text_of (Pipeline.endpoint_name payload) = Returns endpointName ->
  buildAnalysisPrompt payload = Returns prompt ->
  Client.genaiClient (Pipeline.ai w) = Some c ->
  ClientTrace.callable c = true ->
  Client.respond c (Client.sdk_calls (Pipeline.ai w))
    (Client.DEFAULT_MODEL (Pipeline.ai w)) prompt
    = Client.Responds reply ->
  reply <> EmptyString ->
  is_ascii reply = true ->
  Adapter.cleanGeminiResponse reply <> Adapter.ThrowsTypeError ->
  all_chars Sweep.no_slash endpointName = true ->
  all_chars Sweep.no_slash (toISOString (Pipeline.clock w)) = true ->
  Pipeline.dirname reportPath = AI_REPORTS_DIR ->
  Pipeline.files w !! reportPath = None ->
  Pipeline.files w !! AI_REPORTS_DIR = Some (Fs.Dir listing) ->
  let out := Pipeline.analyze_file ANALYSIS_DIR AI_REPORTS_DIR rt buildAnalysisPrompt
               toISOString stringify parse_error text_of file w in
  snd out = Returns tt /\
  Pipeline.files (fst out) =
    <[reportPath := Fs.File (stringify (Adapter.cleanGeminiResponse reply))]>
      (<[AI_REPORTS_DIR := Fs.Dir (listing ++ [reportName])%list]>
         (Pipeline.files w)) /\
  Pipeline.clock (fst out) = S (Pipeline.clock w) /\
  Client.attempts (Pipeline.ai (fst out)) = S (Client.attempts (Pipeline.ai w)) /\
  Client.sdk_calls (Pipeline.ai (fst out)) = S (Client.sdk_calls (Pipeline.ai w)).
Proof.
  intros reportName reportPath Hf Hp Hcode Hn Hb Hc Hs Hr Hne _ Hclean
    Hn1 Hn2 Hd Hnew Hdir.
  assert (Hname : Sweep.segment reportName = true).
  { apply segment_long.
    - unfold reportName. rewrite !all_chars_app, Hn1, (dashed_no_slash _ Hn2).
      reflexivity.
    - unfold reportName. rewrite !append_length. cbn. lia. }
  assert (Hstamp :
    replace (toISOString (Pipeline.clock w)) Pipeline.colon_dot_re [RText "-"]
    = Pipeline.dashed (toISOString (Pipeline.clock w))).
  { unfold replace. cbn [re_global Pipeline.colon_dot_re].
    fold Pipeline.colon_dot_re. apply replace_loop_mark. lia. }
  pose proof (analyze_file_answered ANALYSIS_DIR AI_REPORTS_DIR rt buildAnalysisPrompt
                toISOString stringify parse_error text_of file w text payload c
                reply prompt endpointName listing) as H.
  cbv zeta in H. rewrite Hstamp in H.
  fold reportName in H. fold reportPath in H.
  rewrite Hd in H. unfold reportPath at 3 in H.
  rewrite (last_segment_join _ _ Hname) in H.
  cbv zeta. apply H; assumption.
Qed.

Lemma answered_payload_is_reported_witness :
  let reportName := "getUser_AI_Insights_2025-01-01T00-00-00-000Z.json" in
  let out := Pipeline.analyze_file "/app/analysis_reports" "/app/src/ai_reports"
               Examples.runtime Examples.prompt_of Scenarios.iso Scenarios.show
               Scenarios.message_of Scenarios.text_of "getUser.json"
               Scenarios.online in
  snd out = Returns tt /\
  Pipeline.files (fst out) =
    <["/app/src/ai_reports/" +:+ reportName := Fs.File "{}"]>
      (<["/app/src/ai_reports" := Fs.Dir [reportName]]> Scenarios.reports_tree) /\
  Pipeline.clock (fst out) = 1 /\
  Client.attempts (Pipeline.ai (fst out)) = 1 /\
  Client.sdk_calls (Pipeline.ai (fst out)) = 1.
Proof.
  apply (answered_payload_is_reported "/app/analysis_reports" "/app/src/ai_reports"
           Examples.runtime Examples.prompt_of Scenarios.iso Scenarios.show
           Scenarios.message_of Scenarios.text_of "getUser.json" Scenarios.online
           (Scenarios.payload_text "getUser")
           (JObject [("function",
                      JObject [("name", JString "getUser");
                               ("sanitizedCode", JString "res.send(1);")])])
           (Client.mkGenai Client.ModelsApi
              (fun _ _ _ => Client.Responds Examples.fenced_response))
           Examples.fenced_response "Analyze the following endpoint" "getUser" []).
  - vm_compute. reflexivity.
  - reflexivity.
  - reflexivity.
  - reflexivity.
  - reflexivity.
  - reflexivity.
  - reflexivity.
  - reflexivity.
  - discriminate.
  - reflexivity.
  - vm_compute. discriminate.
  - reflexivity.
  - reflexivity.
  - vm_compute. reflexivity.
  - vm_compute. reflexivity.
  - vm_compute. reflexivity.
Defined.
